(** * MusicVAE inference (magenta/models/music_vae/js/index.ts)

    A shallow embedding of the TypeScript module: the NADE output head, the
    bidirectional LSTM encoder, the autoregressive decoder, latent
    interpolation, weight binding from the checkpoint store, the three
    integer/bit/one-hot utilities, and the device check.

    Conventions of the embedding.
    - A number held by a tensor is an element of a type [F] that carries the
      arithmetic of the tensor runtime ([Arith]) and its two activation
      functions ([Activation]).  Nothing is assumed about these operations:
      no associativity, no neutral element.  Two instances are given: exact
      rationals ([Qc]) and IEEE binary32 ([spec_float] at precision 24), the
      storage format of the runtime's float32 tensors.
    - [dl.linspace] is the one place where the runtime computes on
      JavaScript numbers and stores the outcome in a float32 buffer; the
      class [Storage] carries the numbers and the two conversions.
    - A rank-1 tensor is a list, a rank-2 tensor a list of rows, a rank-3
      tensor [batch, T, D] a list (per batch entry) of lists (per time step)
      of rows.  Shapes are read off the lists; the runtime's assertions on
      the shapes of operands are not modelled, the operations on tensors are
      total on lists and theorems that need conforming shapes say so in
      their hypotheses.  Two assertions of the runtime depend on a count
      rather than on a shape and are modelled: [dl.stack] refuses fewer than
      two tensors and [dl.linspace] refuses to produce no value.
    - The tensor runtime ([deeplearn], imported as [dl]) is not part of the
      repository.  Its primitives are modelled by what they compute on
      conforming shapes; the two composite ones, [basicLSTMCell] and
      [multiRNNCell], follow the specification's description.
    - The width of an LSTM state is [bias.length / 4]; a bias has four
      entries per hidden unit, and [/] on [nat] is the quotient that
      JavaScript computes in that case.
    - A JavaScript exception is a [Throw] of the [result] type.
    - Integer-valued JavaScript numbers are [Z]; [>>], [<<] and [&] go
      through ToInt32 as ECMAScript prescribes. *)

From Stdlib Require Import ZArith List Lia QArith Qcanon.
From Stdlib Require Import Floats.SpecFloat.
From stdpp Require Import gmap strings list fin_maps pretty.

(** ** Numbers of the tensor runtime *)

(** The arithmetic the source uses on tensor entries: [add], [sub], [mul],
    the literals [0.0], [1.0] and [0.5], [greaterEqual] and the strict
    comparison behind [argMax]; division is used inside [dl.linspace], on
    JavaScript numbers. *)
Class Arith (F : Type) := {
  zero : F;
  one : F;
  half : F;
  add : F -> F -> F;
  sub : F -> F -> F;
  mul : F -> F -> F;
  div : F -> F -> F;
  geb : F -> F -> bool;
  gtb : F -> F -> bool
}.

(** The number [n] as the runtime computes with it. *)
Fixpoint fromNat {F : Type} `{Arith F} (n : nat) : F :=
  match n with
  | O => zero
  | S k => add (fromNat k) one
  end.

(** [dl.sigmoid] and [tanh], entry by entry. *)
Class Activation (F : Type) := {
  sigmoid : F -> F;
  tanh : F -> F
}.

(** JavaScript numbers next to the entries of a float32 tensor: [store]
    writes a number into the buffer of a tensor, [load] reads an entry back
    as a number. *)
Class Storage (F : Type) := {
  Number : Type;
  Number_Arith :: Arith Number;
  store : Number -> F;
  load : F -> Number
}.

(** ** Exceptions *)

Inductive Error :=
| InvalidArgument (msg : string)  (* [throw new Error(msg)] of this module *)
| TypeError                       (* a property read on [undefined] or [null] *)
| ShapeMismatch                   (* a reshape to a different number of entries,
                                     or to a dimension that is not positive *)
| TooFewTensors                   (* [dl.stack] of fewer than two tensors *)
| ZeroSamples.                    (* [dl.linspace] asked for no value *)

Inductive result (A : Type) :=
| Ok (a : A)
| Throw (e : Error).
Arguments Ok {A} a.
Arguments Throw {A} e.

(** Sequencing: the first exception ends the computation ([x ← r; k]). *)
#[export] Instance result_bind : MBind result := fun A B k r =>
  match r with
  | Ok a => k a
  | Throw e => Throw e
  end.

(** ** Tensors as nested lists *)

Abbreviation Tensor1D F := (list F) (only parsing).
Abbreviation Tensor2D F := (list (list F)) (only parsing).
Abbreviation Tensor3D F := (list (list (list F))) (only parsing).

Section TensorOps.
Context {F : Type} `{Arith F} `{Activation F} `{Storage F}.

(** [shape[1]] of a rank-2 tensor. *)
Definition ncols {A} (m : list (list A)) : nat :=
  match m with
  | [] => 0
  | r :: _ => length r
  end.

(** [shape[2]] of a rank-3 tensor. *)
Definition shape2 {A} (w : list (list (list A))) : nat :=
  match w with
  | [] => 0
  | m :: _ => ncols m
  end.

(** [dl.zeros([r, c])]. *)
Definition zeros (r c : nat) : Tensor2D F := replicate r (replicate c zero).

(** [t.slice([r0, c0], [nr, nc])] on a rank-2 tensor. *)
Definition slice2 {A} (t : list (list A)) (r0 c0 nr nc : nat) : list (list A) :=
  map (fun row => take nc (drop c0 row)) (take nr (drop r0 t)).

(** [t.slice([b0, t0, d0], [nb, nt, nd])] on a rank-3 tensor. *)
Definition slice3 {A} (t : list (list (list A))) (b0 t0 d0 nb nt nd : nat)
  : list (list (list A)) :=
  map (fun m => slice2 m t0 d0 nt nd) (take nb (drop b0 t)).

(** [t.as1D()] on a rank-2 tensor: the rows one after the other. *)
Definition as1D {A} (t : list (list A)) : list A := concat t.

(** [t.as2D(r, c)] on a rank-3 tensor [r, 1, c]: the two inner axes merged. *)
Definition as2D {A} (t : list (list (list A))) : list (list A) := map (@concat A) t.

(** [t.as2D(r * r, c)] on a rank-3 tensor [r, r, c]: the two outer axes
    merged, row-major. *)
Definition as2D_outer {A} (t : list (list (list A))) : list (list A) := concat t.

(** [v.as3D(r, c, 1)] on a rank-2 tensor [r, c]: a trailing axis of size 1. *)
Definition as3D_1 {A} (t : list (list A)) : list (list (list A)) :=
  map (map (fun x => [x])) t.

(** Entry-wise operations on tensors of one shape. *)
Definition add1 (a b : Tensor1D F) : Tensor1D F := zip_with add a b.
Definition sub1 (a b : Tensor1D F) : Tensor1D F := zip_with sub a b.
Definition add2 (a b : Tensor2D F) : Tensor2D F := zip_with add1 a b.
Definition mul2 (a b : Tensor2D F) : Tensor2D F := zip_with (zip_with mul) a b.
Definition sigmoid2 (a : Tensor2D F) : Tensor2D F := map (map sigmoid) a.
Definition tanh2 (a : Tensor2D F) : Tensor2D F := map (map tanh) a.

Definition addStrict3 (a b : Tensor3D F) : Tensor3D F := zip_with add2 a b.

(** [v.mul(t)] with [v] of shape [c] and [t] of shape [r, r, 1]: the
    trailing axis of [t] is broadcast against [v]. *)
Definition mulBroadcast (v : Tensor1D F) (t : Tensor3D F) : Tensor3D F :=
  map (map (fun cell => map (fun x => mul x (nth 0 cell zero)) v)) t.

(** [m.add(v)] with [v] of rank 1: [v] is broadcast over the rows. *)
Definition addRows (m : Tensor2D F) (v : Tensor1D F) : Tensor2D F :=
  map (fun row => add1 row v) m.

(** [m + s] and [s.sub(v)] with [s] a scalar. *)
Definition addScalar2 (m : Tensor2D F) (s : F) : Tensor2D F :=
  map (map (fun x => add x s)) m.
Definition scalarSub1 (s : F) (v : Tensor1D F) : Tensor1D F := map (sub s) v.

(** The sum of products accumulated from [0], left to right. *)
Definition dot (u v : Tensor1D F) : F := fold_left add (zip_with mul u v) zero.

(** Column [j] of a rank-2 tensor, and the tensor of its columns. *)
Definition column (j : nat) (m : Tensor2D F) : Tensor1D F :=
  map (fun row => nth j row zero) m.

Definition transpose (m : Tensor2D F) : Tensor2D F :=
  map (fun j => column j m) (seq 0 (ncols m)).

(** [dl.matMul(a, b, false, true)]: [a] times the transpose of [b]. *)
Definition matMulT (a b : Tensor2D F) : Tensor2D F :=
  map (fun ar => map (fun br => dot ar br) b) a.

(** [a.matMul(b)]. *)
Definition matMul (a b : Tensor2D F) : Tensor2D F := matMulT a (transpose b).

(** [dl.outerProduct(u, v)]: the matrix product of [u] as a column by [v]
    as a row, so that every entry is a sum of one product, accumulated from
    [0] like every entry of a matrix product. *)
Definition outerProduct (u v : Tensor1D F) : Tensor2D F :=
  map (fun x => map (fun y => dot [x] [y]) v) u.

(** [dl.concat2d([a, b], 1)]. *)
Definition concat2d {A} (a b : list (list A)) : list (list A) := zip_with app a b.

(** [t.greaterEqual(s).toFloat()]. *)
Definition greaterEqualF (t : Tensor2D F) (s : F) : Tensor2D F :=
  map (map (fun x => if geb x s then one else zero)) t.

(** [dl.stack(ts, 1)]: entry [b] of the result lists entry [b] of every
    tensor of [ts], in order.  The runtime asserts that [ts] holds at least
    two tensors; the shape comes from the first one. *)
Definition stack1 {A} (ts : list (list A)) : result (list (list A)) :=
  match ts with
  | t :: _ :: _ => Ok (foldr (zip_with cons) (replicate (length t) []) ts)
  | _ => Throw TooFewTensors
  end.

(** The index of the first largest entry of a row ([argMax] along axis 1);
    [best] is the running maximum, [bi] its index, [j] the current index. *)
Fixpoint argMaxFrom (best : F) (bi j : nat) (row : Tensor1D F) : nat :=
  match row with
  | [] => bi
  | x :: row' =>
      if gtb x best then argMaxFrom x j (S j) row'
      else argMaxFrom best bi (S j) row'
  end.

Definition argMaxRow (row : Tensor1D F) : nat :=
  match row with
  | [] => 0
  | x :: row' => argMaxFrom x 0 1 row'
  end.

(** [t.argMax(1)]. *)
Definition argMax (t : Tensor2D F) : list nat := map argMaxRow t.

(** [dl.oneHot(labels, depth).toFloat()]. *)
Definition oneHot (labels : list nat) (depth : nat) : Tensor2D F :=
  map (fun l => map (fun d => if Nat.eqb d l then one else zero) (seq 0 depth)) labels.

(** [dl.linspace(start, stop, num)]: refused for [num = 0]; otherwise
    [step = (stop - start) / (num - 1)] is computed on JavaScript numbers,
    [values[0] = start] and [values[i] = values[i-1] + step], where [values]
    is the float32 buffer of the result: every value is stored before it is
    read again, and the sum is taken on JavaScript numbers. *)
Fixpoint linspaceFrom (v : F) (step : Number) (n : nat) : Tensor1D F :=
  match n with
  | O => []
  | S k => v :: linspaceFrom (store (add (load v) step)) step k
  end.

Definition linspace (start stop : Number) (num : nat) : result (Tensor1D F) :=
  match num with
  | O => Throw ZeroSamples
  | S _ => Ok (linspaceFrom (store start) (div (sub stop start) (fromNat (num - 1))) num)
  end.

(** ** LayerVars and dense *)

Record LayerVars := {
  kernel : Tensor2D F;
  bias : Tensor1D F
}.

Definition dense (vars : LayerVars) (inputs : Tensor2D F) : Tensor2D F :=
  addRows (matMul inputs (kernel vars)) (bias vars).

(** ** The recurrent cell of the runtime *)

(** Modelled from the spec: [dl.basicLSTMCell(forgetBias, kernel, bias, data,
    c, h)] of the tensor runtime, which is not part of this repository
    (specification, section 4.2).  The input and the hidden state are
    concatenated along the feature axis and put through the affine map
    [(kernel, bias)]; the result is cut into four equal chunks, in the order
    input gate [i], candidate [j], forget gate [f], output gate [o];
    [forget = sigmoid(f + forgetBias)], [input = sigmoid(i)],
    [output = sigmoid(o)], [candidate = tanh(j)];
    [c' = c * forget + input * candidate] and [h' = tanh(c') * output].
    Returns [(c', h')]. *)
Definition basicLSTMCell (forgetBias : F) (lstmKernel : Tensor2D F)
    (lstmBias : Tensor1D F) (data c h : Tensor2D F) : Tensor2D F * Tensor2D F :=
  let combined := concat2d data h in
  let res := addRows (matMul combined lstmKernel) lstmBias in
  let batchSize := length res in
  let sliceCols := ncols res / 4 in
  let i := slice2 res 0 0 batchSize sliceCols in
  let j := slice2 res 0 sliceCols batchSize sliceCols in
  let f := slice2 res 0 (sliceCols * 2) batchSize sliceCols in
  let o := slice2 res 0 (sliceCols * 3) batchSize sliceCols in
  let newC := add2 (mul2 c (sigmoid2 (addScalar2 f forgetBias)))
                   (mul2 (sigmoid2 i) (tanh2 j)) in
  let newH := mul2 (tanh2 newC) (sigmoid2 o) in
  (newC, newH).

(** [const forgetBias = dl.scalar(1.0)]. *)
Definition forgetBias : F := one.

(** Modelled from the spec: [dl.multiRNNCell(cells, data, c, h)] of the
    tensor runtime (specification, section 4.5, step 3a).  Layer 0 consumes
    [data], every further layer the new hidden state of the layer below;
    every layer updates its own [(c, h)].  Returns the new [c] and [h] of
    all layers. *)
Fixpoint multiRNNCell (cells : list LayerVars) (data : Tensor2D F)
    (c h : list (Tensor2D F)) : list (Tensor2D F) * list (Tensor2D F) :=
  match cells, c, h with
  | lv :: cells', ci :: c', hi :: h' =>
      let out := basicLSTMCell forgetBias (kernel lv) (bias lv) data ci hi in
      let rest := multiRNNCell cells' (snd out) c' h' in
      (fst out :: fst rest, snd out :: snd rest)
  | _, _, _ => ([], [])
  end.
End TensorOps.

Arguments LayerVars F : clear implicits.

(** ** class Nade *)

Module Nade.
Section Def.
Context {F : Type} `{Arith F} `{Activation F}.

Record t := {
  encWeights : Tensor2D F;
  decWeightsT : Tensor2D F;
  numDims : nat;
  numHidden : nat
}.

(** The constructor: both weights arrive with rank 3, [numDims, 1, numHidden]. *)
Definition new (encWeights3 decWeightsT3 : Tensor3D F) : t :=
  {| encWeights := as2D encWeights3;
     decWeightsT := as2D decWeightsT3;
     numDims := length encWeights3;
     numHidden := shape2 encWeights3 |}.

(** One turn of the loop of [sample]; the state is [(a, samples)]. *)
Definition sampleStep (self : t) (batchSize : nat) (decBias : Tensor2D F)
    (st : Tensor2D F * list (Tensor1D F)) (i : nat)
  : Tensor2D F * list (Tensor1D F) :=
  let a := fst st in
  let h := sigmoid2 a in
  let encWeightsI := as1D (slice2 (encWeights self) i 0 1 (numHidden self)) in
  let decWeightsTI := slice2 (decWeightsT self) i 0 1 (numHidden self) in
  let decBiasI := slice2 decBias 0 i batchSize 1 in
  let condLogitsI := add2 decBiasI (matMulT h decWeightsTI) in
  let condProbsI := sigmoid2 condLogitsI in
  let samplesI := as1D (greaterEqualF condProbsI half) in
  let a' := if i <? numDims self - 1
            then add2 a (outerProduct samplesI encWeightsI)
            else a in
  (a', snd st ++ [samplesI]).

Definition sample (self : t) (encBias decBias : Tensor2D F) : result (Tensor2D F) :=
  let batchSize := length encBias in
  let final := fold_left (sampleStep self batchSize decBias)
                         (seq 0 (numDims self)) (encBias, []) in
  stack1 (snd final).
End Def.
Arguments t F : clear implicits.
End Nade.

(** ** class Encoder *)

Module Encoder.
Section Def.
Context {F : Type} `{Arith F} `{Activation F}.

Record t := {
  lstmFwVars : LayerVars F;
  lstmBwVars : LayerVars F;
  muVars : LayerVars F;
  zDims : nat
}.

Definition new (lstmFwVars lstmBwVars muVars : LayerVars F) : t :=
  {| lstmFwVars := lstmFwVars;
     lstmBwVars := lstmBwVars;
     muVars := muVars;
     zDims := length (bias muVars) |}.

(** The slice of time step [index] of [inputs], as [batchSize, outputSize]. *)
Definition timeSlice (inputs : Tensor3D F) (batchSize outputSize index : nat)
  : Tensor2D F :=
  as2D (slice3 inputs 0 index 0 batchSize 1 outputSize).

Definition runLstm (inputs : Tensor3D F) (lstmVars : LayerVars F) (reverse : bool)
  : Tensor2D F * Tensor2D F :=
  let batchSize := length inputs in
  let length := ncols inputs in
  let outputSize := shape2 inputs in
  let state0 := (zeros batchSize (List.length (bias lstmVars) / 4),
                 zeros batchSize (List.length (bias lstmVars) / 4)) in
  let lstm := fun (data : Tensor2D F) (state : Tensor2D F * Tensor2D F) =>
    basicLSTMCell forgetBias (kernel lstmVars) (bias lstmVars) data
                  (fst state) (snd state) in
  fold_left
    (fun state i =>
       let index := if reverse then length - 1 - i else i in
       lstm (timeSlice inputs batchSize outputSize index) state)
    (seq 0 length) state0.

Definition encode (self : t) (sequence : Tensor3D F) : Tensor2D F :=
  let fwState := runLstm sequence (lstmFwVars self) false in
  let bwState := runLstm sequence (lstmBwVars self) true in
  let finalState := concat2d (snd fwState) (snd bwState) in
  let mu := dense (muVars self) finalState in
  mu.
End Def.
Arguments t F : clear implicits.
End Encoder.

(** ** class Decoder *)

(** An entry of a decoded tensor: [argMax] yields an int32 tensor of labels,
    the NADE head a float tensor. *)
Inductive Entry (F : Type) :=
| IntVal (k : nat)
| FloatVal (x : F).
Arguments IntVal {F} k.
Arguments FloatVal {F} x.

Module Decoder.
Section Def.
Context {F : Type} `{Arith F} `{Activation F}.

Record t := {
  lstmCellVars : list (LayerVars F);
  zToInitStateVars : LayerVars F;
  outputProjectVars : LayerVars F;
  zDims : nat;
  outputDims : nat;
  nade : option (Nade.t F)
}.

Definition new (lstmCellVars : list (LayerVars F))
    (zToInitStateVars outputProjectVars : LayerVars F) (nade : option (Nade.t F)) : t :=
  {| lstmCellVars := lstmCellVars;
     zToInitStateVars := zToInitStateVars;
     outputProjectVars := outputProjectVars;
     zDims := length (kernel zToInitStateVars);
     outputDims := match nade with
                   | Some n => Nade.numDims n
                   | None => length (bias outputProjectVars)
                   end;
     nade := nade |}.

(** The first loop of [decode]: the initial [c] and [h] of every layer, cut
    out of [initialStates] from [stateOffset] on. *)
Fixpoint initCells (cells : list (LayerVars F)) (initialStates : Tensor2D F)
    (batchSize stateOffset : nat) : list (Tensor2D F) * list (Tensor2D F) :=
  match cells with
  | [] => ([], [])
  | lv :: cells' =>
      let stateWidth := length (bias lv) / 4 in
      let ci := slice2 initialStates 0 stateOffset batchSize stateWidth in
      let hi := slice2 initialStates 0 (stateOffset + stateWidth) batchSize stateWidth in
      let rest := initCells cells' initialStates batchSize
                            (stateOffset + stateWidth + stateWidth) in
      (ci :: fst rest, hi :: snd rest)
  end.

(** The variables of the second loop. *)
Record LoopState := {
  c : list (Tensor2D F);
  h : list (Tensor2D F);
  nextInput : Tensor2D F;
  samples : list (list (list (Entry F)))
}.

(** One turn of the generation loop. *)
Definition decodeStep (self : t) (batchSize : nat) (z : Tensor2D F) (st : LoopState)
  : result LoopState :=
  let output := multiRNNCell (lstmCellVars self) (concat2d (nextInput st) z)
                             (c st) (h st) in
  let c' := fst output in
  let h' := snd output in
  match last h' with
  | None => Throw TypeError
  | Some hLast =>
      let logits := dense (outputProjectVars self) hLast in
      match nade self with
      | None =>
          let timeLabels := argMax logits in
          Ok {| c := c'; h := h';
                nextInput := oneHot timeLabels (outputDims self);
                samples := samples st ++ [map (fun l => [IntVal l]) timeLabels] |}
      | Some n =>
          let encBias := slice2 logits 0 0 batchSize (Nade.numHidden n) in
          let decBias := slice2 logits 0 (Nade.numHidden n) batchSize (Nade.numDims n) in
          nextInput' ← Nade.sample n encBias decBias;
          Ok {| c := c'; h := h';
                nextInput := nextInput';
                samples := samples st ++ [map (map FloatVal) nextInput'] |}
      end
  end.

Fixpoint decodeLoop (self : t) (batchSize : nat) (z : Tensor2D F) (length : nat)
    (st : LoopState) : result LoopState :=
  match length with
  | O => Ok st
  | S k => st' ← decodeStep self batchSize z st; decodeLoop self batchSize z k st'
  end.

Definition decode (self : t) (z : Tensor2D F) (length : nat)
  : result (list (list (list (Entry F)))) :=
  let batchSize := List.length z in
  let initialStates := tanh2 (dense (zToInitStateVars self) z) in
  let ch := initCells (lstmCellVars self) initialStates batchSize 0 in
  st ← decodeLoop self batchSize z length
        {| c := fst ch; h := snd ch;
           nextInput := zeros batchSize (outputDims self);
           samples := [] |};
  stack1 (samples st).
End Def.
Arguments t F : clear implicits.
End Decoder.

(** ** The runtime seen by the top-level class

    [dl.randomNormal] draws from a generator that lives in the runtime.  The
    state threaded through the methods of [MusicVAE] is that generator
    together with the list of the calls made so far into the encoder, the
    latent blend and the decoder, most recent last. *)

Class RandomSource (F : Type) := {
  Gen : Type;
  randomNormal : nat -> nat -> Gen -> Tensor2D F * Gen
}.

Inductive Call :=
| CallEncode
| CallInterpolateZs
| CallDecode
| CallRandomNormal.

Record Runtime (G : Type) := {
  gen : G;
  calls : list Call
}.
Arguments gen {G} r.
Arguments calls {G} r.

Definition logCall {G} (c : Call) (rt : Runtime G) : Runtime G :=
  {| gen := gen rt; calls := calls rt ++ [c] |}.

(** ** The encoder as a program on the runtime

    [Encoder.runLstm], [dense] and [Encoder.encode] once more, statement by
    statement, as programs that call the tensor runtime.  A program starts
    from the state of the runtime's generator and ends with a value, the
    state of the generator afterwards and the list of the primitives it
    called, in order.  [dl.randomNormal] is the one primitive of the module
    that reads and advances the generator. *)

Inductive Primitive :=
| PrimZeros
| PrimSlice
| PrimAs2D
| PrimBasicLSTMCell
| PrimConcat2d
| PrimMatMul
| PrimAdd
| PrimRandomNormal.

Module OnRuntime.
Section Def.
Context {F : Type} `{Arith F} `{Activation F} `{RandomSource F}.

Definition Program (A : Type) : Type := Gen -> A * Gen * list Primitive.

Definition ret {A} (a : A) : Program A := fun g => (a, g, []).

Definition bind {A B} (m : Program A) (k : A -> Program B) : Program B :=
  fun g =>
    let r1 := m g in
    let r2 := k (fst (fst r1)) (snd (fst r1)) in
    (fst (fst r2), snd (fst r2), snd r1 ++ snd r2).

(** A primitive whose result [a] is computed from its operands. *)
Definition call {A} (p : Primitive) (a : A) : Program A := fun g => (a, g, [p]).

(** [dl.randomNormal([r, c])]. *)
Definition drawNormal (r c : nat) : Program (Tensor2D F) :=
  fun g => (fst (randomNormal r c g), snd (randomNormal r c g), [PrimRandomNormal]).

(** [for (let i = 0; i < n; i++)] over a state, the indices given as a list. *)
Fixpoint forEach {S} (body : nat -> S -> Program S) (indices : list nat) (s : S)
  : Program S :=
  match indices with
  | [] => ret s
  | i :: rest => bind (body i s) (forEach body rest)
  end.

Definition dense (vars : LayerVars F) (inputs : Tensor2D F) : Program (Tensor2D F) :=
  bind (call PrimMatMul (matMul inputs (kernel vars))) (fun product =>
  call PrimAdd (addRows product (bias vars))).

Definition runLstm (inputs : Tensor3D F) (lstmVars : LayerVars F) (reverse : bool)
  : Program (Tensor2D F * Tensor2D F) :=
  let batchSize := length inputs in
  let length := ncols inputs in
  let outputSize := shape2 inputs in
  bind (call PrimZeros (zeros batchSize (List.length (bias lstmVars) / 4))) (fun c0 =>
  bind (call PrimZeros (zeros batchSize (List.length (bias lstmVars) / 4))) (fun h0 =>
  forEach
    (fun i state =>
       let index := if reverse then length - 1 - i else i in
       bind (call PrimSlice (slice3 inputs 0 index 0 batchSize 1 outputSize)) (fun sliced =>
       bind (call PrimAs2D (as2D sliced)) (fun data =>
       call PrimBasicLSTMCell
         (basicLSTMCell forgetBias (kernel lstmVars) (bias lstmVars) data
                        (fst state) (snd state)))))
    (seq 0 length) (c0, h0))).

Definition encode (self : Encoder.t F) (sequence : Tensor3D F) : Program (Tensor2D F) :=
  bind (runLstm sequence (Encoder.lstmFwVars self) false) (fun fwState =>
  bind (runLstm sequence (Encoder.lstmBwVars self) true) (fun bwState =>
  bind (call PrimConcat2d (concat2d (snd fwState) (snd bwState))) (fun finalState =>
  dense (Encoder.muVars self) finalState))).

(** The first statement of [MusicVAE.sample]: the latent vectors are drawn. *)
Definition drawLatents (dec : Decoder.t F) (numSamples : nat) : Program (Tensor2D F) :=
  drawNormal numSamples (Decoder.zDims dec).
End Def.
End OnRuntime.

(** ** class MusicVAE: interpolate and sample *)

Module MusicVAE.
Section Def.
Context {F : Type} `{Arith F} `{Activation F} `{Storage F} `{RandomSource F}.

(** The model as its numeric methods see it: [encoder] and [decoder], each
    [null] before [initialize] and after [dispose], with weights typed as
    TypeScript declares them.  ([checkpointURL] and [rawVars] play no part
    in these methods; they are fields of [Checkpoint.MusicVAE] below.) *)
Record t := {
  encoder : option (Encoder.t F);
  decoder : option (Decoder.t F)
}.

(** The body of the [dl.tidy] block of [interpolate]: the latent points for
    the [n] encoded sequences [z] ([n] is [sequences.shape[0]]). *)
Definition interpolateZs (z : Tensor2D F) (n numSteps : nat) : result (Tensor2D F) :=
  rangeArray ← linspace zero one numSteps;
  let z0 := as1D (slice2 z 0 0 1 (ncols z)) in
  let z1 := as1D (slice2 z 1 0 1 (ncols z)) in
  if n =? 2 then
    let zDiff := sub1 z1 z0 in
    Ok (addRows (outerProduct rangeArray zDiff) z0)
  else if n =? 4 then
    let z2 := as1D (slice2 z 2 0 1 (ncols z)) in
    let z3 := as1D (slice2 z 3 0 1 (ncols z)) in
    let revRangeArray := scalarSub1 one rangeArray in
    let finalZs := mulBroadcast z0 (as3D_1 (outerProduct revRangeArray revRangeArray)) in
    let finalZs := addStrict3 finalZs
      (mulBroadcast z1 (as3D_1 (outerProduct rangeArray revRangeArray))) in
    let finalZs := addStrict3 finalZs
      (mulBroadcast z2 (as3D_1 (outerProduct revRangeArray rangeArray))) in
    let finalZs := addStrict3 finalZs
      (mulBroadcast z3 (as3D_1 (outerProduct rangeArray rangeArray))) in
    Ok (as2D_outer finalZs)
  else
    Throw (InvalidArgument "Invalid number of note sequences. Requires length 2, or 4").

Definition interpolate (self : t) (sequences : Tensor3D F) (numSteps : nat)
    (rt : Runtime Gen) : result (list (list (list (Entry F)))) * Runtime Gen :=
  if negb (length sequences =? 2) && negb (length sequences =? 4) then
    (Throw (InvalidArgument "Invalid number of input sequences. Requires length 2, or 4"),
     rt)
  else
    match encoder self with
    | None => (Throw TypeError, rt)
    | Some enc =>
        let rt := logCall CallEncode rt in
        let z := Encoder.encode enc sequences in
        let rt := logCall CallInterpolateZs rt in
        match interpolateZs z (length sequences) numSteps with
        | Throw e => (Throw e, rt)
        | Ok interpolatedZs =>
            match decoder self with
            | None => (Throw TypeError, rt)
            | Some dec =>
                (Decoder.decode dec interpolatedZs (ncols sequences),
                 logCall CallDecode rt)
            end
        end
    end.

Definition sample (self : t) (numSamples numSteps : nat) (rt : Runtime Gen)
  : result (list (list (list (Entry F)))) * Runtime Gen :=
  match decoder self with
  | None => (Throw TypeError, rt)
  | Some dec =>
      let drawn := randomNormal numSamples (Decoder.zDims dec) (gen rt) in
      let rt := logCall CallRandomNormal {| gen := snd drawn; calls := calls rt |} in
      (Decoder.decode dec (fst drawn) numSteps, logCall CallDecode rt)
  end.
End Def.
Arguments t F : clear implicits.
End MusicVAE.

(** ** MusicVAE.initialize: binding the checkpoint store

    TypeScript's casts ([vars[name] as dl.Tensor2D]) check nothing at run
    time: a name missing from the store binds [undefined].  [initialize] and
    the constructors it runs are therefore modelled on the values JavaScript
    holds: a tensor of any rank, or [undefined] ([None]).  Only [shape] is
    ever read while loading. *)

Module Checkpoint.
Section Def.
Context {F : Type}.

Record Tensor := {
  shape : list nat;
  values : list F
}.

(** [util.sizeFromShape]. *)
Definition sizeFromShape (s : list nat) : nat := foldr Nat.mul 1 s.

(** [t.as2D(rows, columns)]: a reshape, refused when a dimension is not
    positive or when the number of entries differs; [rows] or [columns] may
    be [undefined]. *)
Definition as2D (t : Tensor) (rows columns : option nat) : result Tensor :=
  match rows, columns with
  | Some r, Some c =>
      if (0 <? r) && (0 <? c) && (sizeFromShape (shape t) =? r * c)
      then Ok {| shape := [r; c]; values := values t |}
      else Throw ShapeMismatch
  | _, _ => Throw ShapeMismatch
  end.

Record LayerVars := {
  kernel : option Tensor;
  bias : option Tensor
}.

Record Nade := {
  encWeights : Tensor;
  decWeightsT : Tensor;
  numDims : option nat;
  numHidden : option nat
}.

Definition newNade (encWeights decWeightsT : option Tensor) : result Nade :=
  match encWeights with
  | None => Throw TypeError
  | Some ew =>
      let numDims := shape ew !! 0 in
      let numHidden := shape ew !! 2 in
      ew2 ← as2D ew numDims numHidden;
      match decWeightsT with
      | None => Throw TypeError
      | Some dw =>
          dw2 ← as2D dw numDims numHidden;
          Ok {| encWeights := ew2; decWeightsT := dw2;
                numDims := numDims; numHidden := numHidden |}
      end
  end.

(** [enc_zDims] is the field [zDims] of the class [Encoder]. *)
Record Encoder := {
  lstmFwVars : LayerVars;
  lstmBwVars : LayerVars;
  muVars : LayerVars;
  enc_zDims : option nat
}.

Definition newEncoder (lstmFwVars lstmBwVars muVars : LayerVars) : result Encoder :=
  match bias muVars with
  | None => Throw TypeError
  | Some b =>
      Ok {| lstmFwVars := lstmFwVars; lstmBwVars := lstmBwVars; muVars := muVars;
            enc_zDims := shape b !! 0 |}
  end.

Record Decoder := {
  lstmCellVars : list LayerVars;
  zToInitStateVars : LayerVars;
  outputProjectVars : LayerVars;
  zDims : option nat;
  outputDims : option nat;
  nade : option Nade
}.

Definition newDecoder (lstmCellVars : list LayerVars)
    (zToInitStateVars outputProjectVars : LayerVars) (nade : option Nade)
  : result Decoder :=
  match kernel zToInitStateVars with
  | None => Throw TypeError
  | Some k =>
      outputDims ← match nade with
                   | Some n => Ok (numDims n)
                   | None =>
                       match bias outputProjectVars with
                       | None => Throw TypeError
                       | Some b => Ok (shape b !! 0)
                       end
                   end;
      Ok {| lstmCellVars := lstmCellVars;
            zToInitStateVars := zToInitStateVars;
            outputProjectVars := outputProjectVars;
            zDims := shape k !! 0;
            outputDims := outputDims;
            nade := nade |}
  end.

Record MusicVAE := {
  checkpointURL : string;
  encoder : option Encoder;
  decoder : option Decoder;
  rawVars : option (gmap string Tensor)
}.

Definition new (checkpointURL : string) : MusicVAE :=
  {| checkpointURL := checkpointURL; encoder := None; decoder := None;
     rawVars := None |}.

Definition isInitialized (self : MusicVAE) : bool :=
  match encoder self, decoder self with
  | Some _, Some _ => true
  | _, _ => false
  end.

(** [dispose]: [Object.keys(this.rawVars)] raises when [rawVars] was never
    set; otherwise every tensor of the store is released and both parts are
    set to [null]. *)
Definition dispose (self : MusicVAE) : result MusicVAE :=
  match rawVars self with
  | None => Throw TypeError
  | Some vars =>
      Ok {| checkpointURL := checkpointURL self; encoder := None; decoder := None;
            rawVars := Some vars |}
  end.

(** [new LayerVars(vars[prefix + 'kernel'], vars[prefix + 'bias'])]. *)
Definition layerAt (vars : gmap string Tensor) (prefix : string) : LayerVars :=
  {| kernel := vars !! (prefix +:+ "kernel"); bias := vars !! (prefix +:+ "bias") |}.

(** [DECODER_CELL_FORMAT.replace('%d', l.toString())]. *)
Definition cellPrefix (l : nat) : string :=
  "decoder/multi_rnn_cell/cell_" +:+ pretty l +:+ "/lstm_cell/".

(** The [while (true)] loop over the decoder cells, cut off after [fuel]
    turns ([None]). *)
Fixpoint probeCells (vars : gmap string Tensor) (fuel l : nat)
    (decLstmLayers : list LayerVars) : option (list LayerVars) :=
  match fuel with
  | O => None
  | S fuel' =>
      match vars !! (cellPrefix l +:+ "kernel") with
      | None => Some decLstmLayers
      | Some _ =>
          probeCells vars fuel' (S l) (decLstmLayers ++ [layerAt vars (cellPrefix l)])
      end
  end.

(** The loop leaves within [size vars + 1] turns (lemma [probeCells_ends]). *)
Definition decLstmLayers (vars : gmap string Tensor) : list LayerVars :=
  default [] (probeCells vars (S (size vars)) 0 []).

(** [initialize], given the store [vars] that the loader returned. *)
Definition initialize (self : MusicVAE) (vars : gmap string Tensor) : result MusicVAE :=
  let encLstmFw :=
    layerAt vars "encoder/cell_0/bidirectional_rnn/fw/multi_rnn_cell/cell_0/lstm_cell/" in
  let encLstmBw :=
    layerAt vars "encoder/cell_0/bidirectional_rnn/bw/multi_rnn_cell/cell_0/lstm_cell/" in
  let encMu := layerAt vars "encoder/mu/" in
  let decLstmLayers := decLstmLayers vars in
  let decZtoInitState := layerAt vars "decoder/z_to_initial_state/" in
  let decOutputProjection := layerAt vars "decoder/output_projection/" in
  nade ← match vars !! "decoder/nade/w_enc" with
         | Some _ =>
             n ← newNade (vars !! "decoder/nade/w_enc") (vars !! "decoder/nade/w_dec_t");
             Ok (Some n)
         | None => Ok None
         end;
  encoder ← newEncoder encLstmFw encLstmBw encMu;
  decoder ← newDecoder decLstmLayers decZtoInitState decOutputProjection nade;
  Ok {| checkpointURL := checkpointURL self;
        encoder := Some encoder;
        decoder := Some decoder;
        rawVars := Some vars |}.
End Def.
Arguments Tensor F : clear implicits.
Arguments LayerVars F : clear implicits.
Arguments Nade F : clear implicits.
Arguments Encoder F : clear implicits.
Arguments Decoder F : clear implicits.
Arguments MusicVAE F : clear implicits.
End Checkpoint.

(** ** intsToBits, bitsToInts, intsToOneHot

    The integers are JavaScript numbers with integer values.  The operators
    [>>], [<<] and [&] convert their operands with ToInt32 and take the shift
    count modulo 32. *)

Module Js.
Local Open Scope Z_scope.

(** ToInt32 on an integer-valued number. *)
Definition toInt32 (x : Z) : Z := (x + 2 ^ 31) mod 2 ^ 32 - 2 ^ 31.

(** [x >> d]. *)
Definition sar (x d : Z) : Z := Z.shiftr (toInt32 x) (d mod 32).

(** [x << d]. *)
Definition shl (x d : Z) : Z := toInt32 (Z.shiftl (toInt32 x) (d mod 32)).

(** [x & y]. *)
Definition band (x y : Z) : Z := Z.land (toInt32 x) (toInt32 y).
End Js.

(** The inner loop of [intsToBits] followed by the patch of the last bit:
    [b[depth - 1] = 1] writes element [depth - 1] when [depth >= 1]; for
    [depth = 0] it sets the property ["-1"] and leaves the elements alone. *)
Definition intToBits (x : Z) (depth : nat) : list Z :=
  let b := map (fun d => Js.band (Js.sar x (Z.of_nat d)) 1) (seq 0 depth) in
  if decide (x = 0%Z) then
    match depth with
    | O => b
    | S k => <[k := 1%Z]> b
    end
  else b.

Definition intsToBits (ints : list Z) (depth : nat) : list (list Z) :=
  map (fun x => intToBits x depth) ints.

(** The inner loop of [bitsToInts]: [b += bits[i][d] << d] from index [d] on. *)
Fixpoint sumBits (b : Z) (d : nat) (bs : list Z) : Z :=
  match bs with
  | [] => b
  | x :: bs' => sumBits (b + Js.shl x (Z.of_nat d)) (S d) bs'
  end.

Definition bitsToInts (bits : list (list Z)) : list Z :=
  map (fun bs => sumBits 0 0 bs) bits.

Definition intsToOneHot (ints : list Z) (depth : nat) : list (list Z) :=
  map (fun x => map (fun d => if decide (Z.of_nat d = x) then 1%Z else 0%Z)
                    (seq 0 depth)) ints.

(** A bit: 0 or 1. *)
Definition isBit (b : Z) : Prop := b = 0%Z \/ b = 1%Z.

(** The number whose binary digits, least significant first, are [bs]. *)
Definition bitsValue (bs : list Z) : Z := foldr (fun b v => (b + 2 * v)%Z) 0%Z bs.

(** ** isDeviceSupported, isWebGLSupported, isSafari

    What the module reads from its environment: the WebGL version the
    tensor runtime reports ([dl.ENV.get('WEBGL_VERSION')], 0 when there is
    none) and the user agent of the browser ([navigator.userAgent]), a
    string of ASCII characters. *)

Record Env := {
  WEBGL_VERSION : nat;
  userAgent : string
}.

Module JsString.
(** [c.toLowerCase()] on an ASCII character: the letters [A]-[Z] move to
    [a]-[z], everything else stays. *)
Definition lowerChar (c : Ascii.ascii) : Ascii.ascii :=
  let n := Ascii.nat_of_ascii c in
  if (65 <=? n) && (n <=? 90) then Ascii.ascii_of_nat (n + 32) else c.

Fixpoint toLowerCase (s : string) : string :=
  match s with
  | EmptyString => EmptyString
  | String c s' => String (lowerChar c) (toLowerCase s')
  end.

(** [s.indexOf(pat)]: the position of the first occurrence, or -1. *)
Definition indexOf (s pat : string) : Z :=
  match String.index 0 pat s with
  | Some m => Z.of_nat m
  | None => (-1)%Z
  end.
End JsString.

Definition isWebGLSupported (env : Env) : bool := 1 <=? WEBGL_VERSION env.

Definition isSafari (env : Env) : bool :=
  let ua := JsString.toLowerCase (userAgent env) in
  if negb (JsString.indexOf ua "safari" =? -1)%Z then
    if (JsString.indexOf ua "chrome" >? -1)%Z then false else true
  else false.

Definition isDeviceSupported (env : Env) : bool :=
  isWebGLSupported env && negb (isSafari env).

(** [pat] occurs in [s]. *)
Definition occursIn (pat s : string) : Prop :=
  exists pre post, s = pre +:+ pat +:+ post.

(** [pat], a word in lower case, occurs in [s] in some letter case. *)
Definition occursAnyCase (pat s : string) : Prop :=
  exists w, JsString.toLowerCase w = pat /\ occursIn w s.

(** Two user agents of the wild. *)
Definition chromeUserAgent : string :=
  "Mozilla/5.0 (X11; Linux x86_64) AppleWebKit/537.36 (KHTML, like Gecko) Chrome/64.0.3282.140 Safari/537.36".

Definition safariUserAgent : string :=
  "Mozilla/5.0 (Macintosh; Intel Mac OS X 10_13_3) AppleWebKit/604.5.6 (KHTML, like Gecko) Version/11.0.3 Safari/604.5.6".

(** ** Two arithmetics *)

(** Exact rationals, for the entries and for the numbers of [dl.linspace]. *)
#[export] Instance Qc_Arith : Arith Qc := {
  zero := 0%Qc;
  one := 1%Qc;
  half := Q2Qc (1 # 2);
  add := Qcplus;
  sub := Qcminus;
  mul := Qcmult;
  div := Qcdiv;
  geb := fun x y => Qle_bool (this y) (this x);
  gtb := fun x y => negb (Qle_bool (this x) (this y))
}.

#[export] Instance Qc_Storage : Storage Qc := {
  Number := Qc;
  Number_Arith := Qc_Arith;
  store := fun x => x;
  load := fun x => x
}.

(** IEEE binary32, round to nearest even: what a float32 tensor stores. *)
Definition float32 : Type := spec_float.
Definition f32_prec : Z := 24.
Definition f32_emax : Z := 128.

(** IEEE binary64, round to nearest even: a JavaScript number. *)
Definition float64 : Type := spec_float.
Definition f64_prec : Z := 53.
Definition f64_emax : Z := 1024.

(** The two formats share their representation; instances are chosen by
    the name of the type. *)
#[global] Typeclasses Opaque float32 float64.

#[export] Instance float32_Arith : Arith float32 := {
  zero := S754_zero false;
  one := S754_finite false 8388608 (-23);
  half := S754_finite false 8388608 (-24);
  add := SFadd f32_prec f32_emax;
  sub := SFsub f32_prec f32_emax;
  mul := SFmul f32_prec f32_emax;
  div := SFdiv f32_prec f32_emax;
  geb := fun x y => SFleb y x;
  gtb := fun x y => SFltb y x
}.

#[export] Instance float64_Arith : Arith float64 := {
  zero := S754_zero false;
  one := S754_finite false 4503599627370496 (-52);
  half := S754_finite false 4503599627370496 (-53);
  add := SFadd f64_prec f64_emax;
  sub := SFsub f64_prec f64_emax;
  mul := SFmul f64_prec f64_emax;
  div := SFdiv f64_prec f64_emax;
  geb := fun x y => SFleb y x;
  gtb := fun x y => SFltb y x
}.

(** A number written into a float32 buffer is rounded to binary32 (to
    nearest even; out of range it becomes an infinity). *)
Definition toFloat32 (x : float64) : float32 :=
  match x with
  | S754_finite s m e => binary_round f32_prec f32_emax s m e
  | _ => x
  end.

(** A binary32 value is a binary64 value as it stands. *)
#[export] Instance float32_Storage : Storage float32 := {
  Number := float64;
  Number_Arith := float64_Arith;
  store := toFloat32;
  load := fun x => x
}.

(** A rational activation pair with the shape of the real one
    ([x / (1 + |x|)] squashed to [(0, 1)] and to [(-1, 1)]); it only serves
    to run the definitions on concrete inputs.  No theorem depends on it. *)
Definition Qc_abs (x : Qc) : Qc := if Qle_bool 0 (this x) then x else Qcopp x.

Definition Qc_softsign : Activation Qc := {|
  sigmoid := fun x => (Q2Qc (1 # 2) + x / (Q2Qc 2 * (1 + Qc_abs x)))%Qc;
  tanh := fun x => (x / (1 + Qc_abs x))%Qc
|}.

(** A generator for examples: the state is a counter, every draw hands out
    the next integers. *)
Definition counterSource : RandomSource Qc := {|
  Gen := nat;
  randomNormal := fun n d g =>
    (map (fun i => map (fun j => Q2Qc (Z.of_nat (g + i * d + j) # 1)) (seq 0 d)) (seq 0 n),
     g + n * d)
|}.

(** ** Auxiliary notions for the statements *)

(** A computation that ended without an exception. *)
Definition isOk {A} (r : result A) : Prop := exists a, r = Ok a.

(** A program on the runtime that returns [a] from whatever state of the
    generator, leaves that state as it was and calls no primitive that
    draws numbers. *)
Definition drawsNothing {F} `{RandomSource F} {A} (m : OnRuntime.Program A) (a : A)
  : Prop :=
  forall g, exists log, m g = (a, g, log) /\ PrimRandomNormal ∉ log.

(** A computation that did not end in an invalid-argument error. *)
Definition noArgumentError {A} (r : result A) : Prop :=
  match r with
  | Ok _ => True
  | Throw e => forall msg, e <> InvalidArgument msg
  end.

(** The name probed for decoder cell [l]. *)
Definition cellKernel (l : nat) : string := Checkpoint.cellPrefix l +:+ "kernel".

(** ** Small concrete inputs *)

Definition threeSequences : Tensor3D Qc := [[[1%Qc]]; [[1%Qc]]; [[1%Qc]]].

Definition notLoaded : MusicVAE.t Qc :=
  {| MusicVAE.encoder := None; MusicVAE.decoder := None |}.

Definition freshRuntime : Runtime nat := {| gen := 0; calls := [] |}.

(** A store tensor of a given shape, all zero. *)
Definition zerosOfShape (s : list nat) : Checkpoint.Tensor Qc :=
  {| Checkpoint.shape := s;
     Checkpoint.values := replicate (Checkpoint.sizeFromShape s) 0%Qc |}.

(** A complete checkpoint of a model with the argmax head: inputs of width
    2, one hidden unit everywhere, one latent dimension, one decoder cell. *)
Definition tinyStore : gmap string (Checkpoint.Tensor Qc) :=
  list_to_map [
    ("encoder/cell_0/bidirectional_rnn/fw/multi_rnn_cell/cell_0/lstm_cell/kernel",
     zerosOfShape [3; 4]);
    ("encoder/cell_0/bidirectional_rnn/fw/multi_rnn_cell/cell_0/lstm_cell/bias",
     zerosOfShape [4]);
    ("encoder/cell_0/bidirectional_rnn/bw/multi_rnn_cell/cell_0/lstm_cell/kernel",
     zerosOfShape [3; 4]);
    ("encoder/cell_0/bidirectional_rnn/bw/multi_rnn_cell/cell_0/lstm_cell/bias",
     zerosOfShape [4]);
    ("encoder/mu/kernel", zerosOfShape [2; 1]);
    ("encoder/mu/bias", zerosOfShape [1]);
    ("decoder/multi_rnn_cell/cell_0/lstm_cell/kernel", zerosOfShape [4; 4]);
    ("decoder/multi_rnn_cell/cell_0/lstm_cell/bias", zerosOfShape [4]);
    ("decoder/z_to_initial_state/kernel", zerosOfShape [1; 2]);
    ("decoder/z_to_initial_state/bias", zerosOfShape [2]);
    ("decoder/output_projection/kernel", zerosOfShape [1; 2]);
    ("decoder/output_projection/bias", zerosOfShape [2])
  ].

(** The same model with a NADE head of two dimensions and one hidden unit. *)
Definition tinyStoreNade : gmap string (Checkpoint.Tensor Qc) :=
  <["decoder/nade/w_enc" := zerosOfShape [2; 1; 1]]>
    (<["decoder/nade/w_dec_t" := zerosOfShape [2; 1; 1]]>
       (<["decoder/output_projection/kernel" := zerosOfShape [1; 3]]>
          (<["decoder/output_projection/bias" := zerosOfShape [3]]> tinyStore))).

(** The model that [initialize] leaves for a store [vars] with the argmax
    head, given the three tensors whose shape is read. *)
Definition loadedArgmax {F} (url : string) (vars : gmap string (Checkpoint.Tensor F))
    (mb zk ob : Checkpoint.Tensor F) : Checkpoint.MusicVAE F :=
  {| Checkpoint.checkpointURL := url;
     Checkpoint.encoder := Some
       {| Checkpoint.lstmFwVars := Checkpoint.layerAt vars
            "encoder/cell_0/bidirectional_rnn/fw/multi_rnn_cell/cell_0/lstm_cell/";
          Checkpoint.lstmBwVars := Checkpoint.layerAt vars
            "encoder/cell_0/bidirectional_rnn/bw/multi_rnn_cell/cell_0/lstm_cell/";
          Checkpoint.muVars := Checkpoint.layerAt vars "encoder/mu/";
          Checkpoint.enc_zDims := Checkpoint.shape mb !! 0 |};
     Checkpoint.decoder := Some
       {| Checkpoint.lstmCellVars := Checkpoint.decLstmLayers vars;
          Checkpoint.zToInitStateVars :=
            Checkpoint.layerAt vars "decoder/z_to_initial_state/";
          Checkpoint.outputProjectVars :=
            Checkpoint.layerAt vars "decoder/output_projection/";
          Checkpoint.zDims := Checkpoint.shape zk !! 0;
          Checkpoint.outputDims := Checkpoint.shape ob !! 0;
          Checkpoint.nade := None |};
     Checkpoint.rawVars := Some vars |}.

(** [tinyStore] without its decoder cell. *)
Definition tinyStoreNoCell : gmap string (Checkpoint.Tensor Qc) :=
  delete "decoder/multi_rnn_cell/cell_0/lstm_cell/kernel" tinyStore.

(** The names [initialize] reads besides those of the decoder cells. *)
Definition fixedNames : list string := [
  "encoder/cell_0/bidirectional_rnn/fw/multi_rnn_cell/cell_0/lstm_cell/kernel";
  "encoder/cell_0/bidirectional_rnn/fw/multi_rnn_cell/cell_0/lstm_cell/bias";
  "encoder/cell_0/bidirectional_rnn/bw/multi_rnn_cell/cell_0/lstm_cell/kernel";
  "encoder/cell_0/bidirectional_rnn/bw/multi_rnn_cell/cell_0/lstm_cell/bias";
  "encoder/mu/kernel";
  "encoder/mu/bias";
  "decoder/z_to_initial_state/kernel";
  "decoder/z_to_initial_state/bias";
  "decoder/output_projection/kernel";
  "decoder/output_projection/bias";
  "decoder/nade/w_enc";
  "decoder/nade/w_dec_t"
].

(** ** The blends of [interpolate], as formulas *)

Section BlendFormulas.
Context {F : Type} `{Arith F}.

(** The product [x * y] as an entry of [dl.outerProduct]: a sum of one
    term, started from [0]. *)
Definition times (x y : F) : F := add zero (mul x y).

(** The point of the segment from [z0] to [z1] at ramp value [t]:
    [t * (z1 - z0) + z0], entry by entry. *)
Definition lerp (t : F) (z0 z1 : Tensor1D F) : Tensor1D F :=
  add1 (map (times t) (sub1 z1 z0)) z0.

(** [z * w] for a weight [w]. *)
Definition scale (z : Tensor1D F) (w : F) : Tensor1D F := map (fun x => mul x w) z.

(** The bilinear blend of four corners at row fraction [r] and column
    fraction [c]:
    [z0*((1-r)*(1-c)) + z1*(r*(1-c)) + z2*((1-r)*c) + z3*(r*c)]. *)
Definition bilinear (r c : F) (z0 z1 z2 z3 : Tensor1D F) : Tensor1D F :=
  add1 (add1 (add1 (scale z0 (times (sub one r) (sub one c)))
                   (scale z1 (times r (sub one c))))
             (scale z2 (times (sub one r) c)))
       (scale z3 (times r c)).
End BlendFormulas.

(** ** binary32 values *)

(** The positive binary32 number [m * 2^e]. *)
Definition f32 (m : positive) (e : Z) : float32 := S754_finite false m e.

(** A zero or a finite number in binary32 format: neither an infinity nor
    a NaN. *)
Definition finite32 (x : float32) : Prop :=
  match x with
  | S754_zero _ => True
  | S754_finite _ m e => bounded f32_prec f32_emax m e = true
  | _ => False
  end.

(** Equal as numbers: identical, or two zeros whatever their signs. *)
Definition sameNumber (x y : float32) : Prop :=
  x = y \/ exists s s', x = S754_zero s /\ y = S754_zero s'.

(** ** Shapes *)

(** A rank-2 tensor of shape [r, c]; a rank-3 tensor of shape [b, t, d]. *)
Definition hasShape2 {A} (r c : nat) (t : list (list A)) : Prop :=
  length t = r /\ Forall (fun row => length row = c) t.

Definition hasShape3 {A} (b t d : nat) (x : list (list (list A))) : Prop :=
  length x = b /\ Forall (hasShape2 t d) x.

(** ** The NADE head and the encoder, as the specification words them *)

Section SpecWords.
Context {F : Type} `{Arith F} `{Activation F}.

(** The conditional logit of dimension [i] for one batch entry: the entry
    [i] of its decoder bias [db] plus the dot product of its hidden vector
    [hb] with row [i] of [decWeightsT]. *)
Definition conditionalLogit (self : Nade.t F) (i : nat) (hb db : Tensor1D F) : F :=
  add (nth i db zero) (dot hb (nth i (Nade.decWeightsT self) [])).

(** The sample of dimension [i] for every batch entry, given the
    accumulator [a]: 1 when the sigmoid of the logit is at least 0.5, else 0;
    [h = sigmoid(a)]. *)
Definition sampleDim (self : Nade.t F) (i : nat) (a decBias : Tensor2D F)
  : Tensor1D F :=
  let h := sigmoid2 a in
  zip_with
    (fun db hb => if geb (sigmoid (conditionalLogit self i hb db)) half
                  then one else zero)
    decBias h.

(** The samples of the dimensions [i], [i+1], ..., [i+n-1] in order; the
    accumulator gains [outerProduct(sample_i, encRow_i)] after every
    dimension but the last one. *)
Fixpoint nadeDims (self : Nade.t F) (decBias a : Tensor2D F) (i n : nat)
  : list (Tensor1D F) :=
  match n with
  | O => []
  | S n' =>
      let s := sampleDim self i a decBias in
      let a' := if decide (S i = Nade.numDims self) then a
                else add2 a (outerProduct s (nth i (Nade.encWeights self) [])) in
      s :: nadeDims self decBias a' (S i) n'
  end.

(** The input of time step [t]: for every batch entry its row at [t]. *)
Definition timeStep (sequence : Tensor3D F) (t : nat) : Tensor2D F :=
  map (fun s => nth t s []) sequence.

(** One pass of the recurrent cell over a list of inputs, from the zero
    state of width [bias.length / 4]; returns the final
    [(cellState, hiddenState)]. *)
Definition lstmPass (batch : nat) (vars : LayerVars F) (inputs : list (Tensor2D F))
  : Tensor2D F * Tensor2D F :=
  fold_left
    (fun st x => basicLSTMCell forgetBias (kernel vars) (bias vars) x (fst st) (snd st))
    inputs
    (zeros batch (length (bias vars) / 4), zeros batch (length (bias vars) / 4)).

(** The latent mean: the forward pass over the steps [0 .. T-1], the
    backward pass over the steps [T-1 .. 0], the two final hidden states
    side by side, through [muProjection]. *)
Definition latentMean (self : Encoder.t F) (sequence : Tensor3D F) : Tensor2D F :=
  let steps := map (timeStep sequence) (seq 0 (ncols sequence)) in
  let forwardFinalHidden :=
    snd (lstmPass (length sequence) (Encoder.lstmFwVars self) steps) in
  let backwardFinalHidden :=
    snd (lstmPass (length sequence) (Encoder.lstmBwVars self) (rev steps)) in
  dense (Encoder.muVars self) (concat2d forwardFinalHidden backwardFinalHidden).
End SpecWords.

(** ** What a decoded entry may be *)

(** A sample of the NADE head: 0 or 1. *)
Definition binary {F} `{Arith F} (x : F) : Prop := x = zero \/ x = one.


(** A float entry that is 0 or 1. *)
Definition binaryEntry {F} `{Arith F} (e : Entry F) : Prop :=
  exists x, e = FloatVal x /\ binary x.

(** The weights of a NADE head have the shape [numDims, numHidden]. *)
Definition wfNade {F} (n : Nade.t F) : Prop :=
  hasShape2 (Nade.numDims n) (Nade.numHidden n) (Nade.encWeights n)
  /\ hasShape2 (Nade.numDims n) (Nade.numHidden n) (Nade.decWeightsT n).

(** A decoder that can take a step: at least one cell, and an output
    projection as wide as its head needs: [outputDims >= 1] logits for the
    argmax head, [numHidden + numDims] logits for a NADE head, which has at
    least two dimensions (it stacks one sample per dimension). *)
Definition wfDecoder {F} (self : Decoder.t F) : Prop :=
  Decoder.lstmCellVars self <> []
  /\ match Decoder.nade self with
     | None =>
         Decoder.outputDims self = length (bias (Decoder.outputProjectVars self))
         /\ 0 < Decoder.outputDims self
     | Some n =>
         wfNade n /\ 2 <= Nade.numDims n
         /\ Nade.numHidden n + Nade.numDims n
            <= ncols (kernel (Decoder.outputProjectVars self))
         /\ Nade.numHidden n + Nade.numDims n
            <= length (bias (Decoder.outputProjectVars self))
     end.

(** One row of a recorded time step, for one batch entry: a single label
    below [outputDims] (argmax head), or [numDims] binary entries (NADE
    head). *)
Definition rowOk {F} `{Arith F} (self : Decoder.t F) (row : list (Entry F)) : Prop :=
  match Decoder.nade self with
  | None => exists k, row = [IntVal k] /\ k < Decoder.outputDims self
  | Some n => length row = Nade.numDims n /\ Forall binaryEntry row
  end.

(** The width of a recorded time step. *)
Definition stepWidth {F} (self : Decoder.t F) : nat :=
  match Decoder.nade self with
  | None => 1
  | Some n => Nade.numDims n
  end.

(** The state of the generation loop after [k] turns, for batch size [B]:
    one cell state and one hidden state per layer, all of [B] rows, a next
    input of [B] rows, and [k] recorded steps of [B] rows each. *)
Definition loopInv {F} `{Arith F} (self : Decoder.t F) (B k : nat)
    (st : Decoder.LoopState) : Prop :=
  length (Decoder.c st) = length (Decoder.lstmCellVars self)
  /\ length (Decoder.h st) = length (Decoder.lstmCellVars self)
  /\ Forall (fun c : Tensor2D F => length c = B) (Decoder.c st)
  /\ Forall (fun h : Tensor2D F => length h = B) (Decoder.h st)
  /\ length (Decoder.nextInput st) = B
  /\ length (Decoder.samples st) = k
  /\ Forall (fun s => length s = B /\ Forall (rowOk self) s) (Decoder.samples st).

(** The state of the generation loop for a batch made of two batches:
    layer by layer the states of the first followed by those of the second,
    and likewise for the next input and for every recorded step. *)
Definition appendStates {F} (st1 st2 : Decoder.LoopState (F := F)) : Decoder.LoopState :=
  {| Decoder.c := zip_with app (Decoder.c st1) (Decoder.c st2);
     Decoder.h := zip_with app (Decoder.h st1) (Decoder.h st2);
     Decoder.nextInput := Decoder.nextInput st1 ++ Decoder.nextInput st2;
     Decoder.samples := zip_with app (Decoder.samples st1) (Decoder.samples st2) |}.

(** ** Small models over the rationals *)

Definition q (n : Z) (d : positive) : Qc := Q2Qc (n # d).

(** A NADE head with two dimensions and one hidden unit. *)
Definition tinyNade : Nade.t Qc :=
  {| Nade.encWeights := [[q 1 1]; [q (-2) 1]];
     Nade.decWeightsT := [[q 3 1]; [q (-1) 2]];
     Nade.numDims := 2;
     Nade.numHidden := 1 |}.


(** An encoder for inputs of width 1, with one hidden unit per direction
    and one latent dimension. *)
Definition tinyEncoder : Encoder.t Qc :=
  Encoder.new
    {| kernel := [[q 1 1; q 1 2; q (-1) 1; q 2 1]; [q 1 3; q (-1) 1; q 1 1; q 1 2]];
       bias := [q 0 1; q 1 1; q (-1) 2; q 1 4] |}
    {| kernel := [[q (-1) 1; q 2 1; q 1 1; q 1 3]; [q 1 1; q 1 1; q (-2) 1; q 1 1]];
       bias := [q 1 2; q 0 1; q 1 1; q (-1) 1] |}
    {| kernel := [[q 2 1]; [q (-3) 1]]; bias := [q 1 2] |}.

(** Two sequences of two time steps of width 1: shape [2, 2, 1]. *)
Definition tinySequences : Tensor3D Qc := [[[q 1 1]; [q (-1) 1]]; [[q 1 2]; [q 2 1]]].

(** One decoder cell with one hidden unit, on inputs of width
    [outputDims + zDims = 3]. *)
Definition tinyCell : LayerVars Qc :=
  {| kernel := [[q 1 1; q (-1) 1; q 1 2; q 2 1];
                [q (-1) 1; q 1 1; q 1 1; q (-1) 2];
                [q 1 2; q 1 3; q (-1) 1; q 1 1];
                [q 1 1; q 1 1; q 1 1; q (-1) 1]];
     bias := [q 0 1; q 1 2; q (-1) 1; q 1 1] |}.

Definition tinyInitState : LayerVars Qc :=
  {| kernel := [[q 1 1; q (-1) 1]]; bias := [q 1 2; q 0 1] |}.

(** A decoder with the argmax head over two symbols. *)
Definition tinyDecoderArgmax : Decoder.t Qc :=
  Decoder.new [tinyCell] tinyInitState
    {| kernel := [[q 1 1; q (-1) 1]]; bias := [q 0 1; q 1 10] |} None.

(** The same decoder with the NADE head [tinyNade]: the projection yields
    [numHidden + numDims = 3] logits. *)
Definition tinyDecoderNade : Decoder.t Qc :=
  Decoder.new [tinyCell] tinyInitState
    {| kernel := [[q 1 1; q (-1) 1; q 2 1]]; bias := [q 0 1; q 1 10; q (-1) 1] |}
    (Some tinyNade).

(** A loaded model: [tinyEncoder] with the argmax decoder. *)
Definition tinyModel : MusicVAE.t Qc :=
  {| MusicVAE.encoder := Some tinyEncoder; MusicVAE.decoder := Some tinyDecoderArgmax |}.

(** * Properties *)

(** ** The bit and one-hot utilities *)

Section BitUtilities.
Local Open Scope Z_scope.

Lemma toInt32_small x : - 2 ^ 31 <= x < 2 ^ 31 -> Js.toInt32 x = x.
Proof.
  intros Hx. unfold Js.toInt32. rewrite Z.mod_small; lia.
Qed.

Lemma band_sar_testbit x d :
  0 <= x < 2 ^ 31 -> 0 <= d < 32 ->
  Js.band (Js.sar x d) 1 = Z.b2z (Z.testbit x d).
Proof.
  intros Hx Hd. unfold Js.band, Js.sar.
  rewrite (toInt32_small x) by lia.
  rewrite (Z.mod_small d 32) by lia.
  assert (Hs : 0 <= Z.shiftr x d <= x).
  { rewrite Z.shiftr_div_pow2 by lia. split.
    - apply Z.div_pos; [lia | apply Z.pow_pos_nonneg; lia].
    - apply Z.div_le_upper_bound; [apply Z.pow_pos_nonneg; lia |].
      assert (0 < 2 ^ d) by (apply Z.pow_pos_nonneg; lia). nia. }
  rewrite !toInt32_small by lia.
  change 1 with (Z.ones 1). rewrite Z.land_ones by lia.
  rewrite <- Z.bit0_mod, Z.shiftr_spec by lia. reflexivity.
Qed.

Lemma shl_bit (c : bool) d :
  0 <= d < 31 -> Js.shl (Z.b2z c) d = Z.b2z c * 2 ^ d.
Proof.
  intros Hd. unfold Js.shl.
  assert (0 <= Z.b2z c <= 1) by (destruct c; simpl; lia).
  rewrite (toInt32_small (Z.b2z c)) by lia.
  rewrite (Z.mod_small d 32) by lia.
  rewrite Z.shiftl_mul_pow2 by lia.
  apply toInt32_small.
  assert (2 ^ d < 2 ^ 31) by (apply Z.pow_lt_mono_r; lia).
  assert (0 < 2 ^ d) by (apply Z.pow_pos_nonneg; lia). nia.
Qed.

Lemma shl_zero d : Js.shl 0 d = 0.
Proof.
  unfold Js.shl. change (Js.toInt32 0) with 0. rewrite Z.shiftl_0_l. reflexivity.
Qed.

Lemma mod_pow2_succ x k :
  0 <= k -> x mod 2 ^ (k + 1) = x mod 2 ^ k + Z.b2z (Z.testbit x k) * 2 ^ k.
Proof.
  intros Hk. rewrite Z.pow_add_r by lia. change (2 ^ 1) with 2.
  rewrite Z.testbit_spec' by lia.
  assert (0 < 2 ^ k) by (apply Z.pow_pos_nonneg; lia).
  rewrite Z.rem_mul_r by lia. lia.
Qed.

Lemma testbit_31 x : 0 <= x < 2 ^ 31 -> Z.testbit x 31 = false.
Proof.
  intros Hx. destruct (Z.eq_dec x 0) as [-> | Hne]; [apply Z.testbit_0_l |].
  apply Z.bits_above_log2; [lia |]. apply Z.log2_lt_pow2; lia.
Qed.

Lemma sumBits_testbits x :
  0 <= x < 2 ^ 31 ->
  forall (n d : nat) (b : Z), (d + n <= 32)%nat ->
    sumBits b d (map (fun k => Z.b2z (Z.testbit x (Z.of_nat k))) (seq d n))
    = b + x mod 2 ^ Z.of_nat (d + n) - x mod 2 ^ Z.of_nat d.
Proof.
  intros Hx n. induction n as [| n IH]; intros d b Hd; simpl.
  - rewrite Nat.add_0_r. lia.
  - rewrite IH by lia.
    replace (Z.of_nat (d + S n)) with (Z.of_nat (S d + n)) by lia.
    replace (Z.of_nat (S d)) with (Z.of_nat d + 1) by lia.
    rewrite (mod_pow2_succ x (Z.of_nat d)) by lia.
    destruct (decide (d = 31%nat)) as [-> | Hne].
    + change (Z.of_nat 31) with 31. rewrite testbit_31 by lia. simpl Z.b2z.
      rewrite shl_zero. lia.
    + rewrite shl_bit by lia. lia.
Qed.

Lemma intToBits_nonzero x depth :
  0 < x < 2 ^ 31 -> (depth <= 32)%nat ->
  intToBits x depth = map (fun k => Z.b2z (Z.testbit x (Z.of_nat k))) (seq 0 depth).
Proof.
  intros Hx Hd. unfold intToBits. rewrite decide_False by lia.
  apply map_ext_in. intros k Hk. apply in_seq in Hk.
  apply band_sar_testbit; lia.
Qed.

Lemma band_sar_zero d : Js.band (Js.sar 0 d) 1 = 0.
Proof.
  unfold Js.band, Js.sar. change (Js.toInt32 0) with 0.
  rewrite Z.shiftr_0_l. reflexivity.
Qed.

Lemma intToBits_zero k : intToBits 0 (S k) = replicate k 0 ++ [1].
Proof.
  unfold intToBits. rewrite decide_True by reflexivity.
  rewrite (map_ext _ (fun _ => 0)) by (intros; apply band_sar_zero).
  replace (S k) with (k + 1)%nat by lia. rewrite seq_app, map_app. simpl.
  assert (Hrep : forall a, map (fun _ : nat => 0) (seq a k) = replicate k 0).
  { induction k as [| k IH]; intros a; simpl; [reflexivity | by rewrite IH]. }
  rewrite Hrep.
  rewrite insert_app_r_alt by (rewrite length_replicate; lia).
  rewrite length_replicate, Nat.sub_diag. reflexivity.
Qed.

Lemma sumBits_zeros k : forall b d, sumBits b d (replicate k 0 ++ [1]) = b + Js.shl 1 (Z.of_nat (d + k)).
Proof.
  induction k as [| k IH]; intros b d; simpl.
  - rewrite Nat.add_0_r. reflexivity.
  - rewrite IH, shl_zero. replace (S d + k)%nat with (d + S k)%nat by lia. lia.
Qed.

Lemma shl_one k : (k <= 31)%nat ->
  Js.shl 1 (Z.of_nat k) = if decide (k = 31%nat) then - 2 ^ 31 else 2 ^ Z.of_nat k.
Proof.
  intros Hk. case_decide as Hd.
  - subst k. reflexivity.
  - change 1 with (Z.b2z true) at 1. rewrite shl_bit by lia. simpl. lia.
Qed.

(** C3 (as amended).  For every depth from 1 to 32 and every integer [x]
    with [0 <= x < 2^(depth-1)], [bitsToInts (intsToBits [x] depth)] is [[x]]
    when [x] is not zero; for [x = 0] it is [2^(depth-1)] up to depth 31 and
    [-2^31] at depth 32, where [1 << 31] wraps.  Beyond depth 32 the shift
    counts wrap modulo 32 and nothing is promised. *)
Theorem bits_roundtrip_int32 (depth : nat) (x : Z) :
  (1 <= depth <= 32)%nat ->
  0 <= x < 2 ^ (Z.of_nat depth - 1) ->
  bitsToInts (intsToBits [x] depth)
  = [if decide (x = 0) then
       if decide (depth = 32%nat) then - 2 ^ 31 else 2 ^ (Z.of_nat depth - 1)
     else x].
Proof.
  intros Hd Hx. unfold bitsToInts, intsToBits. simpl. f_equal.
  assert (Hpow : 2 ^ (Z.of_nat depth - 1) <= 2 ^ 31)
    by (apply Z.pow_le_mono_r; lia).
  case_decide as Hz.
  - subst x. destruct depth as [| k]; [lia |].
    rewrite intToBits_zero, sumBits_zeros, shl_one by lia.
    change (0 + k)%nat with k. rewrite Z.add_0_l.
    repeat case_decide; try lia.
    f_equal. lia.
  - rewrite intToBits_nonzero by lia.
    rewrite sumBits_testbits by lia.
    change (0 + depth)%nat with depth. change (2 ^ Z.of_nat 0) with 1.
    rewrite Z.mod_1_r.
    assert (2 ^ (Z.of_nat depth - 1) <= 2 ^ Z.of_nat depth)
      by (apply Z.pow_le_mono_r; lia).
    rewrite Z.mod_small by lia. lia.
Qed.

Lemma bits_roundtrip_int32_witness :
  bitsToInts (intsToBits [5] 8) = [5] /\ bitsToInts (intsToBits [0] 8) = [128].
Proof.
  split.
  - apply (bits_roundtrip_int32 8 5); [lia | split; [lia | reflexivity]].
  - apply (bits_roundtrip_int32 8 0); [lia | split; [lia | reflexivity]].
Defined.

(** C3 as stated fails at depth 33: [1 >> 32] is [1 >> 0], so bit 32 of the
    encoding of 1 is set, and [1 << 32] is [1 << 0]; the round trip yields 2. *)
Lemma roundtrip_wraps_beyond_32_bits :
  (1 <= 33)%nat /\ 0 < 1 < 2 ^ (33 - 1) /\ bitsToInts (intsToBits [1] 33) <> [1].
Proof.
  split; [lia |]. split; [lia |]. vm_compute. discriminate.
Qed.

Example zero_at_depth_32 : bitsToInts (intsToBits [0] 32) = [- 2147483648].
Proof. vm_compute. reflexivity. Qed.

Lemma oneHot_row_outside (x : Z) (n a : nat) :
  (x < Z.of_nat a \/ Z.of_nat (a + n) <= x) ->
  map (fun d => if decide (Z.of_nat d = x) then 1 else 0) (seq a n) = replicate n 0.
Proof.
  revert a. induction n as [| n IH]; intros a Hx; simpl; [reflexivity |].
  rewrite decide_False by lia. f_equal. apply IH. lia.
Qed.

Lemma oneHot_row_inside (x : Z) (n a : nat) :
  Z.of_nat a <= x < Z.of_nat (a + n) ->
  map (fun d => if decide (Z.of_nat d = x) then 1 else 0) (seq a n)
  = <[(Z.to_nat x - a)%nat := 1]> (replicate n 0).
Proof.
  revert a. induction n as [| n IH]; intros a Hx; simpl; [lia |].
  case_decide as Hd.
  - replace (Z.to_nat x - a)%nat with 0%nat by lia. simpl. f_equal.
    apply oneHot_row_outside. lia.
  - replace (Z.to_nat x - a)%nat with (S (Z.to_nat x - S a)) by lia. simpl.
    f_equal. apply IH. lia.
Qed.

Lemma ones_replicate (n : nat) :
  length (filter (fun v => v = 1) (replicate n 0)) = 0%nat.
Proof.
  induction n as [| n IH]; [reflexivity |].
  change (replicate (S n) 0) with (0 :: replicate n 0).
  rewrite filter_cons_False by lia. exact IH.
Qed.

Lemma ones_insert (n i : nat) :
  (i < n)%nat ->
  length (filter (fun v => v = 1) (<[i := 1]> (replicate n 0))) = 1%nat.
Proof.
  revert i. induction n as [| n IH]; intros i Hi; [lia |].
  destruct i as [| i].
  - change (<[0%nat := 1]> (replicate (S n) 0)) with (1 :: replicate n 0).
    rewrite filter_cons_True by reflexivity. simpl. by rewrite ones_replicate.
  - change (<[S i := 1]> (replicate (S n) 0)) with (0 :: <[i := 1]> (replicate n 0)).
    rewrite filter_cons_False by lia. apply IH. lia.
Qed.

(** C10.  Row by row, [intsToOneHot ints depth] has [depth] entries; for an
    integer outside [[0, depth)] (negative, or at least [depth]) the row is
    all zeros, with no 1; for an integer inside, the row is zero except for
    a single 1 at that index.  The function is total: no input raises. *)
Theorem intsToOneHot_rows (ints : list Z) (depth : nat) :
  Forall2
    (fun x row =>
       length row = depth /\
       row = (if decide (0 <= x < Z.of_nat depth)
              then <[Z.to_nat x := 1]> (replicate depth 0)
              else replicate depth 0) /\
       length (filter (fun v => v = 1) row)
       = if decide (0 <= x < Z.of_nat depth) then 1%nat else 0%nat)
    ints (intsToOneHot ints depth).
Proof.
  unfold intsToOneHot. apply Forall2_fmap_r, Forall_Forall2_diag, Forall_forall.
  intros x _.
  assert (Hrow : map (fun d => if decide (Z.of_nat d = x) then 1 else 0) (seq 0 depth)
                 = if decide (0 <= x < Z.of_nat depth)
                   then <[Z.to_nat x := 1]> (replicate depth 0)
                   else replicate depth 0).
  { case_decide as Hx.
    - rewrite (oneHot_row_inside x depth 0) by (simpl; lia).
      by rewrite Nat.sub_0_r.
    - apply oneHot_row_outside. simpl. lia. }
  split; [by rewrite length_map, length_seq |].
  split; [exact Hrow |].
  rewrite Hrow. case_decide as Hx.
  - apply ones_insert. lia.
  - apply ones_replicate.
Qed.

Example oneHot_negative_and_large :
  intsToOneHot [-1; 3; 7; 1] 3 = [[0; 0; 0]; [0; 0; 0]; [0; 0; 0]; [0; 1; 0]].
Proof. reflexivity. Qed.

End BitUtilities.

(** ** The codes of [intsToBits] and [bitsToInts], beyond the stated range *)

Section BitCodes.
Local Open Scope Z_scope.

Lemma toInt32_range x : - 2 ^ 31 <= Js.toInt32 x < 2 ^ 31.
Proof.
  unfold Js.toInt32.
  pose proof (Z.mod_pos_bound (x + 2 ^ 31) (2 ^ 32) ltac:(lia)). lia.
Qed.

Lemma toInt32_mod x : Js.toInt32 x mod 2 ^ 32 = x mod 2 ^ 32.
Proof.
  unfold Js.toInt32. rewrite Zminus_mod_idemp_l. f_equal. lia.
Qed.

Lemma toInt32_testbit x d : 0 <= d < 32 -> Z.testbit (Js.toInt32 x) d = Z.testbit x d.
Proof.
  intros Hd.
  rewrite <- (Z.mod_pow2_bits_low (Js.toInt32 x) 32 d) by lia.
  rewrite <- (Z.mod_pow2_bits_low x 32 d) by lia.
  by rewrite toInt32_mod.
Qed.

Lemma band_one y : Js.band y 1 = Z.b2z (Z.testbit (Js.toInt32 y) 0).
Proof.
  unfold Js.band. change (Js.toInt32 1) with (Z.ones 1).
  rewrite Z.land_ones by lia. by rewrite Z.bit0_mod.
Qed.

Lemma sar_range x d : - 2 ^ 31 <= Js.sar x d < 2 ^ 31.
Proof.
  unfold Js.sar. pose proof (toInt32_range x) as Hx.
  pose proof (Z.mod_pos_bound d 32 ltac:(lia)) as Hd.
  rewrite Z.shiftr_div_pow2 by lia.
  assert (0 < 2 ^ (d mod 32)) by (apply Z.pow_pos_nonneg; lia).
  split.
  - apply Z.div_le_lower_bound; [lia | nia].
  - apply Z.div_lt_upper_bound; [lia | nia].
Qed.

Lemma band_sar_bit x d :
  0 <= d < 32 -> Js.band (Js.sar x d) 1 = Z.b2z (Z.testbit x d).
Proof.
  intros Hd. rewrite band_one, (toInt32_small (Js.sar x d)) by apply sar_range.
  unfold Js.sar. rewrite (Z.mod_small d 32), Z.shiftr_spec by lia.
  by rewrite Z.add_0_l, toInt32_testbit.
Qed.

Lemma band_bit y : Js.band y 1 = 0 \/ Js.band y 1 = 1.
Proof. rewrite band_one. destruct (Z.testbit _ _); auto. Qed.

Lemma intToBits_bits x depth :
  x <> 0 -> (depth <= 32)%nat ->
  intToBits x depth = map (fun k => Z.b2z (Z.testbit x (Z.of_nat k))) (seq 0 depth).
Proof.
  intros Hx Hd. unfold intToBits. rewrite decide_False by done.
  apply map_ext_in. intros k Hk. apply in_seq in Hk.
  apply band_sar_bit; lia.
Qed.

Lemma sumBits_app bs1 : forall b d bs2,
  sumBits b d (bs1 ++ bs2) = sumBits (sumBits b d bs1) (d + length bs1) bs2.
Proof.
  induction bs1 as [| x bs1 IH]; intros b d bs2; simpl.
  - by rewrite Nat.add_0_r.
  - rewrite IH. f_equal. lia.
Qed.

Lemma sumBits_low_bits x :
  forall (n d : nat) (b : Z), (d + n <= 31)%nat ->
    sumBits b d (map (fun k => Z.b2z (Z.testbit x (Z.of_nat k))) (seq d n))
    = b + x mod 2 ^ Z.of_nat (d + n) - x mod 2 ^ Z.of_nat d.
Proof.
  intros n. induction n as [| n IH]; intros d b Hd; simpl.
  - rewrite Nat.add_0_r. lia.
  - rewrite IH by lia.
    replace (Z.of_nat (d + S n)) with (Z.of_nat (S d + n)) by lia.
    replace (Z.of_nat (S d)) with (Z.of_nat d + 1) by lia.
    rewrite (mod_pow2_succ x (Z.of_nat d)) by lia.
    rewrite shl_bit by lia. lia.
Qed.

Lemma shl_bit_31 (c : bool) : Js.shl (Z.b2z c) 31 = - Z.b2z c * 2 ^ 31.
Proof. destruct c; reflexivity. Qed.

Lemma toInt32_split x :
  Js.toInt32 x = x mod 2 ^ 31 - Z.b2z (Z.testbit x 31) * 2 ^ 31.
Proof.
  unfold Js.toInt32.
  pose proof (mod_pow2_succ x 31 ltac:(lia)) as Hs. change (31 + 1) with 32 in Hs.
  pose proof (Z.mod_pos_bound x (2 ^ 31) ltac:(lia)) as Hlow.
  rewrite <- Zplus_mod_idemp_l, Hs.
  change (2 ^ 32) with (2 * 2 ^ 31). set (p := 2 ^ 31) in *.
  assert (0 < p) by (unfold p; lia).
  destruct (Z.testbit x 31); simpl Z.b2z.
  - replace (x mod p + 1 * p + p) with (x mod p + 1 * (2 * p)) by lia.
    rewrite Z.mod_add by lia. rewrite Z.mod_small by lia. lia.
  - rewrite Z.mod_small by lia. lia.
Qed.

Lemma sumBits_all_bits x :
  sumBits 0 0 (map (fun k => Z.b2z (Z.testbit x (Z.of_nat k))) (seq 0 32))
  = Js.toInt32 x.
Proof.
  change 32%nat with (31 + 1)%nat. rewrite seq_app, map_app, sumBits_app.
  rewrite (sumBits_low_bits x 31 0) by lia.
  rewrite length_map, length_seq.
  change (seq (0 + 31) 1) with [31%nat]. cbn [map sumBits].
  change (Z.of_nat (0 + 31)) with 31. change (Z.of_nat 31) with 31.
  change (Z.of_nat 0) with 0.
  rewrite shl_bit_31, toInt32_split, Z.pow_0_r, Z.mod_1_r. lia.
Qed.

(** [bitsToInts] after [intsToBits] keeps the low [depth] bits of a non-zero
    integer: up to depth 31 the result is [x mod 2^depth], at depth 32 it is
    [x] read as a signed 32-bit integer.  So at depth 32 every non-zero
    32-bit integer, negative ones included, comes back; below depth 32
    exactly the integers of [(0, 2^depth)] come back, and no negative one. *)
Theorem bits_roundtrip_low_bits (depth : nat) (x : Z) :
  x <> 0 -> (depth <= 32)%nat ->
  bitsToInts (intsToBits [x] depth)
  = [if decide (depth = 32%nat) then Js.toInt32 x else x mod 2 ^ Z.of_nat depth]
  /\ (depth = 32%nat -> - 2 ^ 31 <= x < 2 ^ 31 ->
      bitsToInts (intsToBits [x] depth) = [x])
  /\ ((depth < 32)%nat -> 0 < x < 2 ^ Z.of_nat depth ->
      bitsToInts (intsToBits [x] depth) = [x])
  /\ ((depth < 32)%nat -> (x < 0 \/ 2 ^ Z.of_nat depth <= x) ->
      bitsToInts (intsToBits [x] depth) <> [x]).
Proof.
  intros Hx Hd.
  assert (Hgen : bitsToInts (intsToBits [x] depth)
                 = [if decide (depth = 32%nat) then Js.toInt32 x
                    else x mod 2 ^ Z.of_nat depth]).
  { unfold bitsToInts, intsToBits. simpl. f_equal.
    rewrite intToBits_bits by done. case_decide as H32.
    - subst depth. apply sumBits_all_bits.
    - rewrite sumBits_low_bits by lia.
      change (0 + depth)%nat with depth. change (2 ^ Z.of_nat 0) with 1.
      rewrite Z.mod_1_r. lia. }
  split; [exact Hgen |]. rewrite Hgen.
  assert (Hpos : 0 < 2 ^ Z.of_nat depth) by (apply Z.pow_pos_nonneg; lia).
  split; [| split].
  - intros -> Hr. rewrite decide_True by done. by rewrite toInt32_small.
  - intros Hlt Hr. rewrite decide_False by lia. by rewrite Z.mod_small by lia.
  - intros Hlt Hr. rewrite decide_False by lia. intros [= Heq].
    pose proof (Z.mod_pos_bound x (2 ^ Z.of_nat depth) Hpos). lia.
Qed.

Lemma bits_roundtrip_low_bits_witness :
  bitsToInts (intsToBits [-3] 32) = [-3]
  /\ bitsToInts (intsToBits [13] 3) = [5].
Proof.
  split.
  - apply (proj1 (proj2 (bits_roundtrip_low_bits 32 (-3) ltac:(lia) ltac:(lia))));
      [reflexivity | lia].
  - apply (proj1 (bits_roundtrip_low_bits 3 13 ltac:(lia) ltac:(lia))).
Defined.

(** [intsToBits] returns one row per integer, every row has [depth]
    entries, and every entry is 0 or 1, whatever the integers and the
    depth. *)
Theorem intsToBits_binary_rows (ints : list Z) (depth : nat) :
  length (intsToBits ints depth) = length ints
  /\ Forall (fun row => length row = depth /\ Forall (fun b => b = 0 \/ b = 1) row)
            (intsToBits ints depth).
Proof.
  unfold intsToBits. split; [by rewrite length_map |].
  apply Forall_fmap, Forall_forall. intros x _.
  assert (Hb : Forall (fun b => b = 0 \/ b = 1)
                 (map (fun d => Js.band (Js.sar x (Z.of_nat d)) 1) (seq 0 depth))).
  { apply Forall_fmap, Forall_forall. intros d _. apply band_bit. }
  assert (Hl : length (map (fun d => Js.band (Js.sar x (Z.of_nat d)) 1) (seq 0 depth))
               = depth) by (by rewrite length_map, length_seq).
  unfold intToBits. simpl. case_decide; [| done].
  destruct depth as [| k]; [done |].
  split; [by rewrite length_insert |].
  apply Forall_insert; [exact Hb | auto].
Qed.

Lemma pow2_bits k :
  map (fun j => Z.b2z (Z.testbit (2 ^ Z.of_nat k) (Z.of_nat j))) (seq 0 (S k))
  = replicate k 0 ++ [1].
Proof.
  replace (S k) with (k + 1)%nat by lia. rewrite seq_app, map_app. simpl. f_equal.
  - assert (Hz : forall a n, (a + n <= k)%nat ->
        map (fun j => Z.b2z (Z.testbit (2 ^ Z.of_nat k) (Z.of_nat j))) (seq a n)
        = replicate n 0).
    { intros a n. revert a. induction n as [| n IH]; intros a Ha; simpl; [done |].
      rewrite Z.pow2_bits_false by lia. simpl. f_equal. apply IH. lia. }
    apply Hz. lia.
  - by rewrite Z.pow2_bits_true by lia.
Qed.

(** [intsToBits] is not injective: because the last bit of the code of 0 is
    forced to 1, the integers [0] and [2^(depth-1)] get the same code, and
    [bitsToInts] cannot tell them apart. *)
Theorem intsToBits_zero_collision (depth : nat) :
  (1 <= depth <= 32)%nat ->
  intsToBits [0] depth = intsToBits [2 ^ (Z.of_nat depth - 1)] depth
  /\ bitsToInts (intsToBits [0] depth) = bitsToInts (intsToBits [2 ^ (Z.of_nat depth - 1)] depth)
  /\ 0 <> 2 ^ (Z.of_nat depth - 1).
Proof.
  intros Hd. destruct depth as [| k]; [lia |].
  replace (Z.of_nat (S k) - 1) with (Z.of_nat k) by lia.
  assert (Hp : 0 < 2 ^ Z.of_nat k) by (apply Z.pow_pos_nonneg; lia).
  assert (Hc : intsToBits [0] (S k) = intsToBits [2 ^ Z.of_nat k] (S k)).
  { unfold intsToBits. simpl. f_equal.
    rewrite intToBits_zero, intToBits_bits by lia. by rewrite pow2_bits. }
  split; [exact Hc |]. split; [by rewrite Hc | lia].
Qed.

Lemma intsToBits_zero_collision_witness :
  intsToBits [0] 8 = intsToBits [128] 8.
Proof. apply (proj1 (intsToBits_zero_collision 8 ltac:(lia))). Defined.

Lemma bitsValue_range bs :
  Forall isBit bs -> 0 <= bitsValue bs < 2 ^ Z.of_nat (length bs).
Proof.
  induction 1 as [| b bs Hb _ IH]; simpl bitsValue; simpl length; [simpl; lia |].
  rewrite Nat2Z.inj_succ, Z.pow_succ_r by lia. destruct Hb; subst b; lia.
Qed.

Lemma bitsValue_testbit bs :
  Forall isBit bs -> forall (k : nat) b, bs !! k = Some b ->
  Z.b2z (Z.testbit (bitsValue bs) (Z.of_nat k)) = b.
Proof.
  induction 1 as [| b0 bs Hb _ IH]; intros k b Hk; [done |].
  simpl bitsValue. destruct k as [| k].
  - injection Hk as <-. change (Z.of_nat 0) with 0.
    destruct Hb; subst b0.
    + rewrite Z.add_0_l, Z.testbit_even_0. done.
    + rewrite Z.add_comm, Z.testbit_odd_0. done.
  - simpl in Hk. rewrite Nat2Z.inj_succ.
    destruct Hb; subst b0.
    + rewrite Z.add_0_l, Z.testbit_even_succ by lia. by apply IH.
    + rewrite Z.add_comm, Z.testbit_odd_succ by lia. by apply IH.
Qed.

Lemma bitsValue_zero bs : Forall isBit bs -> bitsValue bs = 0 -> Forall (fun b => b = 0) bs.
Proof.
  induction 1 as [| b bs Hb Hbs IH]; intros Hv; [constructor |].
  simpl in Hv. pose proof (bitsValue_range bs Hbs).
  destruct Hb; subst b; [| lia]. constructor; [done | apply IH; lia].
Qed.

Lemma sumBits_bitsValue bs : Forall isBit bs ->
  forall b (d : nat), (d + length bs <= 31)%nat ->
  sumBits b d bs = b + 2 ^ Z.of_nat d * bitsValue bs.
Proof.
  induction 1 as [| b0 bs Hb _ IH]; intros b d Hd; simpl sumBits; simpl bitsValue.
  - lia.
  - simpl in Hd. rewrite IH by lia.
    rewrite Nat2Z.inj_succ, Z.pow_succ_r by lia.
    assert (Hs : Js.shl b0 (Z.of_nat d) = b0 * 2 ^ Z.of_nat d).
    { destruct Hb; subst b0; [by rewrite shl_zero |].
      change 1 with (Z.b2z true). rewrite shl_bit by lia. done. }
    rewrite Hs. lia.
Qed.

Lemma bitsValue_app bs1 bs2 :
  bitsValue (bs1 ++ bs2) = bitsValue bs1 + 2 ^ Z.of_nat (length bs1) * bitsValue bs2.
Proof.
  induction bs1 as [| b bs1 IH]; simpl bitsValue; simpl length.
  - simpl. lia.
  - rewrite IH, Nat2Z.inj_succ, Z.pow_succ_r by lia. lia.
Qed.

(** What [bitsToInts] returns for a row of at most 32 bits: the number with
    these binary digits, read as a signed 32-bit integer when the row has
    32 bits. *)
Lemma sumBits_row bs :
  Forall isBit bs -> (length bs <= 32)%nat ->
  sumBits 0 0 bs = if decide (length bs = 32%nat) then Js.toInt32 (bitsValue bs)
                   else bitsValue bs.
Proof.
  intros Hb Hl. case_decide as H32.
  - destruct (rev bs) as [| b31 rbs] eqn:Hrev.
    { apply (f_equal (@length Z)) in Hrev. rewrite length_rev in Hrev. simpl in Hrev. lia. }
    assert (Hbs : bs = rev rbs ++ [b31]).
    { rewrite <- (rev_involutive bs), Hrev. reflexivity. }
    subst bs. rewrite length_app, length_rev in H32. simpl in H32.
    apply Forall_app in Hb as [Hlow Hhi]. apply Forall_inv in Hhi.
    rewrite sumBits_app, (sumBits_bitsValue _ Hlow) by (rewrite length_rev; lia).
    rewrite length_rev. replace (length rbs) with 31%nat by lia.
    cbn [sumBits]. change (Z.of_nat (0 + 31)) with 31. change (Z.of_nat 0) with 0.
    rewrite bitsValue_app, length_rev. replace (length rbs) with 31%nat by lia.
    change (Z.of_nat 31) with 31.
    pose proof (bitsValue_range _ Hlow) as Hr. rewrite length_rev in Hr.
    replace (length rbs) with 31%nat in Hr by lia. change (Z.of_nat 31) with 31 in Hr.
    change (bitsValue [b31]) with (b31 + 2 * 0).
    rewrite toInt32_split.
    assert (Hm : (bitsValue (rev rbs) + 2 ^ 31 * (b31 + 2 * 0)) mod 2 ^ 31
                 = bitsValue (rev rbs)).
    { rewrite Z.mul_comm, Z.mod_add by lia. apply Z.mod_small. lia. }
    rewrite Hm.
    assert (Ht : Z.b2z (Z.testbit (bitsValue (rev rbs) + 2 ^ 31 * (b31 + 2 * 0)) 31) = b31).
    { rewrite Z.testbit_spec' by lia.
      replace (bitsValue (rev rbs) + 2 ^ 31 * (b31 + 2 * 0))
        with (bitsValue (rev rbs) + b31 * 2 ^ 31) by lia.
      rewrite Z.div_add by lia. rewrite Z.div_small by lia.
      destruct Hhi; subst b31; reflexivity. }
    rewrite Ht.
    destruct Hhi; subst b31;
      [rewrite shl_zero | replace (Js.shl 1 31) with (- 2 ^ 31) by reflexivity]; lia.
  - rewrite sumBits_bitsValue by (simpl; lia || done). simpl. lia.
Qed.

Lemma all_zero_bits bs : Forall isBit bs -> 1 ∉ bs -> bs = replicate (length bs) 0.
Proof.
  induction 1 as [| b bs Hb _ IH]; intros Hn; [done |].
  simpl. rewrite not_elem_of_cons in Hn. destruct Hn as [Hne Hn].
  destruct Hb; subst b; [| done]. f_equal. by apply IH.
Qed.

Lemma bitsValue_replicate n : bitsValue (replicate n 0) = 0.
Proof. induction n as [| n IH]; simpl; [done | rewrite IH; lia]. Qed.

(** The round trip in the other direction: for a row of at most 32 bits
    that holds a 1, [intsToBits] of what [bitsToInts] decoded, at the
    length of the row, is the row again; a row of zeros decodes to 0, whose
    code has its last bit set. *)
Theorem intsToBits_bitsToInts (bs : list Z) :
  Forall isBit bs -> (length bs <= 32)%nat ->
  intsToBits (bitsToInts [bs]) (length bs)
  = [if decide (1 ∈ bs) then bs else <[pred (length bs) := 1]> bs].
Proof.
  intros Hb Hl. unfold bitsToInts, intsToBits. simpl. f_equal.
  rewrite sumBits_row by done.
  pose proof (bitsValue_range bs Hb) as Hr.
  assert (Hpow : 2 ^ Z.of_nat (length bs) <= 2 ^ 32) by (apply Z.pow_le_mono_r; lia).
  destruct (decide (1 ∈ bs)) as [H1 | H1].
  - assert (Hv : bitsValue bs <> 0).
    { intros Hv. apply bitsValue_zero in Hv; [| done].
      rewrite Forall_forall in Hv. specialize (Hv 1 H1). done. }
    assert (Hx : (if decide (length bs = 32%nat) then Js.toInt32 (bitsValue bs)
                  else bitsValue bs) <> 0).
    { destruct (decide (length bs = 32%nat)); [| done]. intros H0.
      pose proof (toInt32_mod (bitsValue bs)) as Hm. rewrite H0 in Hm.
      rewrite Z.mod_0_l, Z.mod_small in Hm by lia. lia. }
    rewrite intToBits_bits by done.
    apply list_eq. intros i. rewrite list_lookup_fmap.
    destruct (bs !! i) as [b |] eqn:Hi.
    + pose proof (lookup_lt_Some _ _ _ Hi) as Hlt.
      rewrite lookup_seq_lt by done. simpl. f_equal.
      destruct (decide (length bs = 32%nat)).
      * rewrite toInt32_testbit by lia. by apply bitsValue_testbit.
      * by apply bitsValue_testbit.
    + apply lookup_ge_None in Hi. rewrite lookup_seq_ge by done. done.
  - pose proof (all_zero_bits bs Hb H1) as Hz. clear Hr Hpow H1 Hb.
    set (n := length bs) in *. clearbody n. subst bs.
    rewrite bitsValue_replicate. change (Js.toInt32 0) with 0.
    assert (Hz : (if decide (n = 32%nat) then 0 else 0) = 0) by (by case_decide).
    rewrite Hz.
    destruct n as [| k]; [done |].
    rewrite intToBits_zero. simpl pred.
    replace (S k) with (k + 1)%nat by lia. rewrite replicate_add. simpl.
    rewrite insert_app_r_alt by (rewrite length_replicate; lia).
    by rewrite length_replicate, Nat.sub_diag.
Qed.

Lemma intsToBits_bitsToInts_witness :
  intsToBits (bitsToInts [[1; 0; 1]]) 3 = [[1; 0; 1]]
  /\ intsToBits (bitsToInts [[0; 0; 0]]) 3 = [[0; 0; 1]].
Proof.
  split.
  - apply (intsToBits_bitsToInts [1; 0; 1]); [repeat constructor; by right || by left | simpl; lia].
  - apply (intsToBits_bitsToInts [0; 0; 0]); [repeat constructor; by left | simpl; lia].
Defined.
End BitCodes.

(** ** Device support *)

Section UserAgent.

Lemma prefix_occurs (pat : string) : forall s : string,
  String.substring 0 (String.length pat) s = pat -> exists post, s = pat +:+ post.
Proof.
  induction pat as [| a pat IH]; intros s Hs.
  - exists s. reflexivity.
  - destruct s as [| b s]; [discriminate |]. simpl in Hs.
    injection Hs as -> Hs. destruct (IH s Hs) as [post ->].
    exists post. reflexivity.
Qed.

Lemma substring_occurs (pat : string) : forall (p : nat) (s : string),
  pat <> "" -> String.substring p (String.length pat) s = pat -> occursIn pat s.
Proof.
  intros p s Hne. revert s. induction p as [| p IH]; intros s Hs.
  - destruct (prefix_occurs pat s Hs) as [post ->]. exists "", post. reflexivity.
  - destruct s as [| b s]; simpl in Hs.
    + subst pat. done.
    + destruct (IH s Hs) as (pre & post & ->). exists (String b pre), post. reflexivity.
Qed.

Lemma substring_prefix (pat post : string) :
  String.substring 0 (String.length pat) (pat +:+ post) = pat.
Proof.
  induction pat as [| b pat IH].
  - change ("" +:+ post) with post. destruct post; reflexivity.
  - change (String b pat +:+ post) with (String b (pat +:+ post)).
    simpl. by rewrite IH.
Qed.

Lemma occurs_substring (pat pre post : string) :
  String.substring (String.length pre) (String.length pat) (pre +:+ pat +:+ post) = pat.
Proof.
  induction pre as [| a pre IH].
  - change ("" +:+ pat +:+ post) with (pat +:+ post). apply substring_prefix.
  - change (String a pre +:+ pat +:+ post) with (String a (pre +:+ pat +:+ post)).
    simpl. exact IH.
Qed.

Lemma indexOf_absent (s pat : string) :
  pat <> "" -> (JsString.indexOf s pat = (-1)%Z <-> ~ occursIn pat s).
Proof.
  intros Hne. unfold JsString.indexOf.
  destruct (String.index 0 pat s) as [m |] eqn:Hi.
  - split; [lia |]. intros Hno. exfalso. apply Hno.
    eapply (substring_occurs _ m); [done |]. eapply String.index_correct1. exact Hi.
  - split; [| done]. intros _ (pre & post & ->).
    apply (String.index_correct3 0 (String.length pre) _ _ Hi Hne); [lia |].
    apply occurs_substring.
Qed.

Lemma indexOf_range (s pat : string) : (-1 <= JsString.indexOf s pat)%Z.
Proof. unfold JsString.indexOf. destruct (String.index _ _ _); lia. Qed.

Lemma isSafari_lower (env : Env) :
  isSafari env = true
  <-> occursIn "safari" (JsString.toLowerCase (userAgent env))
      /\ ~ occursIn "chrome" (JsString.toLowerCase (userAgent env)).
Proof.
  unfold isSafari.
  pose proof (indexOf_absent (JsString.toLowerCase (userAgent env)) "safari" ltac:(done)) as Hs.
  pose proof (indexOf_absent (JsString.toLowerCase (userAgent env)) "chrome" ltac:(done)) as Hc.
  pose proof (indexOf_range (JsString.toLowerCase (userAgent env)) "chrome") as Hr.
  destruct (Z.eqb_spec (JsString.indexOf (JsString.toLowerCase (userAgent env)) "safari") (-1))
    as [Hs1 | Hs1]; simpl.
  - split; [done |]. intros [Hocc _]. by apply Hs in Hs1.
  - assert (Hocc : occursIn "safari" (JsString.toLowerCase (userAgent env))).
    { destruct (String.index 0 "safari" (JsString.toLowerCase (userAgent env))) as [m |] eqn:Hi.
      - eapply (substring_occurs _ m); [done |]. eapply String.index_correct1. exact Hi.
      - unfold JsString.indexOf in Hs1. rewrite Hi in Hs1. done. }
    destruct (Z.gtb_spec (JsString.indexOf (JsString.toLowerCase (userAgent env)) "chrome") (-1))
      as [Hc1 | Hc1].
    + split; [done |]. intros [_ Hno]. apply Hc in Hno. lia.
    + split; [| done]. intros _. split; [done |]. apply Hc. lia.
Qed.

Lemma toLowerCase_app (s t : string) :
  JsString.toLowerCase (s +:+ t) = JsString.toLowerCase s +:+ JsString.toLowerCase t.
Proof.
  induction s as [| a s IH]; [reflexivity |].
  change (String a s +:+ t) with (String a (s +:+ t)). simpl. rewrite IH. reflexivity.
Qed.

Lemma toLowerCase_split (a : string) : forall s b,
  JsString.toLowerCase s = a +:+ b ->
  exists a' b', s = a' +:+ b' /\ JsString.toLowerCase a' = a /\ JsString.toLowerCase b' = b.
Proof.
  induction a as [| c a IH]; intros s b Hs.
  - exists "", s. done.
  - destruct s as [| c' s]; [discriminate |].
    change (String c a +:+ b) with (String c (a +:+ b)) in Hs. simpl in Hs.
    injection Hs as Hc Hs. destruct (IH s b Hs) as (a' & b' & -> & Ha & Hb).
    exists (String c' a'), b'. split; [reflexivity |]. split; [| done].
    simpl. by rewrite Hc, Ha.
Qed.

Lemma occursAnyCase_lower (pat s : string) :
  occursAnyCase pat s <-> occursIn pat (JsString.toLowerCase s).
Proof.
  split.
  - intros (w & <- & pre & post & ->).
    exists (JsString.toLowerCase pre), (JsString.toLowerCase post).
    by rewrite !toLowerCase_app.
  - intros (pre & post & Hs).
    apply toLowerCase_split in Hs as (pre' & rest & -> & _ & Hrest).
    apply toLowerCase_split in Hrest as (w & post' & -> & Hw & _).
    exists w. split; [done |]. by exists pre', post'.
Qed.

(** [isSafari] answers [true] exactly for a user agent that holds the word
    "safari" and does not hold the word "chrome", each in any letter case. *)
Theorem isSafari_spec (env : Env) :
  isSafari env = true
  <-> occursAnyCase "safari" (userAgent env)
      /\ ~ occursAnyCase "chrome" (userAgent env).
Proof. rewrite isSafari_lower, !occursAnyCase_lower. done. Qed.

(** [isDeviceSupported] holds exactly when the runtime reports a WebGL
    version of at least 1 and the user agent is not Safari's: it does not
    hold the word "safari", or it holds the word "chrome" as well (as the
    user agent of Chrome does). *)
Theorem isDeviceSupported_spec (env : Env) :
  isDeviceSupported env = true
  <-> 1 <= WEBGL_VERSION env
      /\ (~ occursAnyCase "safari" (userAgent env)
          \/ occursAnyCase "chrome" (userAgent env)).
Proof.
  unfold isDeviceSupported, isWebGLSupported.
  rewrite andb_true_iff, Nat.leb_le, negb_true_iff.
  pose proof (isSafari_lower env) as Hs.
  rewrite !occursAnyCase_lower.
  pose proof (indexOf_absent (JsString.toLowerCase (userAgent env)) "safari" ltac:(done)) as Hsa.
  pose proof (indexOf_absent (JsString.toLowerCase (userAgent env)) "chrome" ltac:(done)) as Hch.
  split; intros [Hv Hua]; (split; [done |]).
  - destruct (decide (JsString.indexOf (JsString.toLowerCase (userAgent env)) "safari" = (-1)%Z))
      as [H1 | H1]; [left; by apply Hsa |].
    destruct (decide (JsString.indexOf (JsString.toLowerCase (userAgent env)) "chrome" = (-1)%Z))
      as [H2 | H2].
    + exfalso. assert (isSafari env = true); [| congruence].
      apply Hs. split; [| by apply Hch].
      destruct (String.index 0 "safari" (JsString.toLowerCase (userAgent env))) as [m |] eqn:Hi.
      * eapply (substring_occurs _ m); [done |]. eapply String.index_correct1. exact Hi.
      * unfold JsString.indexOf in H1. rewrite Hi in H1. done.
    + right.
      destruct (String.index 0 "chrome" (JsString.toLowerCase (userAgent env))) as [m |] eqn:Hi.
      * eapply (substring_occurs _ m); [done |]. eapply String.index_correct1. exact Hi.
      * unfold JsString.indexOf in H2. rewrite Hi in H2. done.
  - destruct (isSafari env) eqn:E; [| done]. exfalso.
    destruct (proj1 Hs eq_refl) as [Hsaf Hnc]. destruct Hua as [Hns | Hc]; auto.
Qed.

Example isSafari_chrome :
  isSafari {| WEBGL_VERSION := 2; userAgent := chromeUserAgent |} = false
  /\ isDeviceSupported {| WEBGL_VERSION := 2; userAgent := chromeUserAgent |} = true.
Proof. split; vm_compute; reflexivity. Qed.

Example isSafari_safari :
  isSafari {| WEBGL_VERSION := 2; userAgent := safariUserAgent |} = true
  /\ isDeviceSupported {| WEBGL_VERSION := 2; userAgent := safariUserAgent |} = false
  /\ isDeviceSupported {| WEBGL_VERSION := 0; userAgent := chromeUserAgent |} = false.
Proof. repeat split; vm_compute; reflexivity. Qed.
End UserAgent.

(** ** The top-level class: argument check and determinism *)

Section Exceptions.
Context {F : Type} `{Arith F} `{Activation F}.

Lemma noArgumentError_bind {A B} (r : result A) (k : A -> result B) :
  noArgumentError r -> (forall a, noArgumentError (k a)) -> noArgumentError (r ≫= k).
Proof. destruct r as [a | e]; simpl; auto. Qed.

Lemma noArgumentError_neq {A} (r : result A) msg :
  noArgumentError r -> r <> Throw (InvalidArgument msg).
Proof. destruct r as [a | e]; simpl; [discriminate | intros He [= ->]; by eapply He]. Qed.

Lemma stack1_noArgumentError {A} (ts : list (list A)) : noArgumentError (stack1 ts).
Proof. destruct ts as [| t [| t' ts]]; simpl; try discriminate; exact I. Qed.

Lemma decodeStep_noArgumentError (self : Decoder.t F) batchSize z st :
  noArgumentError (Decoder.decodeStep self batchSize z st).
Proof.
  unfold Decoder.decodeStep.
  destruct (last _); [| simpl; discriminate].
  destruct (Decoder.nade self) as [n |]; [| exact I].
  apply noArgumentError_bind; [apply stack1_noArgumentError | intros; exact I].
Qed.

Lemma decodeLoop_noArgumentError (self : Decoder.t F) batchSize z length st :
  noArgumentError (Decoder.decodeLoop self batchSize z length st).
Proof.
  revert st. induction length as [| k IH]; intros st; simpl; [exact I |].
  apply noArgumentError_bind; [apply decodeStep_noArgumentError | exact IH].
Qed.

Lemma decode_noArgumentError (self : Decoder.t F) z length :
  noArgumentError (Decoder.decode self z length).
Proof.
  apply noArgumentError_bind; [apply decodeLoop_noArgumentError |].
  intros; apply stack1_noArgumentError.
Qed.
End Exceptions.

Section TopLevel.
Context {F : Type} `{Arith F} `{Activation F} `{Storage F} `{RandomSource F}.

Lemma interpolateZs_noArgumentError (z : Tensor2D F) (n numSteps : nat) :
  n = 2 \/ n = 4 -> noArgumentError (MusicVAE.interpolateZs z n numSteps).
Proof.
  intros Hn. unfold MusicVAE.interpolateZs.
  apply noArgumentError_bind.
  - destruct numSteps; simpl; [discriminate | exact I].
  - intros ramp. destruct Hn as [-> | ->]; exact I.
Qed.

(** C5.  When the batch size of [sequences] is neither 2 nor 4,
    [interpolate] raises its invalid-argument error and the runtime is as it
    was: no call into the encoder, the latent blend or the decoder has been
    made, and the generator is untouched (this holds even for a model whose
    encoder is [null]).  When the batch size is 2 or 4, no invalid-argument
    error is raised, whatever else happens. *)
Theorem interpolate_batch_size_check (self : MusicVAE.t F)
    (sequences : Tensor3D F) (numSteps : nat) (rt : Runtime Gen) :
  (length sequences <> 2 -> length sequences <> 4 ->
   MusicVAE.interpolate self sequences numSteps rt
   = (Throw (InvalidArgument
               "Invalid number of input sequences. Requires length 2, or 4"), rt))
  /\ (length sequences = 2 \/ length sequences = 4 ->
      forall msg,
        fst (MusicVAE.interpolate self sequences numSteps rt)
        <> Throw (InvalidArgument msg)).
Proof.
  unfold MusicVAE.interpolate. split.
  - intros Hn2 Hn4.
    apply Nat.eqb_neq in Hn2, Hn4. by rewrite Hn2, Hn4.
  - intros Hn msg.
    assert (Hc : negb (length sequences =? 2) && negb (length sequences =? 4) = false).
    { destruct Hn as [-> | ->]; reflexivity. }
    rewrite Hc.
    destruct (MusicVAE.encoder self) as [enc |]; [| discriminate].
    pose proof (interpolateZs_noArgumentError (Encoder.encode enc sequences)
                  (length sequences) numSteps Hn) as Hz.
    destruct (MusicVAE.interpolateZs _ _ _) as [zs | e]; simpl.
    + destruct (MusicVAE.decoder self) as [dec |]; [| discriminate].
      simpl. apply noArgumentError_neq, decode_noArgumentError.
    + intros [= ->]. by eapply Hz.
Qed.

End TopLevel.

Lemma interpolate_batch_size_check_witness :
  @MusicVAE.interpolate Qc _ Qc_softsign _ counterSource notLoaded threeSequences 3
    freshRuntime
  = (Throw (InvalidArgument
              "Invalid number of input sequences. Requires length 2, or 4"),
     freshRuntime).
Proof.
  apply (proj1 (@interpolate_batch_size_check Qc _ Qc_softsign _ counterSource
                  notLoaded threeSequences 3 freshRuntime)); simpl; lia.
Defined.

(** *** No draw while encoding *)

Section Programs.
Context {F : Type} `{Arith F} `{Activation F} `{RandomSource F}.

Lemma drawsNothing_ret {A} (a : A) : drawsNothing (OnRuntime.ret a) a.
Proof. intros g. exists []. split; [reflexivity | apply not_elem_of_nil]. Qed.

Lemma drawsNothing_call {A} (p : Primitive) (a : A) :
  p <> PrimRandomNormal -> drawsNothing (OnRuntime.call p a) a.
Proof.
  intros Hp g. exists [p]. split; [reflexivity |].
  intros Hin. apply list_elem_of_singleton in Hin. congruence.
Qed.

Lemma drawsNothing_bind {A B} (m : OnRuntime.Program A) (k : A -> OnRuntime.Program B)
    (a : A) (b : B) :
  drawsNothing m a -> drawsNothing (k a) b -> drawsNothing (OnRuntime.bind m k) b.
Proof.
  intros Hm Hk g. destruct (Hm g) as (l1 & E1 & N1). destruct (Hk g) as (l2 & E2 & N2).
  exists (l1 ++ l2). unfold OnRuntime.bind. rewrite E1. simpl. rewrite E2. simpl.
  split; [reflexivity |].
  intros Hin. apply elem_of_app in Hin. tauto.
Qed.

Lemma drawsNothing_forEach {S} (body : nat -> S -> OnRuntime.Program S)
    (f : S -> nat -> S) (indices : list nat) :
  (forall i s, drawsNothing (body i s) (f s i)) ->
  forall s, drawsNothing (OnRuntime.forEach body indices s) (fold_left f indices s).
Proof.
  intros Hbody. induction indices as [| i rest IH]; intros s; simpl.
  - apply drawsNothing_ret.
  - eapply drawsNothing_bind; [apply Hbody | apply IH].
Qed.

Lemma runLstm_drawsNothing (inputs : Tensor3D F) (lstmVars : LayerVars F)
    (reverse : bool) :
  drawsNothing (OnRuntime.runLstm inputs lstmVars reverse)
               (Encoder.runLstm inputs lstmVars reverse).
Proof.
  unfold OnRuntime.runLstm, Encoder.runLstm.
  eapply drawsNothing_bind; [by apply drawsNothing_call |].
  eapply drawsNothing_bind; [by apply drawsNothing_call |].
  apply (drawsNothing_forEach _
           (fun state i =>
              basicLSTMCell forgetBias (kernel lstmVars) (bias lstmVars)
                (Encoder.timeSlice inputs (length inputs) (shape2 inputs)
                   (if reverse then ncols inputs - 1 - i else i))
                (fst state) (snd state))).
  intros i state.
  eapply drawsNothing_bind; [by apply drawsNothing_call |].
  eapply drawsNothing_bind; [by apply drawsNothing_call |].
  by apply drawsNothing_call.
Qed.

(** C9.  Run as a program on the tensor runtime, from any state [g] of the
    runtime's generator, [Encoder.encode] returns the latent mean that the
    weights and the input determine ([Encoder.encode], whose formula
    [encode_latentMean] gives), leaves the generator in the state [g], and
    calls no primitive that draws numbers: [dl.randomNormal] is not among
    the primitives it calls.  Two calls on the same input therefore return
    the same latent means, whatever was drawn in between. *)
Theorem encode_deterministic (self : Encoder.t F) (sequence : Tensor3D F) :
  (forall g, exists log,
     OnRuntime.encode self sequence g = (Encoder.encode self sequence, g, log)
     /\ PrimRandomNormal ∉ log)
  /\ (forall g g',
       fst (fst (OnRuntime.encode self sequence g))
       = fst (fst (OnRuntime.encode self sequence g'))).
Proof.
  assert (Hd : drawsNothing (OnRuntime.encode self sequence)
                            (Encoder.encode self sequence)).
  { unfold OnRuntime.encode, Encoder.encode.
    eapply drawsNothing_bind; [apply runLstm_drawsNothing |].
    eapply drawsNothing_bind; [apply runLstm_drawsNothing |].
    eapply drawsNothing_bind; [by apply drawsNothing_call |].
    unfold OnRuntime.dense, dense.
    eapply drawsNothing_bind; by apply drawsNothing_call. }
  split; [exact Hd |].
  intros g g'. destruct (Hd g) as (l & -> & _). destruct (Hd g') as (l' & -> & _).
  reflexivity.
Qed.
End Programs.

(** The draw of [MusicVAE.sample] is a program of the other kind: what it
    returns depends on the state of the generator, which it advances. *)
Example drawLatents_depends_on_generator :
  fst (fst (OnRuntime.drawLatents (H1 := counterSource) tinyDecoderArgmax 1 0%nat))
  <> fst (fst (OnRuntime.drawLatents (H1 := counterSource) tinyDecoderArgmax 1 1%nat))
  /\ snd (fst (OnRuntime.drawLatents (H1 := counterSource) tinyDecoderArgmax 1 0%nat)) <> 0%nat
  /\ PrimRandomNormal ∈
       snd (OnRuntime.drawLatents (H1 := counterSource) tinyDecoderArgmax 1 0%nat).
Proof.
  split; [vm_compute; discriminate |].
  split; [vm_compute; discriminate |].
  vm_compute. apply list_elem_of_here.
Qed.

(** ** Binding the checkpoint store *)

Lemma string_app_length (s t : string) :
  String.length (s +:+ t) = String.length s + String.length t.
Proof. induction s as [| a s IH]; simpl; [reflexivity | by rewrite IH]. Qed.

Lemma string_app_inv_tail (s1 s2 t : string) : s1 +:+ t = s2 +:+ t -> s1 = s2.
Proof.
  revert s2. induction s1 as [| a s1 IH]; intros [| b s2] Heq; simpl in Heq.
  - reflexivity.
  - apply (f_equal String.length) in Heq. simpl in Heq.
    rewrite !string_app_length in Heq. simpl in Heq. lia.
  - apply (f_equal String.length) in Heq. simpl in Heq.
    rewrite !string_app_length in Heq. simpl in Heq. lia.
  - injection Heq as -> Heq. f_equal. by apply IH.
Qed.

Section Loading.
Context {F : Type}.
Implicit Types vars : gmap string (Checkpoint.Tensor F).

Lemma cellKernel_inj : Inj (=) (=) cellKernel.
Proof.
  intros l1 l2 Heq. unfold cellKernel, Checkpoint.cellPrefix in Heq.
  apply string_app_inv_tail in Heq.
  apply (inj (String.app _)) in Heq.
  apply string_app_inv_tail in Heq.
  by apply (inj pretty) in Heq.
Qed.

Lemma probeCells_None vars fuel : forall l acc,
  Checkpoint.probeCells vars fuel l acc = None ->
  forall j, j < fuel -> is_Some (vars !! cellKernel (l + j)).
Proof.
  induction fuel as [| fuel IH]; intros l acc Hp j Hj; [lia |].
  simpl in Hp. fold (cellKernel l) in Hp.
  destruct (vars !! cellKernel l) as [t |] eqn:Hl; [| discriminate].
  destruct j as [| j].
  - rewrite Nat.add_0_r, Hl. eauto.
  - replace (l + S j) with (S l + j) by lia. eapply IH; [exact Hp | lia].
Qed.

Lemma probeCells_ends vars :
  is_Some (Checkpoint.probeCells vars (S (size vars)) 0 []).
Proof.
  destruct (Checkpoint.probeCells vars (S (size vars)) 0 []) as [ls |] eqn:Hp; [eauto |].
  exfalso.
  pose proof (probeCells_None vars _ _ _ Hp) as Hall.
  set (keys := cellKernel <$> seq 0 (S (size vars))).
  assert (Hnd : NoDup keys).
  { apply NoDup_fmap_2; [apply cellKernel_inj | apply NoDup_seq]. }
  assert (Hsub : (list_to_set keys : gset string) ⊆ dom vars).
  { intros k Hk. apply elem_of_list_to_set, list_elem_of_fmap in Hk.
    destruct Hk as (j & -> & Hj). apply elem_of_seq in Hj.
    apply elem_of_dom. apply (Hall j). lia. }
  apply subseteq_size in Hsub.
  rewrite size_list_to_set in Hsub by exact Hnd.
  rewrite size_dom in Hsub. unfold keys in Hsub.
  rewrite length_fmap, length_seq in Hsub. lia.
Qed.

(** What the loop returns: the layers of the cells [l], [l+1], ... up to the
    first index whose kernel is not in the store. *)
Lemma probeCells_Some vars fuel : forall l acc ls,
  Checkpoint.probeCells vars fuel l acc = Some ls ->
  exists n,
    (forall j, j < n -> is_Some (vars !! cellKernel (l + j)))
    /\ vars !! cellKernel (l + n) = None
    /\ ls = acc ++ map (fun j => Checkpoint.layerAt vars (Checkpoint.cellPrefix j)) (seq l n).
Proof.
  induction fuel as [| fuel IH]; intros l acc ls Hp; [discriminate |].
  simpl in Hp. fold (cellKernel l) in Hp.
  destruct (vars !! cellKernel l) as [t |] eqn:Hl.
  - apply IH in Hp as (n & Hlt & Hn & ->). exists (S n). split; [| split].
    + intros [| j] Hj; [rewrite Nat.add_0_r, Hl; eauto |].
      replace (l + S j) with (S l + j) by lia. apply Hlt. lia.
    + replace (l + S n) with (S l + n) by lia. exact Hn.
    + by rewrite <- app_assoc.
  - injection Hp as <-. exists 0. rewrite Nat.add_0_r, app_nil_r.
    split; [intros; lia | done].
Qed.

(** The loop that probes the names of the decoder cells ends, and it binds
    exactly the cells [0 .. n-1], [n] being the first index whose kernel is
    not in the store. *)
Lemma decLstmLayers_spec vars :
  exists n,
    (forall j, j < n -> is_Some (vars !! cellKernel j))
    /\ vars !! cellKernel n = None
    /\ Checkpoint.decLstmLayers vars
       = map (fun j => Checkpoint.layerAt vars (Checkpoint.cellPrefix j)) (seq 0 n).
Proof.
  unfold Checkpoint.decLstmLayers.
  destruct (probeCells_ends vars) as [ls Hls]. rewrite Hls. simpl.
  apply probeCells_Some in Hls as (n & H1 & H2 & ->). eauto.
Qed.
End Loading.

Section Binding.
Context {F : Type}.
Implicit Types vars : gmap string (Checkpoint.Tensor F).

Lemma newEncoder_Ok (fw bw mu : Checkpoint.LayerVars F) :
  isOk (Checkpoint.newEncoder fw bw mu) <-> is_Some (Checkpoint.bias mu).
Proof.
  unfold Checkpoint.newEncoder, isOk. destruct (Checkpoint.bias mu); split.
  - eauto.
  - eauto.
  - intros [? [=]].
  - intros [? [=]].
Qed.

Lemma newDecoder_Ok (cells : list (Checkpoint.LayerVars F)) z2i op nade :
  isOk (Checkpoint.newDecoder cells z2i op nade)
  <-> is_Some (Checkpoint.kernel z2i)
      /\ (nade = None -> is_Some (Checkpoint.bias op)).
Proof.
  unfold Checkpoint.newDecoder, isOk.
  destruct (Checkpoint.kernel z2i) as [k |]; [| split; [intros [? [=]] | intros [[? [=]] _]]].
  destruct nade as [n |]; simpl.
  - split; [intros _; split; [eauto | discriminate] | eauto].
  - destruct (Checkpoint.bias op) as [b |]; simpl.
    + split; [intros _; split; eauto | eauto].
    + split; [intros [? [=]] | intros [_ Hb]]. destruct (Hb eq_refl) as [? [=]].
Qed.

Lemma newDecoder_nade (cells : list (Checkpoint.LayerVars F)) z2i op nade dec :
  Checkpoint.newDecoder cells z2i op nade = Ok dec -> Checkpoint.nade dec = nade.
Proof.
  unfold Checkpoint.newDecoder.
  destruct (Checkpoint.kernel z2i); [| discriminate].
  destruct nade as [n |]; simpl.
  - by intros [= <-].
  - destruct (Checkpoint.bias op); simpl; [by intros [= <-] | discriminate].
Qed.

(** C8 (as amended).  In every successful [initialize] the decoder holds the
    NADE head exactly when the store has the name [decoder/nade/w_enc]; the
    head is a field of the decoder built at load time.  Without that name
    the load succeeds (argmax head) exactly when the three weights whose
    shape a constructor reads are in the store: [encoder/mu/bias],
    [decoder/z_to_initial_state/kernel] and [decoder/output_projection/bias].
    With that name it succeeds exactly when the NADE weights can be built
    ([decoder/nade/w_dec_t] present, both reshapable) and the first two of
    those weights are in the store.  No other name is required for
    [initialize] to succeed. *)
Theorem initialize_binding (self : Checkpoint.MusicVAE F) vars :
  (forall m, Checkpoint.initialize self vars = Ok m ->
     exists enc dec,
       Checkpoint.encoder m = Some enc /\ Checkpoint.decoder m = Some dec
       /\ (is_Some (Checkpoint.nade dec) <-> is_Some (vars !! "decoder/nade/w_enc")))
  /\ (vars !! "decoder/nade/w_enc" = None ->
      (isOk (Checkpoint.initialize self vars)
       <-> is_Some (vars !! "encoder/mu/bias")
           /\ is_Some (vars !! "decoder/z_to_initial_state/kernel")
           /\ is_Some (vars !! "decoder/output_projection/bias")))
  /\ (is_Some (vars !! "decoder/nade/w_enc") ->
      (isOk (Checkpoint.initialize self vars)
       <-> isOk (Checkpoint.newNade (vars !! "decoder/nade/w_enc")
                                    (vars !! "decoder/nade/w_dec_t"))
           /\ is_Some (vars !! "encoder/mu/bias")
           /\ is_Some (vars !! "decoder/z_to_initial_state/kernel"))).
Proof.
  unfold Checkpoint.initialize.
  set (fw := Checkpoint.layerAt vars "encoder/cell_0/bidirectional_rnn/fw/multi_rnn_cell/cell_0/lstm_cell/").
  set (bw := Checkpoint.layerAt vars "encoder/cell_0/bidirectional_rnn/bw/multi_rnn_cell/cell_0/lstm_cell/").
  set (cells := Checkpoint.decLstmLayers vars).
  pose proof (newEncoder_Ok fw bw (Checkpoint.layerAt vars "encoder/mu/")) as HE.
  pose proof (fun nade => newDecoder_Ok cells
    (Checkpoint.layerAt vars "decoder/z_to_initial_state/")
    (Checkpoint.layerAt vars "decoder/output_projection/") nade) as HD.
  pose proof (fun nade => newDecoder_nade cells
    (Checkpoint.layerAt vars "decoder/z_to_initial_state/")
    (Checkpoint.layerAt vars "decoder/output_projection/") nade) as HN.
  change (Checkpoint.bias (Checkpoint.layerAt vars "encoder/mu/"))
    with (vars !! "encoder/mu/bias") in HE.
  change (Checkpoint.kernel (Checkpoint.layerAt vars "decoder/z_to_initial_state/"))
    with (vars !! "decoder/z_to_initial_state/kernel") in HD.
  change (Checkpoint.bias (Checkpoint.layerAt vars "decoder/output_projection/"))
    with (vars !! "decoder/output_projection/bias") in HD.
  destruct (vars !! "decoder/nade/w_enc") as [ew |] eqn:Hew.
  - destruct (Checkpoint.newNade (Some ew) (vars !! "decoder/nade/w_dec_t"))
      as [n | e] eqn:Hn; simpl.
    + specialize (HD (Some n)). specialize (HN (Some n)).
      destruct (Checkpoint.newEncoder _ _ _) as [enc | e1]; simpl.
      * destruct (Checkpoint.newDecoder _ _ _ _) as [dec | e2]; simpl.
        -- split; [| split; [discriminate |]].
           ++ intros m [= <-]. exists enc, dec. simpl.
              rewrite (HN dec eq_refl). split; [done | split; [done |]]. split; eauto.
           ++ intros _. split; [| unfold isOk; eauto].
              intros _. split; [unfold isOk; eauto |].
              split; [apply HE; unfold isOk; eauto | apply HD; unfold isOk; eauto].
        -- split; [discriminate | split; [discriminate |]].
           intros _. split; [intros [? [=]] |].
           intros (_ & _ & Hk). destruct (proj2 HD) as [? [=]]. split; [done | discriminate].
      * split; [discriminate | split; [discriminate |]].
        intros _. split; [intros [? [=]] |].
        intros (_ & Hb & _). destruct (proj2 HE Hb) as [? [=]].
    + split; [discriminate | split; [discriminate |]].
      intros _. split; [intros [? [=]] | intros ([? [=]] & _)].
  - simpl. specialize (HD None). specialize (HN None).
    destruct (Checkpoint.newEncoder _ _ _) as [enc | e1]; simpl.
    + destruct (Checkpoint.newDecoder _ _ _ _) as [dec | e2]; simpl.
      * split; [| split; [| intros [? [=]]]].
        -- intros m [= <-]. exists enc, dec. simpl. rewrite (HN dec eq_refl).
           split; [done | split; [done |]]. split; intros [? [=]].
        -- intros _. split; [| unfold isOk; eauto].
           intros _. split; [apply HE; unfold isOk; eauto |].
           destruct (proj1 HD) as [Hk Hb]; [unfold isOk; eauto |]. split; [done | by apply Hb].
      * split; [discriminate | split; [| intros [? [=]]]].
        intros _. split; [intros [? [=]] |].
        intros (_ & Hk & Hb). destruct (proj2 HD) as [? [=]]. split; done.
    + split; [discriminate | split; [| intros [? [=]]]].
      intros _. split; [intros [? [=]] |].
      intros (Hb & _). destruct (proj2 HE Hb) as [? [=]].
Qed.
(** What a successful load with the argmax head binds. *)
Lemma initialize_argmax_bound (self : Checkpoint.MusicVAE F) vars mb zk ob :
  vars !! "decoder/nade/w_enc" = None ->
  vars !! "encoder/mu/bias" = Some mb ->
  vars !! "decoder/z_to_initial_state/kernel" = Some zk ->
  vars !! "decoder/output_projection/bias" = Some ob ->
  Checkpoint.initialize self vars
  = Ok {| Checkpoint.checkpointURL := Checkpoint.checkpointURL self;
          Checkpoint.encoder := Some
            {| Checkpoint.lstmFwVars := Checkpoint.layerAt vars
                 "encoder/cell_0/bidirectional_rnn/fw/multi_rnn_cell/cell_0/lstm_cell/";
               Checkpoint.lstmBwVars := Checkpoint.layerAt vars
                 "encoder/cell_0/bidirectional_rnn/bw/multi_rnn_cell/cell_0/lstm_cell/";
               Checkpoint.muVars := Checkpoint.layerAt vars "encoder/mu/";
               Checkpoint.enc_zDims := Checkpoint.shape mb !! 0 |};
          Checkpoint.decoder := Some
            {| Checkpoint.lstmCellVars := Checkpoint.decLstmLayers vars;
               Checkpoint.zToInitStateVars :=
                 Checkpoint.layerAt vars "decoder/z_to_initial_state/";
               Checkpoint.outputProjectVars :=
                 Checkpoint.layerAt vars "decoder/output_projection/";
               Checkpoint.zDims := Checkpoint.shape zk !! 0;
               Checkpoint.outputDims := Checkpoint.shape ob !! 0;
               Checkpoint.nade := None |};
          Checkpoint.rawVars := Some vars |}.
Proof.
  intros Hn Hmb Hzk Hob. unfold Checkpoint.initialize.
  rewrite Hn. cbn [mbind result_bind].
  unfold Checkpoint.newEncoder, Checkpoint.newDecoder.
  change (Checkpoint.bias (Checkpoint.layerAt vars "encoder/mu/"))
    with (vars !! "encoder/mu/bias").
  change (Checkpoint.kernel (Checkpoint.layerAt vars "decoder/z_to_initial_state/"))
    with (vars !! "decoder/z_to_initial_state/kernel").
  change (Checkpoint.bias (Checkpoint.layerAt vars "decoder/output_projection/"))
    with (vars !! "decoder/output_projection/bias").
  rewrite Hmb, Hzk, Hob. reflexivity.
Qed.

Lemma initialize_nade_bound (self : Checkpoint.MusicVAE F) vars ew n mb zk :
  vars !! "decoder/nade/w_enc" = Some ew ->
  Checkpoint.newNade (Some ew) (vars !! "decoder/nade/w_dec_t") = Ok n ->
  vars !! "encoder/mu/bias" = Some mb ->
  vars !! "decoder/z_to_initial_state/kernel" = Some zk ->
  Checkpoint.initialize self vars
  = Ok {| Checkpoint.checkpointURL := Checkpoint.checkpointURL self;
          Checkpoint.encoder := Some
            {| Checkpoint.lstmFwVars := Checkpoint.layerAt vars
                 "encoder/cell_0/bidirectional_rnn/fw/multi_rnn_cell/cell_0/lstm_cell/";
               Checkpoint.lstmBwVars := Checkpoint.layerAt vars
                 "encoder/cell_0/bidirectional_rnn/bw/multi_rnn_cell/cell_0/lstm_cell/";
               Checkpoint.muVars := Checkpoint.layerAt vars "encoder/mu/";
               Checkpoint.enc_zDims := Checkpoint.shape mb !! 0 |};
          Checkpoint.decoder := Some
            {| Checkpoint.lstmCellVars := Checkpoint.decLstmLayers vars;
               Checkpoint.zToInitStateVars :=
                 Checkpoint.layerAt vars "decoder/z_to_initial_state/";
               Checkpoint.outputProjectVars :=
                 Checkpoint.layerAt vars "decoder/output_projection/";
               Checkpoint.zDims := Checkpoint.shape zk !! 0;
               Checkpoint.outputDims := Checkpoint.numDims n;
               Checkpoint.nade := Some n |};
          Checkpoint.rawVars := Some vars |}.
Proof.
  intros Hn Hnade Hmb Hzk. unfold Checkpoint.initialize.
  rewrite Hn, Hnade. cbn [mbind result_bind].
  unfold Checkpoint.newEncoder, Checkpoint.newDecoder.
  change (Checkpoint.bias (Checkpoint.layerAt vars "encoder/mu/"))
    with (vars !! "encoder/mu/bias").
  change (Checkpoint.kernel (Checkpoint.layerAt vars "decoder/z_to_initial_state/"))
    with (vars !! "decoder/z_to_initial_state/kernel").
  rewrite Hmb, Hzk. reflexivity.
Qed.
End Binding.

(** [dispose] raises a [TypeError] exactly when [rawVars] was never set,
    as on a model that was never loaded; otherwise it returns the model
    with both parts [null], which is not initialized, and keeps the store
    and the URL.  A successful [initialize] leaves a model that reports
    itself initialized and holds the store it was given, so that [dispose]
    succeeds on it. *)
Lemma initialize_then_dispose {F} (self : Checkpoint.MusicVAE F)
    (vars : gmap string (Checkpoint.Tensor F)) :
  (Checkpoint.rawVars self = None <-> Checkpoint.dispose self = Throw TypeError)
  /\ Checkpoint.dispose (F := F) (Checkpoint.new (Checkpoint.checkpointURL self))
     = Throw TypeError
  /\ (forall store, Checkpoint.rawVars self = Some store ->
        Checkpoint.dispose self
        = Ok {| Checkpoint.checkpointURL := Checkpoint.checkpointURL self;
                Checkpoint.encoder := None;
                Checkpoint.decoder := None;
                Checkpoint.rawVars := Some store |})
  /\ (forall m, Checkpoint.initialize self vars = Ok m ->
        Checkpoint.isInitialized m = true /\ Checkpoint.rawVars m = Some vars
        /\ exists m',
             Checkpoint.dispose m = Ok m'
             /\ Checkpoint.isInitialized m' = false
             /\ Checkpoint.rawVars m' = Some vars
             /\ Checkpoint.checkpointURL m' = Checkpoint.checkpointURL self).
Proof.
  split; [| split; [reflexivity | split]].
  - unfold Checkpoint.dispose. destruct (Checkpoint.rawVars self); split; done.
  - intros store Hs. unfold Checkpoint.dispose. by rewrite Hs.
  - intros m. unfold Checkpoint.initialize.
    destruct (vars !! "decoder/nade/w_enc");
      repeat (match goal with
              | |- context [mbind _ ?r] => destruct r; simpl
              end); try done; intros [= <-]; cbn; eauto 10.
Qed.

Example initialize_tinyStore :
  exists m enc dec,
    Checkpoint.initialize (Checkpoint.new "ckpt") tinyStore = Ok m
    /\ Checkpoint.encoder m = Some enc /\ Checkpoint.decoder m = Some dec
    /\ Checkpoint.nade dec = None
    /\ Checkpoint.outputDims dec = Some 2
    /\ length (Checkpoint.lstmCellVars dec) = 1
    /\ Checkpoint.isInitialized m = true.
Proof.
  do 3 eexists. split.
  - apply (initialize_argmax_bound _ tinyStore (zerosOfShape [1]) (zerosOfShape [1; 2])
             (zerosOfShape [2])); vm_compute; reflexivity.
  - cbn [Checkpoint.encoder Checkpoint.decoder Checkpoint.nade Checkpoint.outputDims
         Checkpoint.lstmCellVars Checkpoint.isInitialized].
    repeat split.
Qed.

Example initialize_tinyStoreNade :
  exists m enc dec n,
    Checkpoint.initialize (Checkpoint.new "ckpt") tinyStoreNade = Ok m
    /\ Checkpoint.encoder m = Some enc /\ Checkpoint.decoder m = Some dec
    /\ Checkpoint.nade dec = Some n
    /\ Checkpoint.numDims n = Some 2 /\ Checkpoint.numHidden n = Some 1
    /\ Checkpoint.outputDims dec = Some 2.
Proof.
  do 4 eexists. split.
  - eapply (initialize_nade_bound _ tinyStoreNade (zerosOfShape [2; 1; 1]) _
              (zerosOfShape [1]) (zerosOfShape [1; 2])); vm_compute; reflexivity.
  - cbn [Checkpoint.encoder Checkpoint.decoder Checkpoint.nade Checkpoint.outputDims
         Checkpoint.numDims Checkpoint.numHidden].
    repeat split.
Qed.

(** C8 as stated fails: a store without the forward encoder kernel, a
    required weight, is bound without any error; the model reports itself
    initialized and holds [undefined] in place of the kernel. *)
Lemma initialize_accepts_missing_kernel :
  delete "encoder/cell_0/bidirectional_rnn/fw/multi_rnn_cell/cell_0/lstm_cell/kernel"
         tinyStore
    !! "encoder/cell_0/bidirectional_rnn/fw/multi_rnn_cell/cell_0/lstm_cell/kernel"
  = None
  /\ exists m enc,
       Checkpoint.initialize (Checkpoint.new "ckpt")
         (delete "encoder/cell_0/bidirectional_rnn/fw/multi_rnn_cell/cell_0/lstm_cell/kernel"
                 tinyStore) = Ok m
       /\ Checkpoint.isInitialized m = true
       /\ Checkpoint.encoder m = Some enc
       /\ Checkpoint.kernel (Checkpoint.lstmFwVars enc) = None.
Proof.
  split; [apply lookup_delete_eq |]. do 2 eexists. split.
  - apply (initialize_argmax_bound _ _ (zerosOfShape [1]) (zerosOfShape [1; 2])
             (zerosOfShape [2])); vm_compute; reflexivity.
  - split; [reflexivity |]. split; [reflexivity |].
    cbn [Checkpoint.lstmFwVars Checkpoint.layerAt Checkpoint.kernel]. apply lookup_delete_eq.
Qed.

Lemma initialize_binding_witness :
  isOk (Checkpoint.initialize (Checkpoint.new "ckpt") tinyStore).
Proof.
  apply (proj1 (proj2 (initialize_binding (Checkpoint.new "ckpt") tinyStore)));
    vm_compute; repeat split; eauto.
Defined.

(** ** The constructors run by [initialize] *)

Section Constructors.
Context {F : Type}.
Implicit Types vars : gmap string (Checkpoint.Tensor F).

Lemma as2D_Ok (t : Checkpoint.Tensor F) (rows columns : option nat) (t' : Checkpoint.Tensor F) :
  Checkpoint.as2D t rows columns = Ok t'
  <-> exists r c, rows = Some r /\ columns = Some c
                  /\ 0 < r /\ 0 < c
                  /\ Checkpoint.sizeFromShape (Checkpoint.shape t) = r * c
                  /\ t' = {| Checkpoint.shape := [r; c];
                             Checkpoint.values := Checkpoint.values t |}.
Proof.
  unfold Checkpoint.as2D. destruct rows as [r |], columns as [c |].
  - destruct (decide (0 < r /\ 0 < c
                      /\ Checkpoint.sizeFromShape (Checkpoint.shape t) = r * c))
      as [(Hr & Hc & E) | Hn].
    + apply Nat.ltb_lt in Hr as Hr', Hc as Hc'. apply Nat.eqb_eq in E as E'.
      rewrite Hr', Hc', E'. simpl. split.
      * intros [= <-]. by exists r, c.
      * intros (r' & c' & [= <-] & [= <-] & _ & _ & _ & ->). done.
    + assert (Hf : (0 <? r) && (0 <? c)
                   && (Checkpoint.sizeFromShape (Checkpoint.shape t) =? r * c) = false).
      { apply not_true_is_false. intros Ht.
        apply andb_prop in Ht as [Ht E]. apply andb_prop in Ht as [Hr Hc].
        apply Nat.ltb_lt in Hr, Hc. apply Nat.eqb_eq in E. tauto. }
      rewrite Hf. split; [done |].
      intros (r' & c' & [= <-] & [= <-] & ? & ? & ? & _). tauto.
  - split; [done |]. intros (r' & c' & _ & [=] & _).
  - split; [done |]. intros (r' & c' & [=] & _).
  - split; [done |]. intros (r' & c' & [=] & _).
Qed.

(** The constructor of [Nade] succeeds exactly when the encoder weight has
    a first and a third axis, of positive sizes [d] and [h], and both
    tensors hold [d * h] entries; it then keeps the values and records
    [numDims = d], [numHidden = h].  A weight of shape [d, m, h] is accepted
    only for [m = 1], and never with [d = 0] or [h = 0]; a missing tensor
    raises a [TypeError]. *)
Theorem newNade_accepts (ew dw : Checkpoint.Tensor F) :
  (forall n, Checkpoint.newNade (Some ew) (Some dw) = Ok n <->
     exists d h,
       Checkpoint.shape ew !! 0 = Some d /\ Checkpoint.shape ew !! 2 = Some h
       /\ 0 < d /\ 0 < h
       /\ Checkpoint.sizeFromShape (Checkpoint.shape ew) = d * h
       /\ Checkpoint.sizeFromShape (Checkpoint.shape dw) = d * h
       /\ n = {| Checkpoint.encWeights :=
                   {| Checkpoint.shape := [d; h]; Checkpoint.values := Checkpoint.values ew |};
                 Checkpoint.decWeightsT :=
                   {| Checkpoint.shape := [d; h]; Checkpoint.values := Checkpoint.values dw |};
                 Checkpoint.numDims := Some d;
                 Checkpoint.numHidden := Some h |})
  /\ (forall d m h, Checkpoint.shape ew = [d; m; h] ->
        isOk (Checkpoint.newNade (Some ew) (Some dw)) -> 0 < d /\ 0 < h /\ m = 1)
  /\ Checkpoint.newNade None (Some dw) = Throw TypeError
  /\ (isOk (Checkpoint.as2D ew (Checkpoint.shape ew !! 0) (Checkpoint.shape ew !! 2)) ->
      Checkpoint.newNade (Some ew) None = Throw TypeError).
Proof.
  assert (Hiff : forall n, Checkpoint.newNade (Some ew) (Some dw) = Ok n <->
     exists d h,
       Checkpoint.shape ew !! 0 = Some d /\ Checkpoint.shape ew !! 2 = Some h
       /\ 0 < d /\ 0 < h
       /\ Checkpoint.sizeFromShape (Checkpoint.shape ew) = d * h
       /\ Checkpoint.sizeFromShape (Checkpoint.shape dw) = d * h
       /\ n = {| Checkpoint.encWeights :=
                   {| Checkpoint.shape := [d; h]; Checkpoint.values := Checkpoint.values ew |};
                 Checkpoint.decWeightsT :=
                   {| Checkpoint.shape := [d; h]; Checkpoint.values := Checkpoint.values dw |};
                 Checkpoint.numDims := Some d;
                 Checkpoint.numHidden := Some h |}).
  { intros n. unfold Checkpoint.newNade.
    destruct (Checkpoint.as2D ew _ _) as [ew2 | e] eqn:Ee; cbn.
    - apply as2D_Ok in Ee as (d & h & Hd & Hh & Hdp & Hhp & Hsz & ->).
      destruct (Checkpoint.as2D dw _ _) as [dw2 | e] eqn:Ed; cbn.
      + apply as2D_Ok in Ed as (d' & h' & Hd' & Hh' & _ & _ & Hsz' & ->).
        rewrite Hd in Hd'. rewrite Hh in Hh'. injection Hd' as <-. injection Hh' as <-.
        rewrite Hd, Hh. split.
        * intros [= <-]. by exists d, h.
        * intros (d' & h' & [= <-] & [= <-] & _ & _ & _ & _ & ->). done.
      + split; [done |]. intros (d' & h' & Hd' & Hh' & Hdp' & Hhp' & _ & Hsz' & _).
        assert (Hok : Checkpoint.as2D dw (Checkpoint.shape ew !! 0) (Checkpoint.shape ew !! 2)
                      = Ok {| Checkpoint.shape := [d'; h'];
                              Checkpoint.values := Checkpoint.values dw |}).
        { apply as2D_Ok. by exists d', h'. }
        congruence.
    - split; [done |]. intros (d & h & Hd & Hh & Hdp & Hhp & Hsz & _).
      assert (Hok : Checkpoint.as2D ew (Checkpoint.shape ew !! 0) (Checkpoint.shape ew !! 2)
                    = Ok {| Checkpoint.shape := [d; h];
                            Checkpoint.values := Checkpoint.values ew |}).
      { apply as2D_Ok. by exists d, h. }
      congruence. }
  split; [exact Hiff |]. split; [| split; [reflexivity |]].
  - intros d m h Hs [n Hn]. apply Hiff in Hn as (d' & h' & Hd & Hh & Hdp & Hhp & Hsz & _).
    rewrite Hs in Hd, Hh, Hsz. injection Hd as <-. injection Hh as <-.
    simpl in Hsz. split; [done |]. split; [done |]. nia.
  - intros [ew2 Hok]. unfold Checkpoint.newNade. by rewrite Hok.
Qed.
End Constructors.

Section Bound.
Context {F : Type}.
Implicit Types vars : gmap string (Checkpoint.Tensor F).

(** What a successful [initialize] leaves in the model: the store itself in
    [rawVars], the three encoder layers and the decoder layers looked up
    under their names, the cells [decLstmLayers] found, [zDims] read off the
    first axis of [encoder/mu/bias] (encoder) and of
    [decoder/z_to_initial_state/kernel] (decoder).  With the NADE head
    [outputDims] is the head's [numDims] and the bias of the output
    projection is not read; with the argmax head it is the length of that
    bias. *)
Theorem initialize_binds (self : Checkpoint.MusicVAE F) vars (m : Checkpoint.MusicVAE F) :
  Checkpoint.initialize self vars = Ok m ->
  exists enc dec mb zk,
    Checkpoint.encoder m = Some enc /\ Checkpoint.decoder m = Some dec
    /\ Checkpoint.checkpointURL m = Checkpoint.checkpointURL self
    /\ Checkpoint.rawVars m = Some vars
    /\ vars !! "encoder/mu/bias" = Some mb
    /\ vars !! "decoder/z_to_initial_state/kernel" = Some zk
    /\ enc = {| Checkpoint.lstmFwVars := Checkpoint.layerAt vars
                  "encoder/cell_0/bidirectional_rnn/fw/multi_rnn_cell/cell_0/lstm_cell/";
                Checkpoint.lstmBwVars := Checkpoint.layerAt vars
                  "encoder/cell_0/bidirectional_rnn/bw/multi_rnn_cell/cell_0/lstm_cell/";
                Checkpoint.muVars := Checkpoint.layerAt vars "encoder/mu/";
                Checkpoint.enc_zDims := Checkpoint.shape mb !! 0 |}
    /\ Checkpoint.lstmCellVars dec = Checkpoint.decLstmLayers vars
    /\ Checkpoint.zToInitStateVars dec = Checkpoint.layerAt vars "decoder/z_to_initial_state/"
    /\ Checkpoint.outputProjectVars dec = Checkpoint.layerAt vars "decoder/output_projection/"
    /\ Checkpoint.zDims dec = Checkpoint.shape zk !! 0
    /\ match Checkpoint.nade dec with
       | Some n =>
           Checkpoint.newNade (vars !! "decoder/nade/w_enc") (vars !! "decoder/nade/w_dec_t")
           = Ok n
           /\ is_Some (vars !! "decoder/nade/w_enc")
           /\ Checkpoint.outputDims dec = Checkpoint.numDims n
       | None =>
           vars !! "decoder/nade/w_enc" = None
           /\ exists ob, vars !! "decoder/output_projection/bias" = Some ob
                         /\ Checkpoint.outputDims dec = Checkpoint.shape ob !! 0
       end.
Proof.
  unfold Checkpoint.initialize, Checkpoint.newEncoder, Checkpoint.newDecoder.
  change (Checkpoint.bias (Checkpoint.layerAt vars "encoder/mu/"))
    with (vars !! "encoder/mu/bias").
  change (Checkpoint.kernel (Checkpoint.layerAt vars "decoder/z_to_initial_state/"))
    with (vars !! "decoder/z_to_initial_state/kernel").
  change (Checkpoint.bias (Checkpoint.layerAt vars "decoder/output_projection/"))
    with (vars !! "decoder/output_projection/bias").
  destruct (vars !! "decoder/nade/w_enc") as [ew |] eqn:Hew.
  - destruct (Checkpoint.newNade (Some ew) (vars !! "decoder/nade/w_dec_t")) as [n | e] eqn:Hn;
      [| done].
    destruct (vars !! "encoder/mu/bias") as [mb |]; [| done].
    destruct (vars !! "decoder/z_to_initial_state/kernel") as [zk |]; [| done].
    cbn. intros [= <-]. do 2 eexists. exists mb, zk. cbn. repeat split; try done.
  - destruct (vars !! "encoder/mu/bias") as [mb |]; [| done].
    destruct (vars !! "decoder/z_to_initial_state/kernel") as [zk |]; [| done].
    destruct (vars !! "decoder/output_projection/bias") as [ob |]; [| done].
    cbn. intros [= <-]. do 2 eexists. exists mb, zk. cbn. repeat split; try done. by eexists.
Qed.

(** A store without the kernel of decoder cell 0 loads, when it loads, into
    a decoder with no cell at all, whatever other cells the store holds. *)
Theorem initialize_without_cells (self : Checkpoint.MusicVAE F) vars m :
  vars !! "decoder/multi_rnn_cell/cell_0/lstm_cell/kernel" = None ->
  Checkpoint.initialize self vars = Ok m ->
  exists dec, Checkpoint.decoder m = Some dec /\ Checkpoint.lstmCellVars dec = [].
Proof.
  intros H0 Hm.
  assert (Hc : Checkpoint.decLstmLayers vars = []).
  { unfold Checkpoint.decLstmLayers. cbn [Checkpoint.probeCells].
    change (Checkpoint.cellPrefix 0 +:+ "kernel")
      with "decoder/multi_rnn_cell/cell_0/lstm_cell/kernel".
    by rewrite H0. }
  revert Hm. unfold Checkpoint.initialize. rewrite Hc.
  destruct (vars !! "decoder/nade/w_enc");
    repeat (match goal with
            | |- context [mbind _ ?r] => destruct r as [? | ?] eqn:?; cbn
            end); try done; intros [= <-]; cbn.
  all: match goal with
       | E : Checkpoint.newDecoder [] _ _ _ = Ok ?d |- _ =>
           exists d; split; [done |]; revert E; unfold Checkpoint.newDecoder;
           repeat (match goal with
                   | |- context [match ?x with _ => _ end] => destruct x; cbn
                   end); try done; by intros [= <-]
       end.
Qed.
End Bound.

Lemma newNade_accepts_witness :
  Checkpoint.newNade (Some (zerosOfShape [2; 1; 3])) (Some (zerosOfShape [3; 2]))
  = Ok {| Checkpoint.encWeights :=
            {| Checkpoint.shape := [2; 3]; Checkpoint.values := replicate 6 0%Qc |};
          Checkpoint.decWeightsT :=
            {| Checkpoint.shape := [2; 3]; Checkpoint.values := replicate 6 0%Qc |};
          Checkpoint.numDims := Some 2;
          Checkpoint.numHidden := Some 3 |}.
Proof.
  apply (proj1 (newNade_accepts (zerosOfShape [2; 1; 3]) (zerosOfShape [3; 2]))).
  exists 2, 3. repeat split; lia.
Defined.

Lemma initialize_binds_witness :
  exists dec,
    Checkpoint.decoder
      (loadedArgmax "ckpt" tinyStore (zerosOfShape [1]) (zerosOfShape [1; 2]) (zerosOfShape [2]))
    = Some dec
    /\ Checkpoint.zDims dec = Some 1 /\ Checkpoint.outputDims dec = Some 2.
Proof.
  destruct (initialize_binds (Checkpoint.new "ckpt") tinyStore
              (loadedArgmax "ckpt" tinyStore (zerosOfShape [1]) (zerosOfShape [1; 2])
                            (zerosOfShape [2])))
    as (enc & dec & mb & zk & _ & Hd & _).
  - apply initialize_argmax_bound; vm_compute; reflexivity.
  - exists dec. split; [exact Hd |]. injection Hd as <-. split; reflexivity.
Defined.

Lemma initialize_without_cells_witness :
  exists dec,
    Checkpoint.decoder
      (loadedArgmax "ckpt" tinyStoreNoCell (zerosOfShape [1]) (zerosOfShape [1; 2])
                    (zerosOfShape [2]))
    = Some dec
    /\ Checkpoint.lstmCellVars dec = [].
Proof.
  apply (initialize_without_cells (Checkpoint.new "ckpt") tinyStoreNoCell).
  - apply lookup_delete_eq.
  - apply initialize_argmax_bound; vm_compute; reflexivity.
Defined.

(** ** Latent interpolation *)

Section Blend.
Context {F : Type} `{Arith F} `{Storage F}.

Lemma length_linspaceFrom (v : F) (step : Number) n : length (linspaceFrom v step n) = n.
Proof. revert v. induction n as [| n IH]; intros v; simpl; [done | by rewrite IH]. Qed.

Lemma linspace_Ok (a b : Number) n :
  0 < n ->
  exists ramp : Tensor1D F,
    linspace a b n = Ok ramp /\ length ramp = n /\ ramp !! 0 = Some (store a).
Proof.
  intros Hn. destruct n as [| n]; [lia |].
  eexists. split; [reflexivity |].
  split; [apply length_linspaceFrom | reflexivity].
Qed.

Lemma interpolateZs_no_step (z : Tensor2D F) (n : nat) :
  MusicVAE.interpolateZs z n 0 = Throw ZeroSamples.
Proof. reflexivity. Qed.

Lemma row_slice (z : Tensor2D F) (i n : nat) (row : Tensor1D F) :
  z !! i = Some row -> length row <= n -> as1D (slice2 z i 0 1 n) = row.
Proof.
  intros Hi Hn. unfold as1D, slice2.
  rewrite (drop_S z row i Hi). simpl.
  rewrite app_nil_r. by apply take_ge.
Qed.

Lemma lerp_lookup (t : F) (z0 z1 : Tensor1D F) j a b :
  z0 !! j = Some a -> z1 !! j = Some b ->
  lerp t z0 z1 !! j = Some (add (times t (sub b a)) a).
Proof.
  intros Ha Hb. unfold lerp, add1, sub1.
  rewrite lookup_zip_with, list_lookup_fmap, lookup_zip_with, Hb, Ha. reflexivity.
Qed.

Lemma length_lerp (t : F) (z0 z1 : Tensor1D F) :
  length z0 = length z1 -> length (lerp t z0 z1) = length z0.
Proof.
  intros Hl. unfold lerp, add1, sub1.
  rewrite length_zip_with, length_map, length_zip_with. lia.
Qed.

Lemma interpolateZs_two (z0 z1 : Tensor1D F) (numSteps : nat) (ramp : Tensor1D F) :
  length z0 = length z1 ->
  linspace zero one numSteps = Ok ramp ->
  MusicVAE.interpolateZs [z0; z1] 2 numSteps = Ok (map (fun t => lerp t z0 z1) ramp).
Proof.
  intros Hl Hr. unfold MusicVAE.interpolateZs. rewrite Hr. cbn [mbind result_bind].
  simpl Nat.eqb. cbv iota.
  rewrite (row_slice [z0; z1] 0 _ z0), (row_slice [z0; z1] 1 _ z1);
    [| done | simpl; lia | done | simpl; lia].
  unfold outerProduct, addRows. rewrite map_map. reflexivity.
Qed.

Lemma mulBroadcast_outer (z u v : Tensor1D F) :
  mulBroadcast z (as3D_1 (outerProduct u v))
  = map (fun x => map (fun y => scale z (times x y)) v) u.
Proof.
  unfold mulBroadcast, as3D_1, outerProduct. rewrite !map_map.
  apply map_ext. intros x. rewrite !map_map. reflexivity.
Qed.

Lemma zip_with_map_same {A B C D} (h : B -> C -> D) (f : A -> B) (g : A -> C) l :
  zip_with h (map f l) (map g l) = map (fun x => h (f x) (g x)) l.
Proof. induction l as [| x l IH]; simpl; [done | by rewrite IH]. Qed.

Lemma grid_lookup {A B} (g : A -> A -> B) (l : list A) : forall xs i j r c,
  xs !! i = Some r -> l !! j = Some c ->
  concat (map (fun r => map (g r) l) xs) !! (i * length l + j) = Some (g r c).
Proof.
  induction xs as [| x xs IH]; intros i j r c Hi Hj; [done |].
  destruct i as [| i]; simpl in *.
  - injection Hi as ->. rewrite lookup_app_l.
    + by rewrite list_lookup_fmap, Hj.
    + rewrite length_map. by eapply lookup_lt_Some.
  - rewrite lookup_app_r by (rewrite length_map; lia).
    rewrite length_map. replace (length l + i * length l + j - length l)
      with (i * length l + j) by lia.
    by apply IH.
Qed.

Lemma grid_length {A B} (g : A -> A -> B) (l xs : list A) :
  length (concat (map (fun r => map (g r) l) xs)) = length xs * length l.
Proof.
  induction xs as [| x xs IH]; simpl; [done |].
  by rewrite length_app, length_map, IH.
Qed.

Lemma interpolateZs_four (z0 z1 z2 z3 : Tensor1D F) (numSteps : nat) (ramp : Tensor1D F) :
  length z1 = length z0 -> length z2 = length z0 -> length z3 = length z0 ->
  linspace zero one numSteps = Ok ramp ->
  MusicVAE.interpolateZs [z0; z1; z2; z3] 4 numSteps
  = Ok (concat (map (fun r => map (fun c => bilinear r c z0 z1 z2 z3) ramp) ramp)).
Proof.
  intros L1 L2 L3 Hr. unfold MusicVAE.interpolateZs. rewrite Hr. cbn [mbind result_bind].
  simpl Nat.eqb. cbv iota.
  rewrite (row_slice [z0; z1; z2; z3] 0 _ z0), (row_slice [z0; z1; z2; z3] 1 _ z1),
    (row_slice [z0; z1; z2; z3] 2 _ z2), (row_slice [z0; z1; z2; z3] 3 _ z3);
    [| done | simpl; lia | done | simpl; lia | done | simpl; lia | done | simpl; lia].
  rewrite !mulBroadcast_outer. unfold scalarSub1. rewrite !map_map.
  unfold addStrict3, as2D_outer. rewrite !zip_with_map_same.
  f_equal. f_equal. apply map_ext. intros r.
  rewrite !map_map. unfold add2. rewrite !zip_with_map_same. reflexivity.
Qed.

Lemma bilinear_lookup (r c : F) (z0 z1 z2 z3 : Tensor1D F) k a0 a1 a2 a3 :
  z0 !! k = Some a0 -> z1 !! k = Some a1 -> z2 !! k = Some a2 -> z3 !! k = Some a3 ->
  bilinear r c z0 z1 z2 z3 !! k
  = Some (add (add (add (mul a0 (times (sub one r) (sub one c)))
                        (mul a1 (times r (sub one c))))
                   (mul a2 (times (sub one r) c)))
              (mul a3 (times r c))).
Proof.
  intros E0 E1 E2 E3. unfold bilinear, add1, scale.
  rewrite !lookup_zip_with, !list_lookup_fmap, E0, E1, E2, E3. reflexivity.
Qed.

Lemma length_bilinear (r c : F) (z0 z1 z2 z3 : Tensor1D F) :
  length z1 = length z0 -> length z2 = length z0 -> length z3 = length z0 ->
  length (bilinear r c z0 z1 z2 z3) = length z0.
Proof.
  intros L1 L2 L3. unfold bilinear, add1, scale.
  rewrite !length_zip_with, !length_map. lia.
Qed.
End Blend.

Section Exact.
Local Open Scope Qc_scope.

Lemma fromNat_Qc_S k : fromNat (F := Qc) (S k) = fromNat k + 1.
Proof. reflexivity. Qed.

Lemma fromNat_Qc_nonneg k : 0 <= fromNat (F := Qc) k.
Proof.
  induction k as [| k IH]; [apply Qcle_refl |].
  rewrite fromNat_Qc_S.
  apply Qcle_trans with (fromNat k + 0); [by rewrite Qcplus_0_r |].
  apply Qcplus_le_compat; [apply Qcle_refl | done].
Qed.

Lemma fromNat_Qc_nonzero k : (0 < k)%nat -> fromNat (F := Qc) k <> 0.
Proof.
  destruct k as [| k]; [lia |]. intros _ Heq.
  pose proof (fromNat_Qc_nonneg k) as Hk. rewrite fromNat_Qc_S in Heq.
  assert (Hlt : 0 < fromNat k + 1).
  { apply Qclt_le_trans with (0 + 1); [done |].
    apply Qcplus_le_compat; [done | apply Qcle_refl]. }
  rewrite Heq in Hlt. by apply Qclt_not_eq in Hlt.
Qed.

Lemma linspaceFrom_Qc_lookup n : forall (v step : Qc) k,
  (k < n)%nat -> linspaceFrom (F := Qc) v step n !! k = Some (v + fromNat k * step).
Proof.
  induction n as [| n IH]; intros v step k Hk; [lia |].
  destruct k as [| k]; simpl.
  - f_equal. change (zero (F := Qc)) with 0. ring.
  - rewrite IH by lia. f_equal.
    change (add (fromNat k) one) with (fromNat k + 1).
    change (add v step) with (v + step). ring.
Qed.

(** The ramp in exact arithmetic: value [k] is [k / (n - 1)]. *)
Lemma linspace_Qc n (ramp : Tensor1D Qc) :
  linspace (F := Qc) 0 1 n = Ok ramp ->
  forall k, (k < n)%nat -> ramp !! k = Some (fromNat k / fromNat (n - 1)).
Proof.
  destruct n as [| n]; [done |]. intros [= <-] k Hk.
  change (linspaceFrom (F := Qc) 0 ((1 - 0) / fromNat (S n - 1)) (S n) !! k
          = Some (fromNat k / fromNat (S n - 1))).
  rewrite linspaceFrom_Qc_lookup by lia. f_equal.
  unfold Qcdiv. ring.
Qed.

Lemma linspace_Qc_ends n (ramp : Tensor1D Qc) :
  linspace (F := Qc) 0 1 n = Ok ramp -> (2 <= n)%nat ->
  ramp !! 0%nat = Some 0 /\ ramp !! (n - 1)%nat = Some 1.
Proof.
  intros Hr Hn. rewrite !(linspace_Qc n ramp Hr) by lia. split; f_equal.
  - change (fromNat 0) with 0. unfold Qcdiv. ring.
  - apply Qcmult_inv_r, fromNat_Qc_nonzero. lia.
Qed.

Lemma lerp_Qc_0 (z0 z1 : list Qc) : length z0 = length z1 -> lerp 0 z0 z1 = z0.
Proof.
  revert z1. induction z0 as [| a z0 IH]; intros [| b z1] Hl; try done.
  unfold lerp, add1, sub1 in *. simpl. f_equal.
  - change (add (times 0 (sub b a)) a) with (0 + 0 * (b - a) + a). ring.
  - apply IH. simpl in Hl. lia.
Qed.

Lemma lerp_Qc_1 (z0 z1 : list Qc) : length z0 = length z1 -> lerp 1 z0 z1 = z1.
Proof.
  revert z1. induction z0 as [| a z0 IH]; intros [| b z1] Hl; try done.
  unfold lerp, add1, sub1 in *. simpl. f_equal.
  - change (add (times 1 (sub b a)) a) with (0 + 1 * (b - a) + a). ring.
  - apply IH. simpl in Hl. lia.
Qed.

Lemma lerp_Qc_lookup (t : Qc) (z0 z1 : list Qc) j a b :
  z0 !! j = Some a -> z1 !! j = Some b ->
  lerp t z0 z1 !! j = Some (a + t * (b - a)).
Proof.
  intros Ha Hb. rewrite (lerp_lookup t z0 z1 j a b Ha Hb). f_equal.
  change (add (times t (sub b a)) a) with (0 + t * (b - a) + a). ring.
Qed.

Lemma bilinear_Qc_lookup (r c : Qc) (z0 z1 z2 z3 : list Qc) k a0 a1 a2 a3 :
  z0 !! k = Some a0 -> z1 !! k = Some a1 -> z2 !! k = Some a2 -> z3 !! k = Some a3 ->
  bilinear r c z0 z1 z2 z3 !! k
  = Some (a0 * ((1 - r) * (1 - c)) + a1 * (r * (1 - c))
          + a2 * ((1 - r) * c) + a3 * (r * c)).
Proof.
  intros E0 E1 E2 E3. rewrite (bilinear_lookup r c z0 z1 z2 z3 k a0 a1 a2 a3) by done.
  f_equal.
  change (a0 * (0 + (1 - r) * (1 - c)) + a1 * (0 + r * (1 - c))
          + a2 * (0 + (1 - r) * c) + a3 * (0 + r * c)
          = a0 * ((1 - r) * (1 - c)) + a1 * (r * (1 - c))
            + a2 * ((1 - r) * c) + a3 * (r * c)).
  ring.
Qed.
End Exact.

(** *** binary32: the weights 0 and 1 *)

Section Binary32.
Local Open Scope Z_scope.

Lemma SFmul_one_finite (s : bool) (m : positive) (e : Z) :
  bounded f32_prec f32_emax m e = true ->
  SFmul f32_prec f32_emax (S754_finite s m e) (S754_finite false 8388608 (-23))
  = S754_finite s m e.
Proof.
  intros Hb. unfold bounded in Hb. apply andb_prop in Hb as [Hc He].
  unfold canonical_mantissa in Hc. apply Z.eqb_eq in Hc.
  unfold SFmul. rewrite xorb_false_r, Pos.mul_comm.
  change (8388608 * m)%positive
    with (m~0~0~0~0~0~0~0~0~0~0~0~0~0~0~0~0~0~0~0~0~0~0~0)%positive.
  unfold binary_round_aux, shr_fexp.
  assert (Hd : Zdigits2 (Z.pos (m~0~0~0~0~0~0~0~0~0~0~0~0~0~0~0~0~0~0~0~0~0~0~0))
               + (e + -23) = Z.pos (digits2_pos m) + e).
  { cbn [Zdigits2 digits2_pos]. lia. }
  rewrite Hd, Hc.
  replace (e - (e + -23)) with 23 by lia.
  cbn [shr shr_record_of_loc].
  assert (Hit : SpecFloat.iter_pos shr_1 23
                  {| shr_m := Z.pos (m~0~0~0~0~0~0~0~0~0~0~0~0~0~0~0~0~0~0~0~0~0~0~0);
                     shr_r := false; shr_s := false |}
                = {| shr_m := Z.pos m; shr_r := false; shr_s := false |})
    by reflexivity.
  rewrite Hit.
  replace (e + -23 + 23) with e by lia.
  cbn [shr_m loc_of_shr_record round_nearest_even Zdigits2].
  rewrite Hc, Z.sub_diag.
  cbn [shr shr_m]. by rewrite He.
Qed.

Lemma mul_one_float32 (x : float32) : finite32 x -> mul x one = x.
Proof.
  destruct x as [s | s | | s m e]; simpl; try done.
  - intros _. by destruct s.
  - apply SFmul_one_finite.
Qed.

Lemma mul_zero_float32 (x : float32) :
  finite32 x -> exists s, mul x zero = S754_zero s.
Proof. destruct x as [s | s | | s m e]; simpl; try done; eauto. Qed.

Lemma zero_mul_float32 (x : float32) :
  finite32 x -> exists s, mul zero x = S754_zero s.
Proof. destruct x as [s | s | | s m e]; simpl; try done; eauto. Qed.

Lemma add_zero_r_float32 (x : float32) (s : bool) :
  finite32 x -> sameNumber (add (F := float32) x (S754_zero s)) x.
Proof.
  destruct x as [s' | s' | | s' m e]; simpl; try done; intros _.
  - right. destruct s', s; simpl; eauto.
  - by left.
Qed.

Lemma add_zero_l_float32 (x : float32) (s : bool) :
  finite32 x -> sameNumber (add (F := float32) (S754_zero s) x) x.
Proof.
  destruct x as [s' | s' | | s' m e]; simpl; try done; intros _.
  - right. destruct s, s'; simpl; eauto.
  - by left.
Qed.

Lemma sameNumber_finite32 x y : sameNumber x y -> finite32 y -> finite32 x.
Proof. intros [-> | (s & s' & -> & ->)]; done. Qed.

Lemma sameNumber_add_zero x y s :
  sameNumber x y -> finite32 y -> sameNumber (add (F := float32) x (S754_zero s)) y.
Proof.
  intros [-> | (s1 & s2 & -> & ->)] Hy; [by apply add_zero_r_float32 |].
  right. destruct s1, s; simpl; eauto.
Qed.

Lemma sameNumber_zero_add s x :
  finite32 x -> sameNumber (add (F := float32) (S754_zero s) x) x.
Proof. apply add_zero_l_float32. Qed.

Lemma add_zeros_float32 (s s' : bool) :
  exists s'', add (F := float32) (S754_zero s) (S754_zero s') = S754_zero s''.
Proof. destruct s, s'; simpl; eauto. Qed.

(** The entry of a blend of four finite numbers in which one weight is 1
    and the three others are 0. *)
Lemma corner_entry_0 (a0 a1 a2 a3 : float32) :
  finite32 a0 -> finite32 a1 -> finite32 a2 -> finite32 a3 ->
  sameNumber (add (add (add (mul a0 one) (mul a1 zero)) (mul a2 zero)) (mul a3 zero)) a0.
Proof.
  intros H0 H1 H2 H3. rewrite mul_one_float32 by done.
  destruct (mul_zero_float32 a1 H1) as [s1 ->], (mul_zero_float32 a2 H2) as [s2 ->],
    (mul_zero_float32 a3 H3) as [s3 ->].
  repeat apply sameNumber_add_zero; try done. by left.
Qed.

Lemma corner_entry_1 (a0 a1 a2 a3 : float32) :
  finite32 a0 -> finite32 a1 -> finite32 a2 -> finite32 a3 ->
  sameNumber (add (add (add (mul a0 zero) (mul a1 one)) (mul a2 zero)) (mul a3 zero)) a1.
Proof.
  intros H0 H1 H2 H3. rewrite mul_one_float32 by done.
  destruct (mul_zero_float32 a0 H0) as [s0 ->], (mul_zero_float32 a2 H2) as [s2 ->],
    (mul_zero_float32 a3 H3) as [s3 ->].
  repeat apply sameNumber_add_zero; try done. by apply sameNumber_zero_add.
Qed.

Lemma corner_entry_2 (a0 a1 a2 a3 : float32) :
  finite32 a0 -> finite32 a1 -> finite32 a2 -> finite32 a3 ->
  sameNumber (add (add (add (mul a0 zero) (mul a1 zero)) (mul a2 one)) (mul a3 zero)) a2.
Proof.
  intros H0 H1 H2 H3. rewrite mul_one_float32 by done.
  destruct (mul_zero_float32 a0 H0) as [s0 ->], (mul_zero_float32 a1 H1) as [s1 ->],
    (mul_zero_float32 a3 H3) as [s3 ->].
  destruct (add_zeros_float32 s0 s1) as [s ->].
  apply sameNumber_add_zero; try done. by apply sameNumber_zero_add.
Qed.

Lemma corner_entry_3 (a0 a1 a2 a3 : float32) :
  finite32 a0 -> finite32 a1 -> finite32 a2 -> finite32 a3 ->
  sameNumber (add (add (add (mul a0 zero) (mul a1 zero)) (mul a2 zero)) (mul a3 one)) a3.
Proof.
  intros H0 H1 H2 H3. rewrite mul_one_float32 by done.
  destruct (mul_zero_float32 a0 H0) as [s0 ->], (mul_zero_float32 a1 H1) as [s1 ->],
    (mul_zero_float32 a2 H2) as [s2 ->].
  destruct (add_zeros_float32 s0 s1) as [s ->].
  destruct (add_zeros_float32 s s2) as [s' ->].
  by apply sameNumber_zero_add.
Qed.

Lemma bilinear_cons {F} `{Arith F} (r c : F) a0 z0 a1 z1 a2 z2 a3 z3 :
  bilinear r c (a0 :: z0) (a1 :: z1) (a2 :: z2) (a3 :: z3)
  = add (add (add (mul a0 (times (sub one r) (sub one c)))
                  (mul a1 (times r (sub one c))))
             (mul a2 (times (sub one r) c)))
        (mul a3 (times r c))
    :: bilinear r c z0 z1 z2 z3.
Proof. reflexivity. Qed.

Lemma bilinear_corners_float32 (z0 z1 z2 z3 : Tensor1D float32) :
  Forall finite32 z0 -> Forall finite32 z1 -> Forall finite32 z2 -> Forall finite32 z3 ->
  length z1 = length z0 -> length z2 = length z0 -> length z3 = length z0 ->
  Forall2 sameNumber (bilinear zero zero z0 z1 z2 z3) z0
  /\ Forall2 sameNumber (bilinear one zero z0 z1 z2 z3) z1
  /\ Forall2 sameNumber (bilinear zero one z0 z1 z2 z3) z2
  /\ Forall2 sameNumber (bilinear one one z0 z1 z2 z3) z3.
Proof.
  revert z1 z2 z3.
  induction z0 as [| a0 z0 IH]; intros [| a1 z1] [| a2 z2] [| a3 z3];
    intros F0 F1 F2 F3 L1 L2 L3; simpl in L1, L2, L3; try lia.
  - repeat split; constructor.
  - apply Forall_cons in F0 as [Ha0 F0], F1 as [Ha1 F1], F2 as [Ha2 F2], F3 as [Ha3 F3].
    destruct (IH z1 z2 z3) as (I0 & I1 & I2 & I3); try done; try lia.
    rewrite !bilinear_cons.
    repeat split; constructor; try done.
    + by apply corner_entry_0.
    + by apply corner_entry_1.
    + by apply corner_entry_2.
    + by apply corner_entry_3.
Qed.

(** The point of a segment at ramp value 0. *)
Lemma lerp_zero_float32 (z0 z1 : Tensor1D float32) :
  length z0 = length z1 ->
  Forall finite32 z0 -> Forall finite32 (sub1 z1 z0) ->
  Forall2 sameNumber (lerp zero z0 z1) z0.
Proof.
  revert z1. induction z0 as [| a z0 IH]; intros [| b z1] Hl F0 Fd; try done.
  apply Forall_cons in F0 as [Ha F0].
  change (sub1 (b :: z1) (a :: z0)) with (sub b a :: sub1 z1 z0) in Fd.
  apply Forall_cons in Fd as [Hd Fd].
  change (lerp zero (a :: z0) (b :: z1))
    with (add (add zero (mul zero (sub b a))) a :: lerp zero z0 z1).
  constructor; [| apply IH; [simpl in Hl; lia | done | done]].
  destruct (zero_mul_float32 _ Hd) as [s Hs]. rewrite Hs.
  destruct (add_zeros_float32 false s) as [s' Hs'].
  change (@zero float32 _) with (S754_zero false). rewrite Hs'.
  by apply add_zero_l_float32.
Qed.

Lemma interpolateZs_first_point_float32 (z0 z1 : Tensor1D float32) (numSteps : nat) :
  Forall finite32 z0 -> Forall finite32 (sub1 z1 z0) ->
  length z0 = length z1 -> (0 < numSteps)%nat ->
  exists pts p0,
    MusicVAE.interpolateZs [z0; z1] 2 numSteps = Ok pts
    /\ pts !! 0%nat = Some p0 /\ Forall2 sameNumber p0 z0.
Proof.
  intros F0 Fd Hl Hn.
  destruct (linspace_Ok (F := float32) zero one numSteps Hn) as (ramp & Hr & _ & H0).
  rewrite (interpolateZs_two z0 z1 numSteps ramp) by done.
  eexists _, (lerp zero z0 z1). split; [reflexivity |].
  split; [| by apply lerp_zero_float32].
  rewrite list_lookup_fmap, H0. reflexivity.
Qed.
End Binary32.

(** *** Two sequences *)

(** C6 (as amended).  With exactly two reference sequences and at least
    one step, in any arithmetic: the result has [numSteps] points, the ramp
    has [numSteps] values of which the first is the number 0 as the buffer
    stores it, and the point at ramp value [t] is, entry by entry,
    [t * (z1 - z0) + z0] evaluated in the arithmetic of the runtime (the
    product is an entry of an outer product, [times]).  In exact (rational)
    arithmetic and for [numSteps >= 2], the ramp value of point [k] is
    [k / (numSteps - 1)], the first point is [z0] and the last point is
    [z1].  In float32 the first point is [z0] as a number (a zero may
    change sign) when the latents and their difference are finite; nothing
    is said of the last point in float32. *)
Theorem interpolate_two_sequences :
  (forall (F : Type) (A : Arith F) (S : Storage F) (z0 z1 : Tensor1D F) (numSteps : nat),
     length z0 = length z1 -> 0 < numSteps ->
     exists ramp pts,
       linspace zero one numSteps = Ok ramp
       /\ MusicVAE.interpolateZs [z0; z1] 2 numSteps = Ok pts
       /\ length ramp = numSteps /\ length pts = numSteps
       /\ ramp !! 0 = Some (store zero)
       /\ forall k t, ramp !! k = Some t ->
            exists row,
              pts !! k = Some row /\ length row = length z0
              /\ forall j a b, z0 !! j = Some a -> z1 !! j = Some b ->
                   row !! j = Some (add (times t (sub b a)) a))
  /\ (forall (z0 z1 : Tensor1D Qc) (numSteps : nat),
        length z0 = length z1 -> 2 <= numSteps ->
        exists pts,
          MusicVAE.interpolateZs [z0; z1] 2 numSteps = Ok pts
          /\ (forall k, k < numSteps ->
                exists row,
                  pts !! k = Some row
                  /\ forall j a b, z0 !! j = Some a -> z1 !! j = Some b ->
                       row !! j
                       = Some (a + fromNat k / fromNat (numSteps - 1) * (b - a))%Qc)
          /\ pts !! 0 = Some z0 /\ pts !! (numSteps - 1) = Some z1)
  /\ (forall (z0 z1 : Tensor1D float32) (numSteps : nat),
        Forall finite32 z0 -> Forall finite32 (sub1 z1 z0) ->
        length z0 = length z1 -> 0 < numSteps ->
        exists pts p0,
          MusicVAE.interpolateZs [z0; z1] 2 numSteps = Ok pts
          /\ pts !! 0 = Some p0 /\ Forall2 sameNumber p0 z0).
Proof.
  split; [| split].
  - intros F A S z0 z1 numSteps Hl Hn.
    destruct (linspace_Ok (F := F) zero one numSteps Hn) as (ramp & Hr & Hlen & H0).
    exists ramp. eexists. split; [exact Hr |].
    split; [by apply interpolateZs_two |].
    split; [done |]. split; [by rewrite length_map |]. split; [done |].
    intros k t Hk. exists (lerp t z0 z1).
    split; [by rewrite list_lookup_fmap, Hk |].
    split; [by apply length_lerp |].
    intros j a b. apply lerp_lookup.
  - intros z0 z1 numSteps Hl Hn.
    destruct (linspace_Ok (F := Qc) zero one numSteps) as (ramp & Hr & Hlen & _); [lia |].
    pose proof (linspace_Qc numSteps ramp Hr) as Hk.
    destruct (linspace_Qc_ends numSteps ramp Hr Hn) as [R0 R1].
    eexists. split; [by apply interpolateZs_two |].
    split; [| rewrite !list_lookup_fmap, R0, R1; simpl;
              split; f_equal; [by apply lerp_Qc_0 | by apply lerp_Qc_1]].
    intros k Hlt. eexists. rewrite list_lookup_fmap, (Hk k Hlt). simpl.
    split; [reflexivity |]. intros j a b. apply lerp_Qc_lookup.
  - apply interpolateZs_first_point_float32.
Qed.

Lemma interpolate_two_sequences_witness :
  exists pts,
    MusicVAE.interpolateZs (F := Qc) [[Q2Qc 3; Q2Qc (1 # 2)]; [Q2Qc 5; Q2Qc 0]] 2 3 = Ok pts
    /\ (forall k, k < 3 ->
          exists row,
            pts !! k = Some row
            /\ forall j a b,
                 [Q2Qc 3; Q2Qc (1 # 2)] !! j = Some a -> [Q2Qc 5; Q2Qc 0] !! j = Some b ->
                 row !! j = Some (a + fromNat k / fromNat (3 - 1) * (b - a))%Qc)
    /\ pts !! 0 = Some [Q2Qc 3; Q2Qc (1 # 2)]
    /\ pts !! (3 - 1) = Some [Q2Qc 5; Q2Qc 0].
Proof.
  apply (proj1 (proj2 interpolate_two_sequences)); [reflexivity | lia].
Defined.

Example linspace_float32_3 :
  linspace (F := float32) zero one 3
  = Ok [S754_zero false; f32 8388608 (-24); f32 8388608 (-23)].
Proof. vm_compute. reflexivity. Qed.

(** In float32 a ramp need not end at 1: with 11 steps the step is the
    JavaScript number nearest to 0.1 and the last value, ten rounded sums
    later, is [1 + 2^-23]. *)
Example linspace_float32_11 :
  exists ramp,
    linspace (F := float32) zero one 11 = Ok ramp
    /\ ramp !! 10 = Some (f32 8388609 (-23)).
Proof. eexists. split; [vm_compute; reflexivity | reflexivity]. Qed.

(** C6 as stated fails in the float32 arithmetic of the tensors: with
    [z0 = 1.5], [z1 = 0.1f] and [numSteps = 3] the ramp is [0, 0.5, 1], the
    first point is [z0], and the last point is
    [(0.1f - 1.5) + 1.5 = 13421776 * 2^-27], three units in the last place
    above [z1 = 13421773 * 2^-27]. *)
Lemma interpolate_two_last_point_rounds :
  exists pts,
    MusicVAE.interpolateZs (F := float32)
      [[f32 12582912 (-23)]; [f32 13421773 (-27)]] 2 3 = Ok pts
    /\ pts !! 0 = Some [f32 12582912 (-23)]
    /\ pts !! 2 = Some [f32 13421776 (-27)]
    /\ pts !! 2 <> Some [f32 13421773 (-27)].
Proof.
  eexists. split; [vm_compute; reflexivity |].
  split; [reflexivity |]. split; [reflexivity |]. discriminate.
Qed.

(** *** Four sequences *)

Lemma bilinear_corners_Qc (z0 z1 z2 z3 : Tensor1D Qc) :
  length z1 = length z0 -> length z2 = length z0 -> length z3 = length z0 ->
  bilinear 0%Qc 0%Qc z0 z1 z2 z3 = z0
  /\ bilinear 1%Qc 0%Qc z0 z1 z2 z3 = z1
  /\ bilinear 0%Qc 1%Qc z0 z1 z2 z3 = z2
  /\ bilinear 1%Qc 1%Qc z0 z1 z2 z3 = z3.
Proof.
  revert z1 z2 z3.
  induction z0 as [| a0 z0 IH]; intros [| a1 z1] [| a2 z2] [| a3 z3] L1 L2 L3;
    simpl in L1, L2, L3; try lia.
  - done.
  - destruct (IH z1 z2 z3) as (I0 & I1 & I2 & I3); try lia.
    rewrite !bilinear_cons, I0, I1, I2, I3. unfold times.
    change (@add Qc _) with Qcplus. change (@mul Qc _) with Qcmult.
    change (@sub Qc _) with Qcminus. change (@one Qc _) with 1%Qc.
    change (@zero Qc _) with 0%Qc.
    repeat split; f_equal; ring.
Qed.

Lemma linspace_Qc_2 : linspace (F := Qc) 0%Qc 1%Qc 2 = Ok [0%Qc; 1%Qc].
Proof.
  unfold linspace. cbn [linspaceFrom]. do 2 f_equal.
Qed.

Lemma linspace_float32_2 : linspace (F := float32) zero one 2 = Ok [zero; one].
Proof. vm_compute. reflexivity. Qed.

(** C4.  With exactly four reference sequences and at least one step, in
    any arithmetic: the ramp has [numSteps] values, the first being the
    number 0 as the buffer stores it; the result has [numSteps * numSteps]
    points; the point at index [i * numSteps + j] (row-major, row index [i]
    outer, column index [j] inner) is the bilinear blend at [r = ramp[i]],
    [c = ramp[j]], entry by entry
    [z0*((1-r)*(1-c)) + z1*(r*(1-c)) + z2*((1-r)*c) + z3*(r*c)], every weight
    being an entry of an outer product ([times]).  In exact (rational)
    arithmetic and for [numSteps >= 2] the ramp runs from 0 to 1, its value
    [k] being [k / (numSteps - 1)], and the blend is the formula as
    written.  For [numSteps = 2] the four points are the corners: exactly
    [z0, z2, z1, z3] (in grid order) in rational arithmetic, and in float32
    the same numbers for finite latents (a zero may come out with the other
    sign). *)
Theorem interpolate_four_sequences :
  (forall (F : Type) (A : Arith F) (S : Storage F) (z0 z1 z2 z3 : Tensor1D F)
          (numSteps : nat),
     length z1 = length z0 -> length z2 = length z0 -> length z3 = length z0 ->
     0 < numSteps ->
     exists ramp pts,
       linspace zero one numSteps = Ok ramp
       /\ MusicVAE.interpolateZs [z0; z1; z2; z3] 4 numSteps = Ok pts
       /\ length ramp = numSteps
       /\ length pts = numSteps * numSteps
       /\ ramp !! 0 = Some (store zero)
       /\ forall i j r c,
            ramp !! i = Some r -> ramp !! j = Some c ->
            exists row,
              pts !! (i * numSteps + j) = Some row /\ length row = length z0
              /\ forall k a0 a1 a2 a3,
                   z0 !! k = Some a0 -> z1 !! k = Some a1 ->
                   z2 !! k = Some a2 -> z3 !! k = Some a3 ->
                   row !! k
                   = Some (add (add (add (mul a0 (times (sub one r) (sub one c)))
                                         (mul a1 (times r (sub one c))))
                                    (mul a2 (times (sub one r) c)))
                               (mul a3 (times r c))))
  /\ (forall (z0 z1 z2 z3 : Tensor1D Qc) (numSteps : nat),
        length z1 = length z0 -> length z2 = length z0 -> length z3 = length z0 ->
        2 <= numSteps ->
        exists ramp pts,
          linspace (F := Qc) zero one numSteps = Ok ramp
          /\ MusicVAE.interpolateZs [z0; z1; z2; z3] 4 numSteps = Ok pts
          /\ ramp !! 0 = Some 0%Qc /\ ramp !! (numSteps - 1) = Some 1%Qc
          /\ forall i j, i < numSteps -> j < numSteps ->
               exists r c row,
                 r = (fromNat i / fromNat (numSteps - 1))%Qc
                 /\ c = (fromNat j / fromNat (numSteps - 1))%Qc
                 /\ ramp !! i = Some r /\ ramp !! j = Some c
                 /\ pts !! (i * numSteps + j) = Some row
                 /\ forall k a0 a1 a2 a3,
                      z0 !! k = Some a0 -> z1 !! k = Some a1 ->
                      z2 !! k = Some a2 -> z3 !! k = Some a3 ->
                      row !! k
                      = Some (a0 * ((1 - r) * (1 - c)) + a1 * (r * (1 - c))
                              + a2 * ((1 - r) * c) + a3 * (r * c))%Qc)
  /\ (forall z0 z1 z2 z3 : Tensor1D Qc,
        length z1 = length z0 -> length z2 = length z0 -> length z3 = length z0 ->
        MusicVAE.interpolateZs [z0; z1; z2; z3] 4 2 = Ok [z0; z2; z1; z3])
  /\ (forall z0 z1 z2 z3 : Tensor1D float32,
        Forall finite32 z0 -> Forall finite32 z1 ->
        Forall finite32 z2 -> Forall finite32 z3 ->
        length z1 = length z0 -> length z2 = length z0 -> length z3 = length z0 ->
        exists p00 p01 p10 p11,
          MusicVAE.interpolateZs [z0; z1; z2; z3] 4 2 = Ok [p00; p01; p10; p11]
          /\ Forall2 sameNumber p00 z0 /\ Forall2 sameNumber p01 z2
          /\ Forall2 sameNumber p10 z1 /\ Forall2 sameNumber p11 z3).
Proof.
  split; [| split; [| split]].
  - intros F A S z0 z1 z2 z3 numSteps L1 L2 L3 Hn.
    destruct (linspace_Ok (F := F) zero one numSteps Hn) as (ramp & Hr & Hlen & H0).
    exists ramp. eexists. split; [exact Hr |].
    split; [by apply interpolateZs_four |].
    split; [done |]. split; [by rewrite grid_length, Hlen |]. split; [done |].
    intros i j r c Hi Hj. exists (bilinear r c z0 z1 z2 z3).
    split.
    + rewrite <- Hlen at 1.
      by apply (grid_lookup (fun r c => bilinear r c z0 z1 z2 z3)).
    + split; [by apply length_bilinear |].
      intros k a0 a1 a2 a3. apply bilinear_lookup.
  - intros z0 z1 z2 z3 numSteps L1 L2 L3 Hn.
    destruct (linspace_Ok (F := Qc) zero one numSteps) as (ramp & Hr & Hlen & _); [lia |].
    pose proof (linspace_Qc numSteps ramp Hr) as Hk.
    destruct (linspace_Qc_ends numSteps ramp Hr Hn) as [R0 R1].
    exists ramp. eexists. split; [exact Hr |].
    split; [by apply interpolateZs_four |].
    split; [done |]. split; [done |].
    intros i j Hi Hj. do 3 eexists.
    split; [reflexivity |]. split; [reflexivity |].
    split; [by apply Hk |]. split; [by apply Hk |].
    split.
    + replace (i * numSteps + j) with (i * length ramp + j) by (by rewrite Hlen).
      apply (grid_lookup (fun r c => bilinear r c z0 z1 z2 z3)); by apply Hk.
    + intros k a0 a1 a2 a3. apply bilinear_Qc_lookup.
  - intros z0 z1 z2 z3 L1 L2 L3.
    rewrite (interpolateZs_four z0 z1 z2 z3 2 [0%Qc; 1%Qc]) by (done || apply linspace_Qc_2).
    simpl.
    destruct (bilinear_corners_Qc z0 z1 z2 z3) as (-> & -> & -> & ->); done.
  - intros z0 z1 z2 z3 F0 F1 F2 F3 L1 L2 L3.
    rewrite (interpolateZs_four z0 z1 z2 z3 2 [zero; one])
      by (done || apply linspace_float32_2).
    simpl.
    destruct (bilinear_corners_float32 z0 z1 z2 z3) as (I0 & I1 & I2 & I3); try done.
    do 4 eexists. split; [reflexivity |]. done.
Qed.

Lemma interpolate_four_sequences_witness :
  exists p00 p01 p10 p11,
    MusicVAE.interpolateZs (F := float32)
      [[f32 12582912 (-23); S754_zero true]; [f32 13421773 (-27); f32 8388608 (-23)];
       [S754_finite true 8388608 (-24); f32 8388608 (-22)];
       [f32 8388608 (-23); S754_zero false]] 4 2
    = Ok [p00; p01; p10; p11]
    /\ Forall2 sameNumber p00 [f32 12582912 (-23); S754_zero true]
    /\ Forall2 sameNumber p01 [S754_finite true 8388608 (-24); f32 8388608 (-22)]
    /\ Forall2 sameNumber p10 [f32 13421773 (-27); f32 8388608 (-23)]
    /\ Forall2 sameNumber p11 [f32 8388608 (-23); S754_zero false].
Proof.
  apply (proj2 (proj2 (proj2 interpolate_four_sequences)));
    try reflexivity; repeat constructor.
Defined.

(** ** Shapes through the tensor operations *)

Section Rows.
Context {F : Type} `{Arith F} `{Activation F}.
Implicit Types (a b m data : Tensor2D F) (v : Tensor1D F).

Lemma length_zeros r c : length (zeros r c) = r.
Proof. apply length_replicate. Qed.

Lemma length_slice2 {A} (t : list (list A)) r0 c0 nr nc :
  length (slice2 t r0 c0 nr nc) = Nat.min nr (length t - r0).
Proof. unfold slice2. by rewrite length_map, length_take, length_drop. Qed.

Lemma length_concat2d {A} (a b : list (list A)) :
  length (concat2d a b) = Nat.min (length a) (length b).
Proof. apply length_zip_with. Qed.

Lemma length_addRows m v : length (addRows m v) = length m.
Proof. apply length_map. Qed.

Lemma length_matMul a b : length (matMul a b) = length a.
Proof. apply length_map. Qed.

Lemma length_dense (vars : LayerVars F) a : length (dense vars a) = length a.
Proof. unfold dense. by rewrite length_addRows, length_matMul. Qed.

Lemma length_add2 a b : length (add2 a b) = Nat.min (length a) (length b).
Proof. apply length_zip_with. Qed.

Lemma length_mul2 a b : length (mul2 a b) = Nat.min (length a) (length b).
Proof. apply length_zip_with. Qed.

Lemma length_sigmoid2 a : length (sigmoid2 a) = length a.
Proof. apply length_map. Qed.

Lemma length_tanh2 a : length (tanh2 a) = length a.
Proof. apply length_map. Qed.

Lemma length_addScalar2 a (s : F) : length (addScalar2 a s) = length a.
Proof. apply length_map. Qed.

(** The width of a row of [dense]. *)
Lemma dense_row_length (vars : LayerVars F) a :
  Forall (fun row => length row = Nat.min (ncols (kernel vars)) (length (bias vars)))
         (dense vars a).
Proof.
  unfold dense, addRows, matMul, matMulT. apply Forall_forall. intros row Hrow.
  apply list_elem_of_fmap in Hrow as (r1 & -> & Hr1).
  apply list_elem_of_fmap in Hr1 as (r0 & -> & _).
  unfold add1. rewrite length_zip_with, length_map. unfold transpose.
  by rewrite length_map, length_seq.
Qed.

(** The recurrent cell keeps the batch size. *)
Lemma basicLSTMCell_rows (fb : F) k bs data c h n :
  length data = n -> length c = n -> length h = n ->
  length (fst (basicLSTMCell fb k bs data c h)) = n
  /\ length (snd (basicLSTMCell fb k bs data c h)) = n.
Proof.
  intros Hd Hc Hh. unfold basicLSTMCell. cbn [fst snd].
  rewrite !length_mul2, !length_tanh2, !length_add2, !length_mul2, !length_sigmoid2,
    !length_tanh2, !length_addScalar2, !length_slice2, !length_addRows, !length_matMul,
    !length_concat2d.
  lia.
Qed.

Lemma multiRNNCell_rows (cells : list (LayerVars F)) n : forall data cs hs,
  length data = n -> length cs = length cells -> length hs = length cells ->
  Forall (fun c => length c = n) cs -> Forall (fun h => length h = n) hs ->
  let out := multiRNNCell cells data cs hs in
  length (fst out) = length cells /\ length (snd out) = length cells
  /\ Forall (fun c => length c = n) (fst out)
  /\ Forall (fun h => length h = n) (snd out).
Proof.
  induction cells as [| lv cells IH]; intros data [| c cs] [| h hs] Hd Lc Lh Fc Fh;
    simpl in Lc, Lh; try lia; cbn zeta.
  - simpl. repeat split; constructor.
  - apply Forall_cons in Fc as [Hc Fc], Fh as [Hh Fh].
    destruct (basicLSTMCell_rows forgetBias (kernel lv) (bias lv) data c h n Hd Hc Hh)
      as [Lf Ls].
    destruct (IH (snd (basicLSTMCell forgetBias (kernel lv) (bias lv) data c h)) cs hs)
      as (L1 & L2 & F1 & F2); try done; try lia.
    cbn [multiRNNCell fst snd length]. repeat split; try (constructor; done); lia.
Qed.

Lemma lstm_fold_rows (vars : LayerVars F) n (inputs : list (Tensor2D F)) :
  forall st : Tensor2D F * Tensor2D F,
  Forall (fun x => length x = n) inputs ->
  length (fst st) = n -> length (snd st) = n ->
  let final := fold_left
    (fun st x => basicLSTMCell forgetBias (kernel vars) (bias vars) x (fst st) (snd st))
    inputs st in
  length (fst final) = n /\ length (snd final) = n.
Proof.
  induction inputs as [| x inputs IH]; intros st Hin Hc Hh; cbn [fold_left]; [done |].
  apply Forall_cons in Hin as [Hx Hin].
  apply IH; [done | |];
    by apply (basicLSTMCell_rows forgetBias (kernel vars) (bias vars) x (fst st) (snd st) n).
Qed.

Lemma lstmPass_rows (vars : LayerVars F) n (inputs : list (Tensor2D F)) :
  Forall (fun x => length x = n) inputs ->
  length (fst (lstmPass n vars inputs)) = n /\ length (snd (lstmPass n vars inputs)) = n.
Proof.
  intros Hin. apply lstm_fold_rows; [done | |]; apply length_zeros.
Qed.
End Rows.

(** ** Stacking *)

Section Stack.
Context {A : Type}.
Implicit Types (ts : list (list A)).

(** Stacking along axis 1 lists, for every position [b], the entries at [b]
    of the stacked tensors. *)
Lemma stack_rows (n : nat) ts :
  Forall (fun t => length t = n) ts ->
  length (foldr (zip_with cons) (replicate n []) ts) = n
  /\ Forall (fun r => length r = length ts) (foldr (zip_with cons) (replicate n []) ts).
Proof.
  induction ts as [| t ts IH]; intros Hall; simpl.
  - split; [apply length_replicate |].
    apply Forall_forall. intros r Hr. by apply elem_of_replicate in Hr as [-> _].
  - apply Forall_cons in Hall as [Ht Hall]. destruct (IH Hall) as [IH1 IH2].
    split; [rewrite length_zip_with; lia |].
    apply Forall_forall. intros r Hr.
    apply list_elem_of_lookup in Hr as [b Hb].
    apply lookup_zip_with_Some in Hb as (x & r' & -> & _ & Hr').
    simpl. f_equal. rewrite Forall_forall in IH2. apply IH2.
    by eapply list_elem_of_lookup_2.
Qed.

Lemma stack_lookup (n : nat) ts (b i : nat) (t : list A) (x : A) :
  Forall (fun t => length t = n) ts ->
  ts !! i = Some t -> t !! b = Some x ->
  exists r, foldr (zip_with cons) (replicate n []) ts !! b = Some r /\ r !! i = Some x.
Proof.
  revert i. induction ts as [| t0 ts IH]; intros i Hall Hi Hb; [done |].
  apply Forall_cons in Hall as [Ht0 Hall]. simpl.
  assert (Hbn : b < n).
  { destruct i; simpl in Hi.
    - injection Hi as ->. apply lookup_lt_Some in Hb. lia.
    - rewrite Forall_forall in Hall.
      rewrite <- (Hall t) by (by eapply list_elem_of_lookup_2).
      by eapply lookup_lt_Some. }
  destruct (lookup_lt_is_Some_2 t0 b) as [x0 Hx0]; [lia |].
  destruct (lookup_lt_is_Some_2 (foldr (zip_with cons) (replicate n []) ts) b)
    as [r Hr]; [destruct (stack_rows n ts Hall) as [-> _]; lia |].
  exists (x0 :: r). split.
  - rewrite lookup_zip_with, Hx0. simpl. by rewrite Hr.
  - destruct i as [| i]; simpl in Hi |- *.
    + injection Hi as ->. congruence.
    + destruct (IH i Hall Hi Hb) as (r' & Hr' & Hx). congruence.
Qed.

Lemma stack_Forall (P : A -> Prop) (n : nat) ts :
  Forall (fun t => length t = n) ts -> Forall (Forall P) ts ->
  Forall (Forall P) (foldr (zip_with cons) (replicate n []) ts).
Proof.
  induction ts as [| t ts IH]; intros Hall HP; simpl.
  - apply Forall_forall. intros r Hr. by apply elem_of_replicate in Hr as [-> _].
  - apply Forall_cons in Hall as [Ht Hall]. apply Forall_cons in HP as [Pt HP].
    specialize (IH Hall HP).
    apply Forall_forall. intros r Hr.
    apply list_elem_of_lookup in Hr as [b Hb].
    apply lookup_zip_with_Some in Hb as (x & r' & -> & Hx & Hr').
    constructor.
    + rewrite Forall_forall in Pt. apply Pt. by eapply list_elem_of_lookup_2.
    + rewrite Forall_forall in IH. apply IH. by eapply list_elem_of_lookup_2.
Qed.

Lemma stack1_Ok (n : nat) ts :
  2 <= length ts -> Forall (fun t => length t = n) ts ->
  stack1 ts = Ok (foldr (zip_with cons) (replicate n []) ts).
Proof.
  destruct ts as [| t [| t' ts]]; simpl; try lia. intros _ Hall.
  apply Forall_cons in Hall as [<- _]. reflexivity.
Qed.

Lemma stack1_few ts : length ts < 2 -> stack1 ts = Throw TooFewTensors.
Proof. destruct ts as [| t [| t' ts]]; simpl; try lia; reflexivity. Qed.
End Stack.

(** ** The encoder *)

Lemma fold_left_fmap {A B C} (f : A -> B -> A) (g : C -> B) (l : list C) (a : A) :
  fold_left f (map g l) a = fold_left (fun a x => f a (g x)) l a.
Proof. revert a. induction l as [| x l IH]; intros a; simpl; [done | apply IH]. Qed.

Lemma rev_seq_indices (n : nat) :
  map (fun i => n - 1 - i) (seq 0 n) = rev (seq 0 n).
Proof.
  induction n as [| n IH]; [done |].
  rewrite seq_S at 2. rewrite rev_app_distr. simpl rev. cbn [app].
  cbn [seq map]. f_equal; [lia |].
  rewrite <- IH, <- seq_shift, map_map. apply map_ext_in.
  intros i Hi. apply in_seq in Hi. lia.
Qed.

Lemma fold_left_ext_in {A B} (f g : A -> B -> A) (l : list B) (a : A) :
  (forall a x, In x l -> f a x = g a x) -> fold_left f l a = fold_left g l a.
Proof.
  revert a. induction l as [| x l IH]; intros a Hfg; simpl; [done |].
  rewrite Hfg by (by left). apply IH. intros a' y Hy. apply Hfg. by right.
Qed.

Section EncoderFacts.
Context {F : Type} `{Arith F} `{Activation F}.

(** On a well-shaped batch, the slice the code cuts out for a time step is
    the input of that step. *)
Lemma timeSlice_timeStep (sequence : Tensor3D F) (B T D t : nat) :
  hasShape3 B T D sequence -> t < ncols sequence ->
  Encoder.timeSlice sequence (length sequence) (shape2 sequence) t
  = timeStep sequence t.
Proof.
  intros [HB Hall] Ht.
  assert (HT : ncols sequence = T /\ shape2 sequence = D).
  { destruct sequence as [| m0 ms]; [simpl in Ht; lia |].
    apply Forall_cons in Hall as [[Hm0 Hrows] _]. simpl in Ht |- *.
    split; [done |]. destruct m0 as [| r0 m0]; [simpl in Ht; lia |].
    by apply Forall_cons in Hrows as [Hr0 _]. }
  destruct HT as [HT HD]. rewrite HT in Ht. rewrite HD.
  unfold Encoder.timeSlice, as2D, slice3, timeStep.
  rewrite drop_0, firstn_all, map_map.
  apply map_ext_in. intros m Hm.
  rewrite Forall_forall in Hall. apply list_elem_of_In, Hall in Hm as [Hlen Hrows].
  destruct (lookup_lt_is_Some_2 m t) as [row Hrow]; [lia |].
  rewrite (nth_lookup_Some _ _ _ _ Hrow).
  unfold slice2. rewrite (drop_S m row t Hrow). simpl.
  rewrite app_nil_r. apply take_ge.
  rewrite Forall_forall in Hrows.
  rewrite (Hrows row); [done |]. by eapply list_elem_of_lookup_2.
Qed.

Lemma runLstm_lstmPass (sequence : Tensor3D F) (vars : LayerVars F) (reverse : bool)
    (B T D : nat) :
  hasShape3 B T D sequence ->
  Encoder.runLstm sequence vars reverse
  = lstmPass (length sequence) vars
      (let steps := map (timeStep sequence) (seq 0 (ncols sequence)) in
       if reverse then rev steps else steps).
Proof.
  intros Hs. unfold Encoder.runLstm, lstmPass. cbn zeta.
  destruct reverse.
  - rewrite <- map_rev, <- rev_seq_indices, map_map, fold_left_fmap.
    apply fold_left_ext_in. intros st i Hi. apply in_seq in Hi.
    by rewrite (timeSlice_timeStep sequence B T D _ Hs) by lia.
  - rewrite fold_left_fmap.
    apply fold_left_ext_in. intros st i Hi. apply in_seq in Hi.
    by rewrite (timeSlice_timeStep sequence B T D _ Hs) by lia.
Qed.

Lemma timeStep_rows (sequence : Tensor3D F) :
  Forall (fun x : Tensor2D F => length x = length sequence)
         (map (timeStep sequence) (seq 0 (ncols sequence))).
Proof.
  apply Forall_forall. intros x Hx. apply list_elem_of_fmap in Hx as (t & -> & _).
  unfold timeStep. apply length_map.
Qed.

(** C7.  On a batch of shape [batch, T, D], [Encoder.encode] is the latent
    mean as the specification words it: the cell run forward over the time
    steps [0 .. T-1] with the forward weights and backward over the steps
    [T-1 .. 0] with the backward weights, each pass from zero cell and
    hidden states of width [bias.length / 4]; the final hidden states of
    the two passes side by side; then the [muProjection] affine transform.
    The result has [batch] rows, of width [Z = muVars.bias.length] when the
    kernel of the projection has that many columns. *)
Theorem encode_latentMean (self : Encoder.t F) (sequence : Tensor3D F) (B T D : nat) :
  hasShape3 B T D sequence ->
  Encoder.encode self sequence = latentMean self sequence
  /\ length (Encoder.encode self sequence) = B
  /\ (ncols (kernel (Encoder.muVars self)) = length (bias (Encoder.muVars self)) ->
      hasShape2 B (length (bias (Encoder.muVars self))) (Encoder.encode self sequence)).
Proof.
  intros Hs.
  assert (Heq : Encoder.encode self sequence = latentMean self sequence).
  { unfold Encoder.encode, latentMean. cbn zeta.
    by rewrite !(runLstm_lstmPass sequence _ _ B T D Hs). }
  assert (Hrows : length (latentMean self sequence) = B).
  { unfold latentMean. cbn zeta. rewrite length_dense, length_concat2d.
    destruct (lstmPass_rows (Encoder.lstmFwVars self) (length sequence)
                (map (timeStep sequence) (seq 0 (ncols sequence)))) as [_ ->];
      [apply timeStep_rows |].
    destruct (lstmPass_rows (Encoder.lstmBwVars self) (length sequence)
                (rev (map (timeStep sequence) (seq 0 (ncols sequence))))) as [_ ->];
      [apply Forall_rev, timeStep_rows |].
    destruct Hs as [-> _]. lia. }
  rewrite Heq. split; [done |]. split; [done |].
  intros Hk. split; [done |].
  unfold latentMean. cbn zeta.
  eapply Forall_impl; [apply dense_row_length |].
  intros row Hrow. simpl in Hrow. lia.
Qed.
End EncoderFacts.

(** ** The NADE head *)

Section NadeFacts.
Context {F : Type} `{Arith F} `{Activation F}.

Lemma slice2_single_row {A} (t : list (list A)) i n row :
  t !! i = Some row -> length row <= n -> slice2 t i 0 1 n = [row].
Proof.
  intros Hi Hn. unfold slice2. rewrite (drop_S t row i Hi). simpl.
  f_equal. by apply take_ge.
Qed.

Lemma slice2_column (t : Tensor2D F) i n :
  length t <= n -> Forall (fun row => i < length row) t ->
  slice2 t 0 i n 1 = map (fun row => [nth i row zero]) t.
Proof.
  intros Hn Hall. unfold slice2. rewrite drop_0, take_ge by done.
  apply map_ext_in. intros row Hrow.
  rewrite Forall_forall in Hall. apply list_elem_of_In, Hall in Hrow.
  destruct (lookup_lt_is_Some_2 row i Hrow) as [x Hx].
  rewrite (nth_lookup_Some _ _ _ _ Hx), (drop_S row x i Hx). reflexivity.
Qed.

Lemma samplesI_zip (i : nat) (dr : Tensor1D F) : forall decBias h : Tensor2D F,
  as1D (greaterEqualF
          (sigmoid2 (add2 (map (fun row => [nth i row zero]) decBias)
                          (matMulT h [dr]))) half)
  = zip_with (fun db hb => if geb (sigmoid (add (nth i db zero) (dot hb dr))) half
                           then one else zero) decBias h.
Proof.
  induction decBias as [| db decBias IH]; intros [| hb h]; try done.
  specialize (IH h). unfold as1D, greaterEqualF, sigmoid2, add2, matMulT in *.
  simpl. f_equal. exact IH.
Qed.

Lemma sampleStep_spec (self : Nade.t F) (decBias : Tensor2D F) (B i : nat)
    (a : Tensor2D F) (samples : list (Tensor1D F)) :
  hasShape2 (Nade.numDims self) (Nade.numHidden self) (Nade.encWeights self) ->
  hasShape2 (Nade.numDims self) (Nade.numHidden self) (Nade.decWeightsT self) ->
  hasShape2 B (Nade.numDims self) decBias ->
  i < Nade.numDims self ->
  Nade.sampleStep self B decBias (a, samples) i
  = (if decide (S i = Nade.numDims self) then a
     else add2 a (outerProduct (sampleDim self i a decBias)
                               (nth i (Nade.encWeights self) [])),
     samples ++ [sampleDim self i a decBias]).
Proof.
  intros [HeL HeR] [HdL HdR] [HbL HbR] Hi.
  destruct (lookup_lt_is_Some_2 (Nade.encWeights self) i) as [er Her]; [lia |].
  destruct (lookup_lt_is_Some_2 (Nade.decWeightsT self) i) as [dr Hdr]; [lia |].
  assert (Hler : length er = Nade.numHidden self).
  { rewrite Forall_forall in HeR. apply HeR. by eapply list_elem_of_lookup_2. }
  assert (Hldr : length dr = Nade.numHidden self).
  { rewrite Forall_forall in HdR. apply HdR. by eapply list_elem_of_lookup_2. }
  unfold Nade.sampleStep. cbn [fst snd].
  rewrite (row_slice _ i _ er Her) by lia.
  rewrite (slice2_single_row _ i _ dr Hdr) by lia.
  rewrite (slice2_column decBias i B) by
    first [lia | eapply Forall_impl; [exact HbR | simpl; intros; lia]].
  rewrite samplesI_zip.
  unfold sampleDim, conditionalLogit. cbn zeta.
  rewrite (nth_lookup_Some _ _ _ _ Her), (nth_lookup_Some _ _ _ _ Hdr).
  destruct (Nat.ltb_spec i (Nade.numDims self - 1)); case_decide; try lia; reflexivity.
Qed.

Lemma sample_loop_spec (self : Nade.t F) (decBias : Tensor2D F) (B : nat) :
  hasShape2 (Nade.numDims self) (Nade.numHidden self) (Nade.encWeights self) ->
  hasShape2 (Nade.numDims self) (Nade.numHidden self) (Nade.decWeightsT self) ->
  hasShape2 B (Nade.numDims self) decBias ->
  forall n i a samples, i + n = Nade.numDims self ->
    snd (fold_left (Nade.sampleStep self B decBias) (seq i n) (a, samples))
    = samples ++ nadeDims self decBias a i n.
Proof.
  intros He Hd Hb. induction n as [| n IH]; intros i a samples Hin.
  - simpl. by rewrite app_nil_r.
  - cbn [seq fold_left nadeDims].
    rewrite sampleStep_spec by (try done; lia).
    rewrite IH by lia. by rewrite <- app_assoc.
Qed.

Lemma sampleDim_binary (self : Nade.t F) i (a decBias : Tensor2D F) :
  Forall binary (sampleDim self i a decBias).
Proof.
  unfold sampleDim. apply Forall_forall. intros x Hx.
  apply list_elem_of_lookup in Hx as [b Hb].
  apply lookup_zip_with_Some in Hb as (db & hb & -> & _ & _).
  destruct (geb _ _); [by right | by left].
Qed.

Lemma length_sampleDim (self : Nade.t F) i (a decBias : Tensor2D F) :
  length (sampleDim self i a decBias) = Nat.min (length decBias) (length a).
Proof. unfold sampleDim. by rewrite length_zip_with, length_sigmoid2. Qed.

Lemma nadeDims_shape (self : Nade.t F) (decBias : Tensor2D F) (B : nat) :
  length decBias = B ->
  forall n i a, length a = B ->
    length (nadeDims self decBias a i n) = n
    /\ Forall (fun s => length s = B) (nadeDims self decBias a i n)
    /\ Forall (Forall binary) (nadeDims self decBias a i n).
Proof.
  intros Hb. induction n as [| n IH]; intros i a Ha; cbn [nadeDims].
  - repeat split; constructor.
  - assert (Hs : length (sampleDim self i a decBias) = B)
      by (rewrite length_sampleDim; lia).
    destruct (IH (S i)
      (if decide (S i = Nade.numDims self) then a
       else add2 a (outerProduct (sampleDim self i a decBias)
                                 (nth i (Nade.encWeights self) []))))
      as (L & FL & FB).
    { case_decide; [done |]. unfold outerProduct.
      rewrite length_add2, length_map. lia. }
    cbn [length]. repeat split; [lia | |]; constructor; try done.
    apply sampleDim_binary.
Qed.

Lemma Nade_sample_stacked (self : Nade.t F) (encBias decBias : Tensor2D F)
    (B : nat) :
  hasShape2 (Nade.numDims self) (Nade.numHidden self) (Nade.encWeights self) ->
  hasShape2 (Nade.numDims self) (Nade.numHidden self) (Nade.decWeightsT self) ->
  length encBias = B ->
  hasShape2 B (Nade.numDims self) decBias ->
  let dims := nadeDims self decBias encBias 0 (Nade.numDims self) in
  Nade.sample self encBias decBias = stack1 dims
  /\ length dims = Nade.numDims self
  /\ (2 <= Nade.numDims self ->
      exists R,
        Nade.sample self encBias decBias = Ok R
        /\ hasShape2 B (Nade.numDims self) R
        /\ Forall (Forall binary) R
        /\ forall i b s x, dims !! i = Some s -> s !! b = Some x ->
             exists row, R !! b = Some row /\ row !! i = Some x)
  /\ (Nade.numDims self < 2 ->
      Nade.sample self encBias decBias = Throw TooFewTensors).
Proof.
  intros He Hd Henc Hb dims.
  assert (Heq : Nade.sample self encBias decBias = stack1 dims).
  { unfold Nade.sample. cbn zeta. rewrite Henc.
    by rewrite (sample_loop_spec self decBias B He Hd Hb). }
  destruct (nadeDims_shape self decBias B (proj1 Hb) (Nade.numDims self) 0 encBias Henc)
    as (L & FL & FB). fold dims in L, FL, FB.
  split; [done |]. split; [done |].
  split; [| intros Hfew; rewrite Heq; apply stack1_few; lia].
  intros Hpos. rewrite Heq.
  exists (foldr (zip_with cons) (replicate B []) dims).
  split; [apply stack1_Ok; [lia | done] |].
  destruct (stack_rows B dims FL) as [R1 R2].
  split; [split; [done | by rewrite <- L] |].
  split; [by apply stack_Forall |].
  intros i b s x Hi Hx. by apply (stack_lookup B dims b i s x).
Qed.

End NadeFacts.

(** ** The decoder *)

Section DecoderFacts.
Context {F : Type} `{Arith F} `{Activation F}.

Lemma argMaxFrom_bound (row : Tensor1D F) : forall best bi j,
  bi < j -> argMaxFrom best bi j row < j + length row.
Proof.
  induction row as [| x row IH]; intros best bi j Hb; simpl; [lia |].
  destruct (gtb x best).
  - specialize (IH x j (S j)). lia.
  - specialize (IH best bi (S j)). lia.
Qed.

Lemma argMaxRow_bound (row : Tensor1D F) : row <> [] -> argMaxRow row < length row.
Proof.
  destruct row as [| x row]; [done |]. intros _. simpl.
  pose proof (argMaxFrom_bound row x 0 1). lia.
Qed.

Lemma argMaxRow_below (row : Tensor1D F) n :
  0 < n -> length row <= n -> argMaxRow row < n.
Proof.
  intros Hn Hl. destruct row as [| x row]; [simpl; lia |].
  pose proof (argMaxRow_bound (x :: row) ltac:(done)). lia.
Qed.

Lemma initCells_rows (cells : list (LayerVars F)) (init : Tensor2D F) B : forall off,
  length init = B ->
  let ch := Decoder.initCells cells init B off in
  length (fst ch) = length cells /\ length (snd ch) = length cells
  /\ Forall (fun c : Tensor2D F => length c = B) (fst ch)
  /\ Forall (fun h : Tensor2D F => length h = B) (snd ch).
Proof.
  induction cells as [| lv cells IH]; intros off Hi; cbn zeta; cbn [Decoder.initCells fst snd].
  - repeat split; constructor.
  - destruct (IH (off + length (bias lv) / 4 + length (bias lv) / 4) Hi)
      as (L1 & L2 & F1 & F2).
    cbn [length]. repeat split; try lia; constructor; try done;
      rewrite length_slice2; lia.
Qed.

Lemma rowOk_length (self : Decoder.t F) row :
  rowOk self row -> length row = stepWidth self.
Proof.
  unfold rowOk, stepWidth. destruct (Decoder.nade self).
  - by intros [? _].
  - by intros (k & -> & _).
Qed.

Lemma decodeStep_inv (self : Decoder.t F) (z : Tensor2D F) (k : nat)
    (st : Decoder.LoopState) :
  wfDecoder self -> loopInv self (length z) k st ->
  exists st', Decoder.decodeStep self (length z) z st = Ok st'
              /\ loopInv self (length z) (S k) st'.
Proof.
  intros [Hcells Hhead] (Lc & Lh & Fc & Fh & Ln & Ls & Fs).
  unfold Decoder.decodeStep.
  destruct (multiRNNCell_rows (Decoder.lstmCellVars self) (length z)
              (concat2d (Decoder.nextInput st) z) (Decoder.c st) (Decoder.h st))
    as (L1 & L2 & F1 & F2); try done.
  { rewrite length_concat2d. lia. }
  cbn zeta in L1, L2, F1, F2.
  set (out := multiRNNCell (Decoder.lstmCellVars self)
                (concat2d (Decoder.nextInput st) z) (Decoder.c st) (Decoder.h st)) in *.
  destruct (last (snd out)) as [hLast |] eqn:Hlast.
  2: { apply last_None in Hlast. rewrite Hlast in L2. simpl in L2.
       destruct (Decoder.lstmCellVars self); [done | simpl in L2; lia]. }
  assert (HhL : length hLast = length z).
  { rewrite Forall_forall in F2. apply F2. by apply last_Some_elem_of. }
  pose proof (dense_row_length (Decoder.outputProjectVars self) hLast) as Hw.
  pose proof (length_dense (Decoder.outputProjectVars self) hLast) as Hrows.
  set (logits := dense (Decoder.outputProjectVars self) hLast) in *.
  revert Fs. unfold loopInv, rowOk.
  destruct (Decoder.nade self) as [n |] eqn:Hn; intros Fs.
  - destruct Hhead as ([He Hd] & Hpos & HK & Hb).
    destruct (Nade_sample_stacked n
                (slice2 logits 0 0 (length z) (Nade.numHidden n))
                (slice2 logits 0 (Nade.numHidden n) (length z) (Nade.numDims n))
                (length z)) as (_ & _ & HR & _); try done.
    { rewrite length_slice2. lia. }
    { split; [rewrite length_slice2; lia |].
      unfold slice2. rewrite drop_0. apply Forall_forall. intros row Hrow.
      apply list_elem_of_fmap in Hrow as (r & -> & Hr).
      apply elem_of_take in Hr as (i & Hr & _).
      rewrite Forall_forall in Hw.
      rewrite length_take, length_drop, (Hw r) by (by eapply list_elem_of_lookup_2).
      lia. }
    destruct (HR Hpos) as (R & -> & [HR1 HR2] & HRb & _). cbn.
    eexists. split; [reflexivity |]. cbn.
    repeat split; try done.
    + rewrite length_app. simpl. lia.
    + apply Forall_app. split; [done |]. constructor; [| constructor].
      split; [by rewrite length_map |].
      apply Forall_forall. intros row Hrow.
      apply list_elem_of_fmap in Hrow as (r & -> & Hr).
      rewrite Forall_forall in HR2, HRb.
      split; [rewrite length_map; by apply HR2 |].
      apply Forall_forall. intros e He'.
      apply list_elem_of_fmap in He' as (x & -> & Hx).
      exists x. split; [done |].
      specialize (HRb r Hr). rewrite Forall_forall in HRb. by apply HRb.
  - destruct Hhead as [Hod Hpos]. cbn.
    eexists. split; [reflexivity |]. cbn.
    repeat split; try done.
    + unfold oneHot, argMax. by rewrite !length_map, Hrows.
    + rewrite length_app. simpl. lia.
    + apply Forall_app. split; [done |]. constructor; [| constructor].
      split; [unfold argMax; by rewrite !length_map, Hrows |].
      apply Forall_forall. intros row Hrow.
      apply list_elem_of_fmap in Hrow as (l & -> & Hl).
      unfold argMax in Hl. apply list_elem_of_fmap in Hl as (r & -> & Hr).
      exists (argMaxRow r). split; [done |].
      apply argMaxRow_below; [done |].
      rewrite Forall_forall in Hw. rewrite (Hw r Hr), Hod. lia.
Qed.

Lemma decodeLoop_inv (self : Decoder.t F) (z : Tensor2D F) (n : nat) :
  wfDecoder self ->
  forall k st, loopInv self (length z) k st ->
    exists st', Decoder.decodeLoop self (length z) z n st = Ok st'
                /\ loopInv self (length z) (k + n) st'.
Proof.
  intros Hwf. induction n as [| n IH]; intros k st Hinv; cbn [Decoder.decodeLoop].
  - exists st. by rewrite Nat.add_0_r.
  - destruct (decodeStep_inv self z k st Hwf Hinv) as (st1 & -> & Hinv1). cbn.
    destruct (IH (S k) st1 Hinv1) as (st' & -> & Hinv').
    exists st'. split; [done |]. by replace (k + S n) with (S k + n) by lia.
Qed.

Lemma decode_shape (self : Decoder.t F) (z : Tensor2D F) (L : nat) :
  wfDecoder self -> 2 <= L ->
  exists out,
    Decoder.decode self z L = Ok out
    /\ hasShape3 (length z) L (stepWidth self) out
    /\ Forall (Forall (rowOk self)) out.
Proof.
  intros Hwf HL. unfold Decoder.decode. cbn zeta.
  set (init := tanh2 (dense (Decoder.zToInitStateVars self) z)).
  destruct (initCells_rows (Decoder.lstmCellVars self) init (length z) 0)
    as (L1 & L2 & F1 & F2).
  { unfold init. by rewrite length_tanh2, length_dense. }
  cbn zeta in L1, L2, F1, F2.
  destruct (decodeLoop_inv self z L Hwf 0
    {| Decoder.c := fst (Decoder.initCells (Decoder.lstmCellVars self) init (length z) 0);
       Decoder.h := snd (Decoder.initCells (Decoder.lstmCellVars self) init (length z) 0);
       Decoder.nextInput := zeros (length z) (Decoder.outputDims self);
       Decoder.samples := [] |})
    as (st & -> & (_ & _ & _ & _ & _ & Ls & Fs)).
  { unfold loopInv. cbn. repeat split; try done. apply length_zeros. }
  cbn.
  assert (Hlen : Forall (fun s : list (list (Entry F)) => length s = length z)
                        (Decoder.samples st)).
  { eapply Forall_impl; [exact Fs |]. by intros s [? _]. }
  assert (Hrow : Forall (Forall (rowOk self)) (Decoder.samples st)).
  { eapply Forall_impl; [exact Fs |]. by intros s [_ ?]. }
  rewrite (stack1_Ok (length z)); [| simpl in Ls; lia | done].
  eexists. split; [reflexivity |].
  destruct (stack_rows (length z) (Decoder.samples st) Hlen) as [R1 R2].
  pose proof (stack_Forall (rowOk self) (length z) (Decoder.samples st) Hlen Hrow) as R3.
  split; [| done]. split; [done |].
  apply Forall_forall. intros m Hm.
  rewrite Forall_forall in R2, R3. split; [rewrite (R2 m Hm); lia |].
  eapply Forall_impl; [apply (R3 m Hm) |]. apply rowOk_length.
Qed.

Lemma decode_zero (self : Decoder.t F) (z : Tensor2D F) :
  Decoder.decode self z 0 = Throw TooFewTensors.
Proof. reflexivity. Qed.

(** Fewer than two steps: the steps are taken, and [dl.stack] refuses
    what they recorded. *)
Lemma decode_short (self : Decoder.t F) (z : Tensor2D F) (L : nat) :
  wfDecoder self -> L < 2 -> Decoder.decode self z L = Throw TooFewTensors.
Proof.
  intros Hwf HL. unfold Decoder.decode. cbn zeta.
  set (init := tanh2 (dense (Decoder.zToInitStateVars self) z)).
  destruct (initCells_rows (Decoder.lstmCellVars self) init (length z) 0)
    as (L1 & L2 & F1 & F2).
  { unfold init. by rewrite length_tanh2, length_dense. }
  cbn zeta in L1, L2, F1, F2.
  destruct (decodeLoop_inv self z L Hwf 0
    {| Decoder.c := fst (Decoder.initCells (Decoder.lstmCellVars self) init (length z) 0);
       Decoder.h := snd (Decoder.initCells (Decoder.lstmCellVars self) init (length z) 0);
       Decoder.nextInput := zeros (length z) (Decoder.outputDims self);
       Decoder.samples := [] |})
    as (st & -> & (_ & _ & _ & _ & _ & Ls & _)).
  { unfold loopInv. cbn. repeat split; try done. apply length_zeros. }
  cbn. apply stack1_few. simpl in Ls. lia.
Qed.
End DecoderFacts.

(** ** The decoded steps, and the claims on small models *)

Section DecoderSteps.
Context {F : Type} `{Arith F} `{Activation F}.

End DecoderSteps.

Section SmallModels.
Local Existing Instance Qc_softsign.


Example decode_nade_three_steps :
  Decoder.decode tinyDecoderNade [[q 1 1]; [q (-3) 1]] 3
  = Ok [[[FloatVal one; FloatVal zero]; [FloatVal one; FloatVal zero];
         [FloatVal one; FloatVal zero]];
        [[FloatVal one; FloatVal zero]; [FloatVal one; FloatVal zero];
         [FloatVal one; FloatVal zero]]].
Proof. vm_compute. reflexivity. Qed.

Example decode_no_step :
  Decoder.decode tinyDecoderArgmax [[q 1 1]; [q (-3) 1]] 0 = Throw TooFewTensors.
Proof. reflexivity. Qed.

Example sample_tinyNade :
  Nade.sample tinyNade [[q 1 1]; [q (-3) 1]; [q 0 1]]
    [[q 1 1; q 1 1]; [q (-3) 1; q 2 1]; [q (-1) 1; q (-1) 1]]
  = Ok [[one; one]; [zero; one]; [one; zero]].
Proof. vm_compute. reflexivity. Qed.

Lemma wfDecoder_tinyDecoderArgmax : wfDecoder tinyDecoderArgmax.
Proof. split; [discriminate |]. simpl. split; [reflexivity | lia]. Qed.






Lemma encode_latentMean_witness :
  Encoder.encode tinyEncoder tinySequences = latentMean tinyEncoder tinySequences
  /\ length (Encoder.encode tinyEncoder tinySequences) = 2
  /\ (ncols (kernel (Encoder.muVars tinyEncoder))
      = length (bias (Encoder.muVars tinyEncoder)) ->
      hasShape2 2 (length (bias (Encoder.muVars tinyEncoder)))
                (Encoder.encode tinyEncoder tinySequences)).
Proof.
  apply (encode_latentMean tinyEncoder tinySequences 2 2 1).
  split; [reflexivity |]. repeat constructor.
Defined.
End SmallModels.

(** ** The top-level methods *)

Section Methods.
Context {F : Type} `{Arith F} `{Activation F} `{Storage F} `{RandomSource F}.

Lemma length_concat_map {A B} (f : A -> list B) (l : list A) (n : nat) :
  (forall x, length (f x) = n) -> length (concat (map f l)) = length l * n.
Proof.
  intros Hf. induction l as [| x l IH]; simpl; [done |].
  by rewrite length_app, Hf, IH.
Qed.

Lemma interpolateZs_rows (z : Tensor2D F) (n numSteps : nat) :
  n = 2 \/ n = 4 -> 0 < numSteps ->
  exists zs, MusicVAE.interpolateZs z n numSteps = Ok zs
             /\ length zs = if n =? 2 then numSteps else numSteps * numSteps.
Proof.
  intros Hn Hpos.
  destruct (linspace_Ok (F := F) zero one numSteps Hpos) as (ramp & Hr & Hlen & _).
  unfold MusicVAE.interpolateZs. rewrite Hr. cbn [mbind result_bind].
  destruct Hn as [-> | ->]; simpl Nat.eqb; cbv iota;
    eexists; (split; [reflexivity |]).
  - unfold addRows, outerProduct. by rewrite !length_map.
  - rewrite !mulBroadcast_outer. unfold scalarSub1, addStrict3, as2D_outer.
    rewrite !map_map, !zip_with_map_same.
    rewrite (length_concat_map _ _ numSteps), Hlen; [done |].
    intros x. rewrite !length_add2, !length_map, Hlen. lia.
Qed.

(** On a loaded model whose decoder can take a step, [interpolate] with at
    least one step calls the encoder, the blend and the decoder once each,
    in this order, and leaves the random generator alone.  When the inputs
    have at least two time steps it returns [numSteps] decoded sequences
    for two inputs and [numSteps * numSteps] for four, each with as many
    time steps as the inputs have; when the inputs have fewer than two time
    steps the decoder has fewer than two steps to stack and the call
    raises. *)
Theorem interpolate_shape (self : MusicVAE.t F) (enc : Encoder.t F) (dec : Decoder.t F)
    (sequences : Tensor3D F) (numSteps : nat) (rt : Runtime Gen) :
  MusicVAE.encoder self = Some enc -> MusicVAE.decoder self = Some dec ->
  wfDecoder dec ->
  length sequences = 2 \/ length sequences = 4 ->
  0 < numSteps ->
  (2 <= ncols sequences ->
   exists out,
     MusicVAE.interpolate self sequences numSteps rt
     = (Ok out, {| gen := gen rt;
                   calls := calls rt ++ [CallEncode; CallInterpolateZs; CallDecode] |})
     /\ hasShape3 (if length sequences =? 2 then numSteps else numSteps * numSteps)
                  (ncols sequences) (stepWidth dec) out)
  /\ (ncols sequences < 2 ->
      MusicVAE.interpolate self sequences numSteps rt
      = (Throw TooFewTensors,
         {| gen := gen rt;
            calls := calls rt ++ [CallEncode; CallInterpolateZs; CallDecode] |})).
Proof.
  intros He Hd Hwf Hn Hpos. unfold MusicVAE.interpolate. rewrite He, Hd.
  assert (Hc : negb (length sequences =? 2) && negb (length sequences =? 4) = false).
  { destruct Hn as [-> | ->]; reflexivity. }
  rewrite Hc.
  destruct (interpolateZs_rows (Encoder.encode enc sequences) (length sequences)
              numSteps Hn Hpos) as (zs & -> & Hzs).
  split.
  - intros HT.
    destruct (decode_shape dec zs (ncols sequences) Hwf HT) as (out & -> & Hshape & _).
    exists out. split.
    + unfold logCall. cbn. by rewrite <- !app_assoc.
    + by rewrite <- Hzs.
  - intros HT. rewrite (decode_short dec zs (ncols sequences) Hwf HT).
    unfold logCall. cbn. by rewrite <- !app_assoc.
Qed.

(** On a loaded model whose decoder can take a step, [sample] draws once
    from the generator and decodes once; given that the draw has
    [numSamples] rows, it returns [numSamples] sequences of [numSteps] time
    steps when [numSteps] is at least 2, and for [numSteps] 0 or 1 it
    raises, since the decoder then has fewer than two steps to stack.  The
    encoder plays no part. *)
Theorem sample_shape (self : MusicVAE.t F) (dec : Decoder.t F)
    (numSamples numSteps : nat) (rt : Runtime Gen) :
  MusicVAE.decoder self = Some dec -> wfDecoder dec -> 0 < numSamples ->
  length (fst (randomNormal numSamples (Decoder.zDims dec) (gen rt))) = numSamples ->
  (numSteps < 2 ->
   MusicVAE.sample self numSamples numSteps rt
   = (Throw TooFewTensors,
      {| gen := snd (randomNormal numSamples (Decoder.zDims dec) (gen rt));
         calls := calls rt ++ [CallRandomNormal; CallDecode] |}))
  /\ (2 <= numSteps ->
      exists out,
        MusicVAE.sample self numSamples numSteps rt
        = (Ok out,
           {| gen := snd (randomNormal numSamples (Decoder.zDims dec) (gen rt));
              calls := calls rt ++ [CallRandomNormal; CallDecode] |})
        /\ hasShape3 numSamples numSteps (stepWidth dec) out).
Proof.
  intros Hd Hwf _ Hdraw. unfold MusicVAE.sample. rewrite Hd. split.
  - intros HL. rewrite (decode_short dec _ numSteps Hwf HL).
    unfold logCall. cbn. by rewrite <- app_assoc.
  - intros HL.
    destruct (decode_shape dec (fst (randomNormal numSamples (Decoder.zDims dec) (gen rt)))
                numSteps Hwf HL) as (out & -> & Hshape & _).
    exists out. split.
    + unfold logCall. cbn. by rewrite <- app_assoc.
    + by rewrite <- Hdraw.
Qed.

(** Before [initialize] and after [dispose] the two numeric methods raise a
    [TypeError]: [sample] before any number is drawn, [interpolate] (on 2 or
    4 sequences) before the encoder is called when there is no encoder; with
    an encoder but no decoder and at least one step, the encoder and the
    blend have run when the error is raised.  With an encoder and no step
    at all, the blend raises the error of [dl.linspace] after the encoder
    has run, whether or not there is a decoder. *)
Theorem methods_before_initialize (self : MusicVAE.t F) (sequences : Tensor3D F)
    (numSamples numSteps : nat) (rt : Runtime Gen) :
  (MusicVAE.decoder self = None ->
   MusicVAE.sample self numSamples numSteps rt = (Throw TypeError, rt))
  /\ (length sequences = 2 \/ length sequences = 4 ->
      (MusicVAE.encoder self = None ->
       MusicVAE.interpolate self sequences numSteps rt = (Throw TypeError, rt))
      /\ (forall enc, MusicVAE.encoder self = Some enc -> MusicVAE.decoder self = None ->
          0 < numSteps ->
          MusicVAE.interpolate self sequences numSteps rt
          = (Throw TypeError,
             {| gen := gen rt; calls := calls rt ++ [CallEncode; CallInterpolateZs] |}))
      /\ (forall enc, MusicVAE.encoder self = Some enc ->
          MusicVAE.interpolate self sequences 0 rt
          = (Throw ZeroSamples,
             {| gen := gen rt; calls := calls rt ++ [CallEncode; CallInterpolateZs] |}))).
Proof.
  split.
  - intros Hd. unfold MusicVAE.sample. by rewrite Hd.
  - intros Hn. unfold MusicVAE.interpolate.
    assert (Hc : negb (length sequences =? 2) && negb (length sequences =? 4) = false).
    { destruct Hn as [-> | ->]; reflexivity. }
    rewrite Hc. split; [| split].
    + intros He. by rewrite He.
    + intros enc He Hd Hpos. rewrite He, Hd.
      destruct (interpolateZs_rows (Encoder.encode enc sequences) (length sequences)
                  numSteps Hn Hpos) as (zs & -> & _).
      unfold logCall. cbn. by rewrite <- app_assoc.
    + intros enc He. rewrite He, interpolateZs_no_step.
      unfold logCall. cbn. by rewrite <- app_assoc.
Qed.
End Methods.

Section NoCells.
Context {F : Type} `{Arith F} `{Activation F}.

(** A decoder without cells raises a [TypeError] in the first step of the
    generation loop, whatever the latent batch: there is no last hidden
    state to project. *)
Theorem decode_without_cells (self : Decoder.t F) (z : Tensor2D F) (L : nat) :
  Decoder.lstmCellVars self = [] -> 0 < L -> z <> [] ->
  Decoder.decode self z L = Throw TypeError.
Proof.
  intros Hc HL _. unfold Decoder.decode. rewrite Hc. cbn [Decoder.initCells fst snd].
  destruct L as [| k]; [lia |]. cbn [Decoder.decodeLoop].
  unfold Decoder.decodeStep. rewrite Hc. reflexivity.
Qed.
End NoCells.

Section SmallRuns.
Local Existing Instance Qc_softsign.

Lemma interpolate_shape_witness :
  exists out,
    @MusicVAE.interpolate Qc _ Qc_softsign _ counterSource tinyModel tinySequences 3
      freshRuntime
    = (Ok out, {| gen := 0; calls := [CallEncode; CallInterpolateZs; CallDecode] |})
    /\ hasShape3 3 2 1 out.
Proof.
  apply (proj1 (@interpolate_shape Qc _ Qc_softsign _ counterSource tinyModel tinyEncoder
                  tinyDecoderArgmax tinySequences 3 freshRuntime
                  eq_refl eq_refl wfDecoder_tinyDecoderArgmax
                  (or_introl eq_refl) (Nat.lt_0_succ 2))).
  simpl. lia.
Defined.

Lemma sample_shape_witness :
  exists out,
    @MusicVAE.sample Qc _ Qc_softsign counterSource tinyModel 2 3 freshRuntime
    = (Ok out, {| gen := 2; calls := [CallRandomNormal; CallDecode] |})
    /\ hasShape3 2 3 1 out.
Proof.
  apply (proj2 (@sample_shape Qc _ Qc_softsign counterSource tinyModel tinyDecoderArgmax 2 3
                  freshRuntime eq_refl wfDecoder_tinyDecoderArgmax (Nat.lt_0_succ 1)
                  eq_refl)).
  lia.
Defined.

Lemma decode_without_cells_witness :
  Decoder.decode (Decoder.new [] tinyInitState
                    {| kernel := [[q 1 1; q (-1) 1]]; bias := [q 0 1; q 1 10] |} None)
                 [[q 1 1]] 2
  = Throw TypeError.
Proof. apply decode_without_cells; [reflexivity | lia | discriminate]. Defined.
End SmallRuns.

(** ** Batch entries are processed one by one *)

Section BatchSplit.
Context {F : Type} `{Arith F} `{Activation F}.

Lemma concat2d_app {A} (a1 a2 b1 b2 : list (list A)) :
  length a1 = length b1 ->
  concat2d (a1 ++ a2) (b1 ++ b2) = concat2d a1 b1 ++ concat2d a2 b2.
Proof. apply zip_with_app. Qed.

Lemma matMul_app (a1 a2 k : Tensor2D F) : matMul (a1 ++ a2) k = matMul a1 k ++ matMul a2 k.
Proof. unfold matMul, matMulT. apply map_app. Qed.

Lemma dense_app (vars : LayerVars F) (a1 a2 : Tensor2D F) :
  dense vars (a1 ++ a2) = dense vars a1 ++ dense vars a2.
Proof. unfold dense, addRows. by rewrite matMul_app, map_app. Qed.

Lemma slice2_rows_app {A} (r1 r2 : list (list A)) (c w : nat) :
  slice2 (r1 ++ r2) 0 c (length r1 + length r2) w
  = slice2 r1 0 c (length r1) w ++ slice2 r2 0 c (length r2) w.
Proof.
  unfold slice2. rewrite !drop_0, !take_ge by (rewrite ?length_app; lia).
  apply map_app.
Qed.

Lemma ncols_dense (vars : LayerVars F) (a : Tensor2D F) :
  a <> [] -> ncols (dense vars a) = Nat.min (ncols (kernel vars)) (length (bias vars)).
Proof.
  intros Ha. pose proof (dense_row_length vars a) as Hw.
  pose proof (length_dense vars a) as Hl.
  destruct (dense vars a) as [| row rows]; [destruct a; done |].
  apply Forall_cons in Hw as [Hrow _]. exact Hrow.
Qed.

Lemma ncols_app_l {A} (r1 r2 : list (list A)) : r1 <> [] -> ncols (r1 ++ r2) = ncols r1.
Proof. by destruct r1. Qed.

(** The recurrent cell treats the batch entries one by one. *)
Lemma basicLSTMCell_app (fb : F) k bs (d1 d2 c1 c2 h1 h2 : Tensor2D F) :
  d1 <> [] -> d2 <> [] ->
  length c1 = length d1 -> length h1 = length d1 ->
  length c2 = length d2 -> length h2 = length d2 ->
  basicLSTMCell fb k bs (d1 ++ d2) (c1 ++ c2) (h1 ++ h2)
  = (fst (basicLSTMCell fb k bs d1 c1 h1) ++ fst (basicLSTMCell fb k bs d2 c2 h2),
     snd (basicLSTMCell fb k bs d1 c1 h1) ++ snd (basicLSTMCell fb k bs d2 c2 h2)).
Proof.
  intros N1 N2 Lc1 Lh1 Lc2 Lh2. unfold basicLSTMCell. cbn [fst snd].
  change (addRows (matMul ?x k) bs) with (dense {| kernel := k; bias := bs |} x).
  set (vars := {| kernel := k; bias := bs |}).
  rewrite concat2d_app by lia. rewrite dense_app.
  set (res1 := dense vars (concat2d d1 h1)). set (res2 := dense vars (concat2d d2 h2)).
  assert (P1 : 0 < length d1) by (destruct d1; [done | simpl; lia]).
  assert (P2 : 0 < length d2) by (destruct d2; [done | simpl; lia]).
  assert (Hn1 : concat2d d1 h1 <> []).
  { intros E. apply (f_equal (@length _)) in E. rewrite length_concat2d in E.
    change (length (@nil (list F))) with 0 in E. lia. }
  assert (Hn2 : concat2d d2 h2 <> []).
  { intros E. apply (f_equal (@length _)) in E. rewrite length_concat2d in E.
    change (length (@nil (list F))) with 0 in E. lia. }
  assert (Hr1 : length res1 = length d1).
  { unfold res1. rewrite length_dense, length_concat2d. lia. }
  assert (Hr2 : length res2 = length d2).
  { unfold res2. rewrite length_dense, length_concat2d. lia. }
  assert (Hw1 : ncols (res1 ++ res2) = ncols res1).
  { apply ncols_app_l. intros E. rewrite E in Hr1. simpl in Hr1. lia. }
  assert (Hw2 : ncols res2 = ncols res1).
  { unfold res1, res2. by rewrite !ncols_dense. }
  rewrite Hw1, Hw2. rewrite length_app. set (w := ncols res1 / 4).
  rewrite !slice2_rows_app.
  unfold add2, mul2, sigmoid2, tanh2, addScalar2.
  rewrite !map_app.
  rewrite !(zip_with_app (zip_with mul)), !(zip_with_app add1), !map_app,
    !(zip_with_app (zip_with mul));
    rewrite ?length_zip_with, ?length_map, ?length_slice2; try lia.
  all: try reflexivity.
  all: rewrite ?length_zip_with, ?length_map, ?length_slice2; lia.
Qed.

Lemma length_nonempty {A} (l : list A) : l <> [] -> 0 < length l.
Proof. destruct l; [done | simpl; lia]. Qed.

Lemma timeSlice_app (s1 s2 : Tensor3D F) (D index : nat) :
  Encoder.timeSlice (s1 ++ s2) (length s1 + length s2) D index
  = Encoder.timeSlice s1 (length s1) D index ++ Encoder.timeSlice s2 (length s2) D index.
Proof.
  unfold Encoder.timeSlice, as2D, slice3.
  rewrite !drop_0, !take_ge by (rewrite ?length_app; lia).
  by rewrite !map_app.
Qed.

Lemma length_timeSlice (s : Tensor3D F) (D index : nat) :
  length (Encoder.timeSlice s (length s) D index) = length s.
Proof.
  unfold Encoder.timeSlice, as2D, slice3.
  rewrite !length_map, length_take, length_drop. lia.
Qed.

Lemma lstm_fold_app (vars : LayerVars F) (s1 s2 : Tensor3D F) (D : nat)
    (index : nat -> nat) (l : list nat) :
  s1 <> [] -> s2 <> [] ->
  forall c1 h1 c2 h2 : Tensor2D F,
  length c1 = length s1 -> length h1 = length s1 ->
  length c2 = length s2 -> length h2 = length s2 ->
  let step := fun (s : Tensor3D F) (state : Tensor2D F * Tensor2D F) (i : nat) =>
    basicLSTMCell forgetBias (kernel vars) (bias vars)
      (Encoder.timeSlice s (length s) D (index i)) (fst state) (snd state) in
  fold_left
    (fun state i =>
       basicLSTMCell forgetBias (kernel vars) (bias vars)
         (Encoder.timeSlice (s1 ++ s2) (length s1 + length s2) D (index i))
         (fst state) (snd state))
    l (c1 ++ c2, h1 ++ h2)
  = (fst (fold_left (step s1) l (c1, h1)) ++ fst (fold_left (step s2) l (c2, h2)),
     snd (fold_left (step s1) l (c1, h1)) ++ snd (fold_left (step s2) l (c2, h2))).
Proof.
  intros N1 N2. pose proof (length_nonempty _ N1) as P1.
  pose proof (length_nonempty _ N2) as P2.
  induction l as [| i l IH]; intros c1 h1 c2 h2 Lc1 Lh1 Lc2 Lh2; cbn zeta; [done |].
  cbn [fold_left fst snd].
  rewrite timeSlice_app.
  pose proof (length_timeSlice s1 D (index i)) as T1.
  pose proof (length_timeSlice s2 D (index i)) as T2.
  rewrite basicLSTMCell_app; try lia;
    try (intros E; apply (f_equal (@length _)) in E; simpl in E; lia).
  destruct (basicLSTMCell_rows forgetBias (kernel vars) (bias vars)
              (Encoder.timeSlice s1 (length s1) D (index i)) c1 h1 (length s1))
    as [R1 R2]; try done.
  destruct (basicLSTMCell_rows forgetBias (kernel vars) (bias vars)
              (Encoder.timeSlice s2 (length s2) D (index i)) c2 h2 (length s2))
    as [R3 R4]; try done.
  rewrite IH by done.
  by destruct (basicLSTMCell _ _ _ (Encoder.timeSlice s1 _ _ _) _ _),
    (basicLSTMCell _ _ _ (Encoder.timeSlice s2 _ _ _) _ _).
Qed.

Lemma zeros_add (r1 r2 c : nat) : zeros (F := F) (r1 + r2) c = zeros r1 c ++ zeros r2 c.
Proof. unfold zeros. apply replicate_add. Qed.

Lemma shape2_app_l {A} (s1 s2 : list (list (list A))) :
  s1 <> [] -> shape2 (s1 ++ s2) = shape2 s1.
Proof. by destruct s1. Qed.

Lemma runLstm_app (s1 s2 : Tensor3D F) (vars : LayerVars F) (reverse : bool) :
  s1 <> [] -> s2 <> [] -> ncols s1 = ncols s2 -> shape2 s1 = shape2 s2 ->
  Encoder.runLstm (s1 ++ s2) vars reverse
  = (fst (Encoder.runLstm s1 vars reverse) ++ fst (Encoder.runLstm s2 vars reverse),
     snd (Encoder.runLstm s1 vars reverse) ++ snd (Encoder.runLstm s2 vars reverse)).
Proof.
  intros N1 N2 HT HD. unfold Encoder.runLstm. cbn zeta.
  rewrite ncols_app_l, shape2_app_l, length_app, !zeros_add by done.
  rewrite <- HT, <- HD.
  apply (lstm_fold_app vars s1 s2 (shape2 s1)
           (fun i => if reverse then ncols s1 - 1 - i else i)); try done;
    apply length_zeros.
Qed.

Lemma runLstm_rows (s : Tensor3D F) (vars : LayerVars F) (reverse : bool) :
  length (fst (Encoder.runLstm s vars reverse)) = length s
  /\ length (snd (Encoder.runLstm s vars reverse)) = length s.
Proof.
  unfold Encoder.runLstm. cbn zeta.
  pose proof (lstm_fold_rows (F := F) vars (length s)
    (map (fun i => Encoder.timeSlice s (length s) (shape2 s)
                     (if reverse then ncols s - 1 - i else i)) (seq 0 (ncols s)))
    (zeros (length s) (length (bias vars) / 4), zeros (length s) (length (bias vars) / 4)))
    as Hrows.
  cbn zeta in Hrows. rewrite fold_left_fmap in Hrows.
  apply Hrows; [| apply length_zeros | apply length_zeros].
  apply Forall_fmap, Forall_forall. intros i _. apply length_timeSlice.
Qed.

Lemma length_encode (self : Encoder.t F) (s : Tensor3D F) :
  length (Encoder.encode self s) = length s.
Proof.
  unfold Encoder.encode. cbn zeta. rewrite length_dense, length_concat2d.
  destruct (runLstm_rows s (Encoder.lstmFwVars self) false) as [_ ->].
  destruct (runLstm_rows s (Encoder.lstmBwVars self) true) as [_ ->]. lia.
Qed.

Lemma encode_app (self : Encoder.t F) (s1 s2 : Tensor3D F) :
  s1 <> [] -> s2 <> [] -> ncols s1 = ncols s2 -> shape2 s1 = shape2 s2 ->
  Encoder.encode self (s1 ++ s2) = Encoder.encode self s1 ++ Encoder.encode self s2.
Proof.
  intros N1 N2 HT HD. unfold Encoder.encode. cbn zeta.
  rewrite !runLstm_app by done. cbn [fst snd].
  rewrite concat2d_app, dense_app; [done |].
  destruct (runLstm_rows s1 (Encoder.lstmFwVars self) false) as [_ ->].
  by destruct (runLstm_rows s1 (Encoder.lstmBwVars self) true) as [_ ->].
Qed.

Lemma encode_rows (self : Encoder.t F) (sequence : Tensor3D F) (T D : nat) :
  Forall (hasShape2 T D) sequence ->
  Forall2 (fun s zrow => Encoder.encode self [s] = [zrow])
          sequence (Encoder.encode self sequence).
Proof.
  induction 1 as [| m rest Hm Hrest IH].
  - assert (E : Encoder.encode self [] = []) by (apply nil_length_inv, length_encode).
    rewrite E. constructor.
  - pose proof (length_encode self [m]) as L1. simpl in L1.
    destruct (Encoder.encode self [m]) as [| z0 [| ? ?]] eqn:E1; try done.
    destruct rest as [| m2 rest].
    + rewrite E1. by repeat constructor.
    + change (m :: m2 :: rest) with ([m] ++ m2 :: rest).
      rewrite encode_app, E1; try done.
      * simpl. by constructor.
      * apply Forall_cons in Hrest as [[L2 _] _]. destruct Hm as [Lm _]. simpl. lia.
      * apply Forall_cons in Hrest as [[L2 W2] _]. destruct Hm as [Lm Wm]. simpl.
        destruct m as [| r m], m2 as [| r2 m2']; simpl in *; try lia.
        apply Forall_cons in Wm as [-> _]. by apply Forall_cons in W2 as [-> _].
Qed.

(** The encoder treats the sequences of a batch one by one: the latent of
    sequence [b] of a batch is the latent of that sequence encoded alone,
    and the latents of a batch made of two batches are those of the first
    followed by those of the second. *)
Theorem encode_batch_independent (self : Encoder.t F) (sequence : Tensor3D F) (T D : nat) :
  Forall (hasShape2 T D) sequence -> sequence <> [] ->
  length (Encoder.encode self sequence) = length sequence
  /\ (forall b s, sequence !! b = Some s ->
        Encoder.encode self sequence !! b = Encoder.encode self [s] !! 0)
  /\ (forall s1 s2, s1 <> [] -> s2 <> [] -> sequence = s1 ++ s2 ->
        Encoder.encode self sequence = Encoder.encode self s1 ++ Encoder.encode self s2).
Proof.
  intros Hall _. split; [apply length_encode |].
  assert (Hdims : forall s1 s2 : Tensor3D F,
             Forall (hasShape2 T D) s1 -> Forall (hasShape2 T D) s2 ->
             s1 <> [] -> s2 <> [] -> ncols s1 = ncols s2 /\ shape2 s1 = shape2 s2).
  { intros [| m1 s1] [| m2 s2] H1 H2 N1 N2; try done.
    apply Forall_cons in H1 as [[L1 W1] _]. apply Forall_cons in H2 as [[L2 W2] _].
    simpl. split; [lia |].
    destruct m1 as [| r1 m1], m2 as [| r2 m2]; simpl in *; try lia.
    apply Forall_cons in W1 as [-> _]. by apply Forall_cons in W2 as [-> _]. }
  assert (Happ : forall s1 s2 : Tensor3D F,
             Forall (hasShape2 T D) (s1 ++ s2) ->
             Encoder.encode self (s1 ++ s2)
             = Encoder.encode self s1 ++ Encoder.encode self s2).
  { intros s1 s2 H12. apply Forall_app in H12 as [H1' H2'].
    destruct s1 as [| m1 s1]; [done |].
    destruct s2 as [| m2 s2].
    - rewrite app_nil_r.
      assert (E : Encoder.encode self [] = []) by (apply nil_length_inv, length_encode).
      by rewrite E, app_nil_r.
    - destruct (Hdims (m1 :: s1) (m2 :: s2)) as [HT HD]; try done.
      by apply encode_app. }
  split.
  - induction Hall as [| m rest Hm Hrest IH]; intros b s Hb; [done |].
    change (m :: rest) with ([m] ++ rest). rewrite Happ by (by constructor).
    pose proof (length_encode self [m]) as L1. simpl in L1.
    destruct b as [| b]; simpl in Hb.
    + injection Hb as <-. rewrite lookup_app_l by lia. done.
    + rewrite lookup_app_r by lia. rewrite L1.
      replace (S b - 1) with b by lia. by apply IH.
  - intros s1 s2 _ _ ->. by apply Happ.
Qed.
End BatchSplit.

Section DecoderSplit.
Context {F : Type} `{Arith F} `{Activation F}.

Lemma multiRNNCell_app (cells : list (LayerVars F)) (B1 B2 : nat) :
  0 < B1 -> 0 < B2 ->
  forall (d1 d2 : Tensor2D F) (cs1 cs2 hs1 hs2 : list (Tensor2D F)),
  length d1 = B1 -> length d2 = B2 ->
  length cs1 = length cells -> length hs1 = length cells ->
  length cs2 = length cells -> length hs2 = length cells ->
  Forall (fun c => length c = B1) cs1 -> Forall (fun h => length h = B1) hs1 ->
  Forall (fun c => length c = B2) cs2 -> Forall (fun h => length h = B2) hs2 ->
  multiRNNCell cells (d1 ++ d2) (zip_with app cs1 cs2) (zip_with app hs1 hs2)
  = (zip_with app (fst (multiRNNCell cells d1 cs1 hs1)) (fst (multiRNNCell cells d2 cs2 hs2)),
     zip_with app (snd (multiRNNCell cells d1 cs1 hs1)) (snd (multiRNNCell cells d2 cs2 hs2))).
Proof.
  intros P1 P2.
  induction cells as [| lv cells IH];
    intros d1 d2 [| c1 cs1] [| c2 cs2] [| h1 hs1] [| h2 hs2] D1 D2 Lc1 Lh1 Lc2 Lh2
           Fc1 Fh1 Fc2 Fh2;
    simpl in Lc1, Lh1, Lc2, Lh2; try lia.
  { done. }
  apply Forall_cons in Fc1 as [C1 Fc1]. apply Forall_cons in Fh1 as [H1' Fh1].
  apply Forall_cons in Fc2 as [C2 Fc2]. apply Forall_cons in Fh2 as [H2' Fh2].
  cbn [zip_with multiRNNCell fst snd].
  rewrite basicLSTMCell_app; try lia;
    try (intros E; apply (f_equal (@length _)) in E; simpl in E; lia).
  cbn [fst snd].
  destruct (basicLSTMCell_rows forgetBias (kernel lv) (bias lv) d1 c1 h1 B1) as [R1 R2];
    try done.
  destruct (basicLSTMCell_rows forgetBias (kernel lv) (bias lv) d2 c2 h2 B2) as [R3 R4];
    try done.
  rewrite IH; try done; try lia.
Qed.

Lemma initCells_app (cells : list (LayerVars F)) (i1 i2 : Tensor2D F) : forall off,
  Decoder.initCells cells (i1 ++ i2) (length i1 + length i2) off
  = (zip_with app (fst (Decoder.initCells cells i1 (length i1) off))
                  (fst (Decoder.initCells cells i2 (length i2) off)),
     zip_with app (snd (Decoder.initCells cells i1 (length i1) off))
                  (snd (Decoder.initCells cells i2 (length i2) off))).
Proof.
  induction cells as [| lv cells IH]; intros off; cbn [Decoder.initCells fst snd]; [done |].
  cbn zeta. rewrite IH. cbn [fst snd zip_with]. by rewrite !slice2_rows_app.
Qed.

Lemma stack_app {A} (n1 n2 : nat) (ts1 : list (list A)) : forall ts2,
  length ts1 = length ts2 ->
  Forall (fun t => length t = n1) ts1 -> Forall (fun t => length t = n2) ts2 ->
  foldr (zip_with cons) (replicate (n1 + n2) []) (zip_with app ts1 ts2)
  = foldr (zip_with cons) (replicate n1 []) ts1
    ++ foldr (zip_with cons) (replicate n2 []) ts2.
Proof.
  induction ts1 as [| t1 ts1 IH]; intros [| t2 ts2] Hl F1 F2; simpl in Hl; try lia.
  - simpl. apply replicate_add.
  - apply Forall_cons in F1 as [L1 F1]. apply Forall_cons in F2 as [L2 F2].
    cbn [zip_with foldr]. rewrite IH by (done || lia).
    apply zip_with_app. destruct (stack_rows n1 ts1 F1) as [-> _]. done.
Qed.

Lemma last_zip_with_app {A} (l1 l2 : list (list A)) (x1 x2 : list A) :
  length l1 = length l2 -> last l1 = Some x1 -> last l2 = Some x2 ->
  last (zip_with app l1 l2) = Some (x1 ++ x2).
Proof.
  intros Hl E1 E2. rewrite last_lookup in E1, E2 |- *.
  rewrite length_zip_with, lookup_zip_with, <- Hl, Nat.min_id, E1.
  rewrite Hl, E2. done.
Qed.

Lemma sampleDim_app (self : Nade.t F) (i : nat) (a1 a2 d1 d2 : Tensor2D F) :
  length d1 = length a1 ->
  sampleDim self i (a1 ++ a2) (d1 ++ d2)
  = sampleDim self i a1 d1 ++ sampleDim self i a2 d2.
Proof.
  intros Hl. unfold sampleDim. cbn zeta. unfold sigmoid2. rewrite map_app.
  apply zip_with_app. by rewrite length_map.
Qed.

Lemma nadeDims_app (self : Nade.t F) : forall (n i : nat) (a1 a2 d1 d2 : Tensor2D F),
  length d1 = length a1 ->
  nadeDims self (d1 ++ d2) (a1 ++ a2) i n
  = zip_with app (nadeDims self d1 a1 i n) (nadeDims self d2 a2 i n).
Proof.
  induction n as [| n IH]; intros i a1 a2 d1 d2 Hl; cbn [nadeDims]; [done |].
  cbn zeta. rewrite sampleDim_app by done. cbn [zip_with]. f_equal.
  case_decide; [by apply IH |].
  unfold outerProduct, add2. rewrite map_app, zip_with_app.
  - apply IH. rewrite length_zip_with, length_map, length_sampleDim. lia.
  - rewrite length_map, length_sampleDim. lia.
Qed.

(** The NADE head samples the batch entries one by one. *)
Lemma Nade_sample_app (n : Nade.t F) (e1 e2 d1 d2 : Tensor2D F) :
  wfNade n -> 2 <= Nade.numDims n ->
  hasShape2 (length e1) (Nade.numDims n) d1 ->
  hasShape2 (length e2) (Nade.numDims n) d2 ->
  exists R1 R2,
    Nade.sample n e1 d1 = Ok R1 /\ Nade.sample n e2 d2 = Ok R2
    /\ Nade.sample n (e1 ++ e2) (d1 ++ d2) = Ok (R1 ++ R2).
Proof.
  intros [He Hd] Hpos S1 S2.
  assert (S12 : hasShape2 (length (e1 ++ e2)) (Nade.numDims n) (d1 ++ d2)).
  { destruct S1 as [L1 W1], S2 as [L2 W2]. split.
    - rewrite !length_app. lia.
    - by apply Forall_app. }
  destruct (Nade_sample_stacked n e1 d1 (length e1) He Hd eq_refl S1) as (E1 & L1 & _).
  destruct (Nade_sample_stacked n e2 d2 (length e2) He Hd eq_refl S2) as (E2 & L2 & _).
  destruct (Nade_sample_stacked n (e1 ++ e2) (d1 ++ d2) _ He Hd eq_refl S12) as (E12 & _ & _).
  cbn zeta in E1, E2, E12, L1, L2.
  destruct (nadeDims_shape n d1 (length e1) (proj1 S1) (Nade.numDims n) 0 e1 eq_refl)
    as (_ & F1 & _).
  destruct (nadeDims_shape n d2 (length e2) (proj1 S2) (Nade.numDims n) 0 e2 eq_refl)
    as (_ & F2 & _).
  set (dims1 := nadeDims n d1 e1 0 (Nade.numDims n)) in *.
  set (dims2 := nadeDims n d2 e2 0 (Nade.numDims n)) in *.
  exists (foldr (zip_with cons) (replicate (length e1) []) dims1),
         (foldr (zip_with cons) (replicate (length e2) []) dims2).
  rewrite E1, E2, E12.
  rewrite nadeDims_app by (destruct S1; done). fold dims1 dims2.
  split; [apply stack1_Ok; [lia | done] |]. split; [apply stack1_Ok; [lia | done] |].
  rewrite <- stack_app by (done || lia).
  apply stack1_Ok.
  - rewrite length_zip_with. lia.
  - apply Forall_forall. intros t Ht.
    apply list_elem_of_lookup in Ht as [j Hj].
    apply lookup_zip_with_Some in Hj as (t1 & t2 & -> & H1' & H2').
    rewrite Forall_forall in F1, F2.
    rewrite length_app, (F1 t1), (F2 t2); [done | |]; by eapply list_elem_of_lookup_2.
Qed.
End DecoderSplit.

Section DecoderSplit2.
Context {F : Type} `{Arith F} `{Activation F}.

Lemma slice2_hasShape2 {A} (t : list (list A)) (c w : nat) :
  Forall (fun row => c + w <= length row) t ->
  hasShape2 (length (slice2 t 0 0 (length t) c)) w (slice2 t 0 c (length t) w).
Proof.
  intros Hall. split; [by rewrite !length_slice2 |].
  unfold slice2. rewrite drop_0, take_ge by done.
  apply Forall_fmap. eapply Forall_impl; [exact Hall |].
  intros row Hrow. simpl in Hrow |- *. rewrite length_take, length_drop. lia.
Qed.

Lemma decodeStep_app (self : Decoder.t F) (z1 z2 : Tensor2D F) (k : nat)
    (st1 st2 : Decoder.LoopState) :
  wfDecoder self -> z1 <> [] -> z2 <> [] ->
  loopInv self (length z1) k st1 -> loopInv self (length z2) k st2 ->
  exists st1' st2',
    Decoder.decodeStep self (length z1) z1 st1 = Ok st1'
    /\ Decoder.decodeStep self (length z2) z2 st2 = Ok st2'
    /\ loopInv self (length z1) (S k) st1' /\ loopInv self (length z2) (S k) st2'
    /\ Decoder.decodeStep self (length (z1 ++ z2)) (z1 ++ z2) (appendStates st1 st2)
       = Ok (appendStates st1' st2').
Proof.
  intros Hwf N1 N2 I1 I2.
  destruct (decodeStep_inv self z1 k st1 Hwf I1) as (st1' & E1 & I1').
  destruct (decodeStep_inv self z2 k st2 Hwf I2) as (st2' & E2 & I2').
  exists st1', st2'. do 4 (split; [done |]).
  pose proof (length_nonempty _ N1) as P1. pose proof (length_nonempty _ N2) as P2.
  destruct I1 as (Lc1 & Lh1 & Fc1 & Fh1 & Ln1 & Ls1 & _).
  destruct I2 as (Lc2 & Lh2 & Fc2 & Fh2 & Ln2 & Ls2 & _).
  destruct Hwf as [Hcells Hhead].
  revert E1 E2. unfold Decoder.decodeStep.
  cbn [appendStates Decoder.c Decoder.h Decoder.nextInput Decoder.samples].
  rewrite concat2d_app by lia.
  rewrite (multiRNNCell_app _ (length z1) (length z2)); try done;
    try (rewrite length_concat2d; lia).
  cbn [fst snd].
  destruct (multiRNNCell_rows (Decoder.lstmCellVars self) (length z1)
              (concat2d (Decoder.nextInput st1) z1) (Decoder.c st1) (Decoder.h st1))
    as (_ & M1 & _ & G1); try done.
  { rewrite length_concat2d. lia. }
  destruct (multiRNNCell_rows (Decoder.lstmCellVars self) (length z2)
              (concat2d (Decoder.nextInput st2) z2) (Decoder.c st2) (Decoder.h st2))
    as (_ & M2 & _ & G2); try done.
  { rewrite length_concat2d. lia. }
  cbn zeta in M1, M2, G1, G2.
  set (out1 := multiRNNCell (Decoder.lstmCellVars self)
                 (concat2d (Decoder.nextInput st1) z1) (Decoder.c st1) (Decoder.h st1)) in *.
  set (out2 := multiRNNCell (Decoder.lstmCellVars self)
                 (concat2d (Decoder.nextInput st2) z2) (Decoder.c st2) (Decoder.h st2)) in *.
  destruct (last (snd out1)) as [hl1 |] eqn:A1; [| done].
  destruct (last (snd out2)) as [hl2 |] eqn:A2; [| done].
  rewrite (last_zip_with_app _ _ hl1 hl2) by (done || lia).
  rewrite dense_app.
  assert (B1 : length hl1 = length z1).
  { rewrite Forall_forall in G1. apply G1. by apply last_Some_elem_of. }
  assert (B2 : length hl2 = length z2).
  { rewrite Forall_forall in G2. apply G2. by apply last_Some_elem_of. }
  pose proof (dense_row_length (Decoder.outputProjectVars self) hl1) as W1.
  pose proof (dense_row_length (Decoder.outputProjectVars self) hl2) as W2.
  pose proof (length_dense (Decoder.outputProjectVars self) hl1) as R1.
  pose proof (length_dense (Decoder.outputProjectVars self) hl2) as R2.
  set (logits1 := dense (Decoder.outputProjectVars self) hl1) in *.
  set (logits2 := dense (Decoder.outputProjectVars self) hl2) in *.
  destruct (Decoder.nade self) as [n |] eqn:Hn.
  - destruct Hhead as (Hwfn & Hpos & HK & Hb).
    rewrite length_app.
    replace (length z1) with (length logits1) by lia.
    replace (length z2) with (length logits2) by lia.
    rewrite !slice2_rows_app.
    destruct (Nade_sample_app n
                (slice2 logits1 0 0 (length logits1) (Nade.numHidden n))
                (slice2 logits2 0 0 (length logits2) (Nade.numHidden n))
                (slice2 logits1 0 (Nade.numHidden n) (length logits1) (Nade.numDims n))
                (slice2 logits2 0 (Nade.numHidden n) (length logits2) (Nade.numDims n)))
      as (S1 & S2 & -> & -> & ->); try done.
    { apply slice2_hasShape2. eapply Forall_impl; [exact W1 |]. simpl. intros; lia. }
    { apply slice2_hasShape2. eapply Forall_impl; [exact W2 |]. simpl. intros; lia. }
    cbn. intros [= <-] [= <-]. unfold appendStates. cbn. f_equal. f_equal.
    rewrite zip_with_app by lia. by rewrite map_app.
  - intros [= <-] [= <-]. unfold appendStates. cbn. f_equal. f_equal.
    + unfold oneHot, argMax. by rewrite !map_app.
    + rewrite zip_with_app by lia. unfold argMax. by rewrite !map_app.
Qed.

Lemma decodeLoop_app (self : Decoder.t F) (z1 z2 : Tensor2D F) (n : nat) :
  wfDecoder self -> z1 <> [] -> z2 <> [] ->
  forall k st1 st2,
  loopInv self (length z1) k st1 -> loopInv self (length z2) k st2 ->
  exists st1' st2',
    Decoder.decodeLoop self (length z1) z1 n st1 = Ok st1'
    /\ Decoder.decodeLoop self (length z2) z2 n st2 = Ok st2'
    /\ loopInv self (length z1) (k + n) st1' /\ loopInv self (length z2) (k + n) st2'
    /\ Decoder.decodeLoop self (length (z1 ++ z2)) (z1 ++ z2) n (appendStates st1 st2)
       = Ok (appendStates st1' st2').
Proof.
  intros Hwf N1 N2. induction n as [| n IH]; intros k st1 st2 I1 I2;
    cbn [Decoder.decodeLoop].
  - exists st1, st2. rewrite Nat.add_0_r. done.
  - destruct (decodeStep_app self z1 z2 k st1 st2 Hwf N1 N2 I1 I2)
      as (s1 & s2 & -> & -> & J1 & J2 & ->). cbn.
    replace (k + S n) with (S k + n) by lia. by apply IH.
Qed.

(** The decoder treats the latent vectors of a batch one by one. *)
Lemma decode_app (self : Decoder.t F) (z1 z2 : Tensor2D F) (L : nat) :
  wfDecoder self -> 2 <= L ->
  exists out1 out2,
    Decoder.decode self z1 L = Ok out1 /\ Decoder.decode self z2 L = Ok out2
    /\ Decoder.decode self (z1 ++ z2) L = Ok (out1 ++ out2).
Proof.
  intros Hwf HL.
  destruct (decode_shape self z1 L Hwf HL) as (o1 & E1 & [Ho1 _] & _).
  destruct (decode_shape self z2 L Hwf HL) as (o2 & E2 & [Ho2 _] & _).
  destruct z1 as [| r1 z1'].
  { exists o1, o2. apply nil_length_inv in Ho1. subst o1. done. }
  destruct z2 as [| r2 z2'].
  { exists o1, o2. apply nil_length_inv in Ho2. subst o2. by rewrite !app_nil_r. }
  set (z1 := r1 :: z1') in *. set (z2 := r2 :: z2') in *.
  assert (N1 : z1 <> []) by done. assert (N2 : z2 <> []) by done.
  clear o1 o2 E1 E2 Ho1 Ho2. clearbody z1 z2.
  set (i1 := tanh2 (dense (Decoder.zToInitStateVars self) z1)).
  set (i2 := tanh2 (dense (Decoder.zToInitStateVars self) z2)).
  assert (Hi : tanh2 (dense (Decoder.zToInitStateVars self) (z1 ++ z2)) = i1 ++ i2).
  { unfold i1, i2, tanh2. by rewrite dense_app, map_app. }
  assert (Li1 : length i1 = length z1) by (unfold i1; by rewrite length_tanh2, length_dense).
  assert (Li2 : length i2 = length z2) by (unfold i2; by rewrite length_tanh2, length_dense).
  unfold Decoder.decode. cbn zeta. fold i1 i2. rewrite Hi.
  rewrite length_app, <- Li1, <- Li2, initCells_app, Li1, Li2. cbn [fst snd].
  rewrite zeros_add.
  destruct (initCells_rows (Decoder.lstmCellVars self) i1 (length z1) 0 Li1)
    as (C1 & C2 & C3 & C4).
  destruct (initCells_rows (Decoder.lstmCellVars self) i2 (length z2) 0 Li2)
    as (D1 & D2 & D3 & D4).
  cbn zeta in C1, C2, C3, C4, D1, D2, D3, D4.
  set (st1 := {| Decoder.c := fst (Decoder.initCells (Decoder.lstmCellVars self) i1 (length z1) 0);
                 Decoder.h := snd (Decoder.initCells (Decoder.lstmCellVars self) i1 (length z1) 0);
                 Decoder.nextInput := zeros (length z1) (Decoder.outputDims self);
                 Decoder.samples := [] |}).
  set (st2 := {| Decoder.c := fst (Decoder.initCells (Decoder.lstmCellVars self) i2 (length z2) 0);
                 Decoder.h := snd (Decoder.initCells (Decoder.lstmCellVars self) i2 (length z2) 0);
                 Decoder.nextInput := zeros (length z2) (Decoder.outputDims self);
                 Decoder.samples := [] |}).
  change (Decoder.decodeLoop self (length z1 + length z2) (z1 ++ z2) L _)
    with (Decoder.decodeLoop self (length z1 + length z2) (z1 ++ z2) L (appendStates st1 st2)).
  rewrite <- length_app.
  destruct (decodeLoop_app self z1 z2 L Hwf N1 N2 0 st1 st2)
    as (s1 & s2 & K1 & K2 & J1 & J2 & ->).
  { unfold loopInv, st1. cbn. repeat split; try done. apply length_zeros. }
  { unfold loopInv, st2. cbn. repeat split; try done. apply length_zeros. }
  rewrite K1, K2. cbn.
  destruct J1 as (_ & _ & _ & _ & _ & Ls1 & Fs1), J2 as (_ & _ & _ & _ & _ & Ls2 & Fs2).
  assert (Hlen1 : Forall (fun s : list (list (Entry F)) => length s = length z1)
                         (Decoder.samples s1)).
  { eapply Forall_impl; [exact Fs1 |]. by intros s [? _]. }
  assert (Hlen2 : Forall (fun s : list (list (Entry F)) => length s = length z2)
                         (Decoder.samples s2)).
  { eapply Forall_impl; [exact Fs2 |]. by intros s [? _]. }
  simpl in Ls1, Ls2.
  exists (foldr (zip_with cons) (replicate (length z1) []) (Decoder.samples s1)),
         (foldr (zip_with cons) (replicate (length z2) []) (Decoder.samples s2)).
  split; [apply stack1_Ok; [lia | done] |]. split; [apply stack1_Ok; [lia | done] |].
  rewrite <- stack_app by (done || lia).
  apply stack1_Ok.
  - rewrite length_zip_with. lia.
  - apply Forall_forall. intros t Ht.
    apply list_elem_of_lookup in Ht as [j Hj].
    apply lookup_zip_with_Some in Hj as (t1 & t2 & -> & H1' & H2').
    rewrite Forall_forall in Hlen1, Hlen2.
    rewrite length_app, (Hlen1 t1), (Hlen2 t2); [done | |]; by eapply list_elem_of_lookup_2.
Qed.

Lemma decode_rows (self : Decoder.t F) (z : Tensor2D F) (L : nat) :
  wfDecoder self -> 2 <= L ->
  exists out,
    Decoder.decode self z L = Ok out
    /\ Forall2 (fun zi oi => Decoder.decode self [zi] L = Ok [oi]) z out.
Proof.
  intros Hwf HL. induction z as [| z0 rest IH].
  - destruct (decode_shape self [] L Hwf HL) as (out & E & [Ho _] & _).
    apply nil_length_inv in Ho. subst out. exists []. split; [done | constructor].
  - destruct IH as (o2 & E2 & Hrows).
    destruct (decode_app self [z0] rest L Hwf HL) as (o1 & o2' & E1 & E2' & E12).
    rewrite E2 in E2'. injection E2' as <-.
    destruct (decode_shape self [z0] L Hwf HL) as (o1' & E1' & [Ho1 _] & _).
    rewrite E1 in E1'. injection E1' as <-.
    destruct o1 as [| oi [| ? ?]]; try done.
    exists (oi :: o2). split; [exact E12 |]. by constructor.
Qed.

(** The decoder treats the latent vectors of a batch one by one: what it
    generates for entry [i] of a batch is what it generates for that latent
    vector decoded alone, and the result for a batch made of two batches is
    the result for the first followed by the result for the second. *)
Theorem decode_batch_independent (self : Decoder.t F) (z : Tensor2D F) (L : nat) :
  wfDecoder self -> 2 <= L -> z <> [] ->
  exists out,
    Decoder.decode self z L = Ok out
    /\ length out = length z
    /\ (forall i zi, z !! i = Some zi ->
          exists oi, Decoder.decode self [zi] L = Ok [oi] /\ out !! i = Some oi)
    /\ (forall z1 z2, z1 <> [] -> z2 <> [] -> z = z1 ++ z2 ->
          exists out1 out2,
            Decoder.decode self z1 L = Ok out1 /\ Decoder.decode self z2 L = Ok out2
            /\ out = out1 ++ out2).
Proof.
  intros Hwf HL _.
  destruct (decode_shape self z L Hwf HL) as (out & E & [Ho _] & _).
  exists out. split; [done |]. split; [done |]. split.
  - clear Ho. revert out E. induction z as [| z0 rest IH]; intros out E i zi Hi; [done |].
    destruct (decode_app self [z0] rest L Hwf HL) as (o1 & o2 & E1 & E2 & E12).
    change ([z0] ++ rest) with (z0 :: rest) in E12. rewrite E in E12. injection E12 as ->.
    destruct (decode_shape self [z0] L Hwf HL) as (o1' & E1' & [Ho1 _] & _).
    rewrite E1 in E1'. injection E1' as <-.
    destruct o1 as [| oi [| ? ?]]; try done.
    destruct i as [| i]; simpl in Hi.
    + injection Hi as <-. by exists oi.
    + simpl. by apply (IH o2 E2).
  - intros z1 z2 _ _ ->.
    destruct (decode_app self z1 z2 L Hwf HL) as (o1 & o2 & E1 & E2 & E12).
    exists o1, o2. rewrite E in E12. by injection E12 as ->.
Qed.
End DecoderSplit2.

Section SplitWitnesses.
Local Existing Instance Qc_softsign.

Lemma decode_batch_independent_witness :
  exists out,
    Decoder.decode tinyDecoderNade [[q 1 1]; [q (-3) 1]] 3 = Ok out
    /\ length out = 2
    /\ (forall i zi, [[q 1 1]; [q (-3) 1]] !! i = Some zi ->
          exists oi, Decoder.decode tinyDecoderNade [zi] 3 = Ok [oi] /\ out !! i = Some oi)
    /\ (forall z1 z2, z1 <> [] -> z2 <> [] -> [[q 1 1]; [q (-3) 1]] = z1 ++ z2 ->
          exists out1 out2,
            Decoder.decode tinyDecoderNade z1 3 = Ok out1
            /\ Decoder.decode tinyDecoderNade z2 3 = Ok out2
            /\ out = out1 ++ out2).
Proof.
  apply (decode_batch_independent tinyDecoderNade [[q 1 1]; [q (-3) 1]] 3);
    [| lia | discriminate].
  split; [discriminate |]. simpl.
  split; [| split; [lia | split; lia]].
  split; (split; [reflexivity | repeat constructor]).
Defined.

Lemma encode_batch_independent_witness :
  length (Encoder.encode tinyEncoder tinySequences) = length tinySequences
  /\ (forall b s, tinySequences !! b = Some s ->
        Encoder.encode tinyEncoder tinySequences !! b = Encoder.encode tinyEncoder [s] !! 0)
  /\ (forall s1 s2, s1 <> [] -> s2 <> [] -> tinySequences = s1 ++ s2 ->
        Encoder.encode tinyEncoder tinySequences
        = Encoder.encode tinyEncoder s1 ++ Encoder.encode tinyEncoder s2).
Proof.
  apply (encode_batch_independent tinyEncoder tinySequences 2 1);
    [repeat constructor | discriminate].
Defined.
End SplitWitnesses.

(** ** Generation is causal *)

Section Prefix.
Context {F : Type} `{Arith F} `{Activation F}.

Lemma decodeLoop_add (self : Decoder.t F) (B : nat) (z : Tensor2D F) (n m : nat) :
  forall st,
  Decoder.decodeLoop self B z (n + m) st
  = (st' ← Decoder.decodeLoop self B z n st; Decoder.decodeLoop self B z m st').
Proof.
  induction n as [| n IH]; intros st; cbn [Nat.add Decoder.decodeLoop]; [done |].
  destruct (Decoder.decodeStep self B z st) as [st1 | e]; cbn; [apply IH | done].
Qed.

Lemma decodeStep_samples (self : Decoder.t F) (B : nat) (z : Tensor2D F) st st' :
  Decoder.decodeStep self B z st = Ok st' ->
  exists s, Decoder.samples st' = Decoder.samples st ++ [s].
Proof.
  unfold Decoder.decodeStep. destruct (last _); [| done].
  destruct (Decoder.nade self).
  - destruct (Nade.sample _ _ _); cbn; [| done]. intros [= <-]. by eexists.
  - intros [= <-]. by eexists.
Qed.

Lemma decodeLoop_samples (self : Decoder.t F) (B : nat) (z : Tensor2D F) (n : nat) :
  forall st st', Decoder.decodeLoop self B z n st = Ok st' ->
  exists more, Decoder.samples st' = Decoder.samples st ++ more.
Proof.
  induction n as [| n IH]; intros st st'; cbn [Decoder.decodeLoop].
  - intros [= <-]. exists []. by rewrite app_nil_r.
  - destruct (Decoder.decodeStep self B z st) as [st1 | e] eqn:E1; cbn; [| done].
    intros E. apply decodeStep_samples in E1 as [s Hs].
    apply IH in E as [more Hm]. exists (s :: more).
    rewrite Hm, Hs, <- app_assoc. done.
Qed.

Lemma take_zip_with_cons {A} (n : nat) (t : list A) (X : list (list A)) :
  map (take (S n)) (zip_with cons t X) = zip_with cons t (map (take n) X).
Proof.
  revert X. induction t as [| x t IH]; intros [| r X]; simpl; try done.
  by rewrite IH.
Qed.

Lemma stack_prefix {A} (B : nat) (ts more : list (list A)) :
  Forall (fun t => length t = B) ts -> Forall (fun t => length t = B) more ->
  map (take (length ts)) (foldr (zip_with cons) (replicate B []) (ts ++ more))
  = foldr (zip_with cons) (replicate B []) ts.
Proof.
  intros Hts Hmore. induction Hts as [| t ts Ht Hts IH].
  - simpl. destruct (stack_rows B more Hmore) as [Hl _].
    revert Hl. generalize (foldr (zip_with cons) (replicate B []) more).
    intros X <-. clear Hmore. induction X as [| r X IHX]; [done |].
    cbn [length map replicate]. rewrite take_0. f_equal. exact IHX.
  - cbn [app foldr length]. by rewrite take_zip_with_cons, IH.
Qed.

(** Generation is causal: the first [L] time steps of a longer run are the
    run of length [L], for every length [L >= 2] (a shorter run raises). *)
Theorem decode_prefix (self : Decoder.t F) (z : Tensor2D F) (L L' : nat) :
  wfDecoder self -> 2 <= L -> L <= L' -> z <> [] ->
  exists out out',
    Decoder.decode self z L = Ok out /\ Decoder.decode self z L' = Ok out'
    /\ out = map (take L) out'.
Proof.
  intros Hwf HL HL' _. unfold Decoder.decode. cbn zeta.
  set (init := tanh2 (dense (Decoder.zToInitStateVars self) z)).
  set (st0 := {| Decoder.c := fst (Decoder.initCells (Decoder.lstmCellVars self) init (length z) 0);
                 Decoder.h := snd (Decoder.initCells (Decoder.lstmCellVars self) init (length z) 0);
                 Decoder.nextInput := zeros (length z) (Decoder.outputDims self);
                 Decoder.samples := [] |}).
  assert (I0 : loopInv self (length z) 0 st0).
  { destruct (initCells_rows (Decoder.lstmCellVars self) init (length z) 0)
      as (L1 & L2 & F1 & F2).
    { unfold init. by rewrite length_tanh2, length_dense. }
    unfold loopInv, st0. cbn. repeat split; try done. apply length_zeros. }
  replace L' with (L + (L' - L)) by lia. rewrite decodeLoop_add.
  destruct (decodeLoop_inv self z L Hwf 0 st0 I0) as (st1 & E1 & I1).
  rewrite E1. cbn.
  destruct (decodeLoop_inv self z (L' - L) Hwf (0 + L) st1 I1) as (st2 & E2 & I2).
  rewrite E2. cbn.
  destruct (decodeLoop_samples self _ z _ _ _ E2) as [more Hmore].
  destruct I1 as (_ & _ & _ & _ & _ & Ls1 & Fs1), I2 as (_ & _ & _ & _ & _ & Ls2 & Fs2).
  assert (Hlen1 : Forall (fun s : list (list (Entry F)) => length s = length z)
                         (Decoder.samples st1)).
  { eapply Forall_impl; [exact Fs1 |]. by intros s [? _]. }
  assert (Hlen2 : Forall (fun s : list (list (Entry F)) => length s = length z)
                         (Decoder.samples st2)).
  { eapply Forall_impl; [exact Fs2 |]. by intros s [? _]. }
  exists (foldr (zip_with cons) (replicate (length z) []) (Decoder.samples st1)),
         (foldr (zip_with cons) (replicate (length z) []) (Decoder.samples st2)).
  simpl in Ls1, Ls2.
  split; [apply stack1_Ok; [lia | done] |].
  split; [apply stack1_Ok; [lia | done] |].
  rewrite Hmore in Hlen2 |- *. apply Forall_app in Hlen2 as [_ Hm].
  rewrite <- Ls1 at 1. symmetry. by apply stack_prefix.
Qed.
End Prefix.

Section PrefixWitness.
Local Existing Instance Qc_softsign.

Lemma decode_prefix_witness :
  exists out out',
    Decoder.decode tinyDecoderArgmax [[q 1 1]; [q (-3) 1]] 2 = Ok out
    /\ Decoder.decode tinyDecoderArgmax [[q 1 1]; [q (-3) 1]] 3 = Ok out'
    /\ out = map (take 2) out'.
Proof.
  apply (decode_prefix tinyDecoderArgmax [[q 1 1]; [q (-3) 1]] 2 3);
    [| lia | lia | discriminate].
  split; [discriminate |]. simpl. split; [reflexivity | lia].
Defined.
End PrefixWitness.

(** ** Time reversal in the encoder *)

Section Reverse.
Context {F : Type} `{Arith F} `{Activation F}.

Lemma hasShape3_rev (sequence : Tensor3D F) (B T D : nat) :
  hasShape3 B T D sequence -> hasShape3 B T D (map (@rev (list F)) sequence).
Proof.
  intros [HB Hall]. split; [by rewrite length_map |].
  apply Forall_fmap. eapply Forall_impl; [exact Hall |].
  intros m [Hl Hr]. simpl. split; [by rewrite length_rev |]. by apply Forall_rev.
Qed.

Lemma ncols_rev (sequence : Tensor3D F) :
  ncols (map (@rev (list F)) sequence) = ncols sequence.
Proof. destruct sequence as [| m ms]; [done |]. simpl. apply length_rev. Qed.

Lemma timeStep_rev (sequence : Tensor3D F) (B T D t : nat) :
  hasShape3 B T D sequence -> t < T ->
  timeStep (map (@rev (list F)) sequence) t = timeStep sequence (T - 1 - t).
Proof.
  intros [_ Hall] Ht. unfold timeStep. rewrite map_map.
  apply map_ext_in. intros m Hm.
  rewrite Forall_forall in Hall. apply list_elem_of_In, Hall in Hm as [Hl _].
  rewrite rev_nth by lia. f_equal. lia.
Qed.

(** The backward pass of the encoder over a batch is its forward pass over
    the time-reversed batch, and conversely; encoding the time-reversed
    batch therefore feeds the latent projection the backward final state
    under the forward weights next to the forward final state under the
    backward weights. *)
Theorem runLstm_reverse (sequence : Tensor3D F) (vars : LayerVars F) (B T D : nat) :
  hasShape3 B T D sequence ->
  Encoder.runLstm sequence vars true
  = Encoder.runLstm (map (@rev (list F)) sequence) vars false
  /\ Encoder.runLstm sequence vars false
     = Encoder.runLstm (map (@rev (list F)) sequence) vars true
  /\ forall self : Encoder.t F,
       Encoder.encode self (map (@rev (list F)) sequence)
       = dense (Encoder.muVars self)
           (concat2d (snd (Encoder.runLstm sequence (Encoder.lstmFwVars self) true))
                     (snd (Encoder.runLstm sequence (Encoder.lstmBwVars self) false))).
Proof.
  intros Hs. pose proof (hasShape3_rev sequence B T D Hs) as Hr.
  assert (HT : sequence <> [] -> ncols sequence = T).
  { destruct Hs as [_ Hall]. destruct sequence as [| m ms]; [done |]. intros _.
    apply Forall_cons in Hall as [[Hm _] _]. exact Hm. }
  assert (Hsteps : map (timeStep (map (@rev (list F)) sequence)) (seq 0 (ncols sequence))
                   = rev (map (timeStep sequence) (seq 0 (ncols sequence)))).
  { destruct sequence as [| m ms] eqn:E; [done |]. rewrite <- E in *.
    rewrite HT by (by rewrite E).
    rewrite <- map_rev, <- rev_seq_indices, map_map.
    apply map_ext_in. intros t Ht. apply in_seq in Ht.
    apply (timeStep_rev sequence B T D); [done | lia]. }
  assert (E1 : forall v, Encoder.runLstm sequence v true
                         = Encoder.runLstm (map (@rev (list F)) sequence) v false).
  { intros v. rewrite (runLstm_lstmPass sequence v true B T D Hs).
    rewrite (runLstm_lstmPass _ v false B T D Hr). cbn zeta.
    by rewrite ncols_rev, length_map, Hsteps. }
  assert (E2 : forall v, Encoder.runLstm sequence v false
                         = Encoder.runLstm (map (@rev (list F)) sequence) v true).
  { intros v. rewrite (runLstm_lstmPass sequence v false B T D Hs).
    rewrite (runLstm_lstmPass _ v true B T D Hr). cbn zeta.
    by rewrite ncols_rev, length_map, Hsteps, rev_involutive. }
  split; [apply E1 |]. split; [apply E2 |].
  intros self. unfold Encoder.encode. cbn zeta. by rewrite <- E1, <- E2.
Qed.
End Reverse.

Lemma runLstm_reverse_witness :
  Encoder.runLstm (H0 := Qc_softsign) tinySequences (Encoder.lstmBwVars tinyEncoder) true
  = Encoder.runLstm (H0 := Qc_softsign) (map (@rev (list Qc)) tinySequences)
      (Encoder.lstmBwVars tinyEncoder) false.
Proof.
  apply (proj1 (runLstm_reverse (H0 := Qc_softsign) tinySequences
                  (Encoder.lstmBwVars tinyEncoder) 2 2 1 ltac:(repeat constructor))).
Defined.

(** ** More on the NADE head *)

Section NadeMore.
Context {F : Type} `{Arith F} `{Activation F}.

Lemma Nade_sample_rows (n : Nade.t F) (encBias decBias : Tensor2D F) :
  wfNade n -> 2 <= Nade.numDims n ->
  hasShape2 (length encBias) (Nade.numDims n) decBias ->
  exists R,
    Nade.sample n encBias decBias = Ok R
    /\ length R = length encBias
    /\ forall i e d, encBias !! i = Some e -> decBias !! i = Some d ->
         exists r, Nade.sample n [e] [d] = Ok [r] /\ R !! i = Some r.
Proof.
  intros Hwf Hpos. revert decBias.
  induction encBias as [| e0 encBias IH]; intros decBias Hs.
  - destruct Hwf as [He Hd].
    destruct (Nade_sample_stacked n [] decBias 0 He Hd eq_refl Hs) as (_ & _ & HR & _).
    destruct (HR Hpos) as (R & -> & [HL _] & _). exists R. split; [done |]. split; [done |].
    intros i e d Hi. done.
  - destruct decBias as [| d0 decBias]; [destruct Hs as [Hl _]; simpl in Hl; lia |].
    assert (S1 : hasShape2 (length [e0]) (Nade.numDims n) [d0]).
    { destruct Hs as [_ Hw]. apply Forall_cons in Hw as [Hw _].
      split; [done |]. by constructor. }
    assert (S2 : hasShape2 (length encBias) (Nade.numDims n) decBias).
    { destruct Hs as [Hl Hw]. apply Forall_cons in Hw as [_ Hw].
      split; [simpl in Hl; lia | done]. }
    destruct (Nade_sample_app n [e0] encBias [d0] decBias Hwf Hpos S1 S2)
      as (R1 & R2 & E1 & E2 & E12).
    destruct (IH decBias S2) as (R2' & E2' & L2 & Hrows).
    rewrite E2 in E2'. injection E2' as <-.
    destruct Hwf as [He Hd].
    destruct (Nade_sample_stacked n [e0] [d0] 1 He Hd eq_refl S1) as (_ & _ & HR & _).
    destruct (HR Hpos) as (R1' & E1' & [HL _] & _).
    rewrite E1 in E1'. injection E1' as <-.
    destruct R1 as [| r0 [| ? ?]]; try done.
    exists ([r0] ++ R2). split; [exact E12 |]. split; [simpl; lia |].
    intros [| i] e d Hi Hd'; simpl in Hi, Hd'.
    + injection Hi as <-. injection Hd' as <-. by exists r0.
    + simpl. by apply Hrows.
Qed.

(** The NADE head (of at least two dimensions) samples the batch entries
    one by one: row [i] of the result is what the head samples from row [i]
    of the two biases alone. *)
Theorem Nade_sample_batch_independent (n : Nade.t F) (encBias decBias : Tensor2D F) :
  wfNade n -> 2 <= Nade.numDims n -> encBias <> [] ->
  hasShape2 (length encBias) (Nade.numDims n) decBias ->
  exists R,
    Nade.sample n encBias decBias = Ok R
    /\ length R = length encBias
    /\ forall i e d, encBias !! i = Some e -> decBias !! i = Some d ->
         exists r, Nade.sample n [e] [d] = Ok [r] /\ R !! i = Some r.
Proof. intros Hwf Hpos _. by apply Nade_sample_rows. Qed.

Lemma nadeDims_same_rows (n n' : Nade.t F) (decBias : Tensor2D F) :
  Nade.decWeightsT n' = Nade.decWeightsT n -> Nade.numDims n' = Nade.numDims n ->
  (forall i, S i < Nade.numDims n ->
     nth i (Nade.encWeights n') [] = nth i (Nade.encWeights n) []) ->
  forall k i a, i + k = Nade.numDims n ->
    nadeDims n' decBias a i k = nadeDims n decBias a i k.
Proof.
  intros Hd Hn Hrows. induction k as [| k IH]; intros i a Hik; cbn [nadeDims]; [done |].
  cbn zeta.
  assert (Hs : sampleDim n' i a decBias = sampleDim n i a decBias).
  { unfold sampleDim, conditionalLogit. by rewrite Hd. }
  rewrite Hs, Hn. f_equal.
  case_decide as Hlast; [apply IH; lia |].
  rewrite Hrows by lia. apply IH. lia.
Qed.

(** The last row of [encWeights] is never used: the accumulator is not
    updated after the last dimension, so replacing that row changes no
    sample. *)
Theorem Nade_sample_ignores_last_row (n : Nade.t F) (row : Tensor1D F)
    (encBias decBias : Tensor2D F) :
  wfNade n -> length row = Nade.numHidden n ->
  hasShape2 (length encBias) (Nade.numDims n) decBias ->
  Nade.sample
    {| Nade.encWeights := <[Nade.numDims n - 1 := row]> (Nade.encWeights n);
       Nade.decWeightsT := Nade.decWeightsT n;
       Nade.numDims := Nade.numDims n;
       Nade.numHidden := Nade.numHidden n |}
    encBias decBias
  = Nade.sample n encBias decBias.
Proof.
  intros [He Hd] Hrow Hs.
  set (n' := {| Nade.encWeights := <[Nade.numDims n - 1 := row]> (Nade.encWeights n);
                Nade.decWeightsT := Nade.decWeightsT n;
                Nade.numDims := Nade.numDims n;
                Nade.numHidden := Nade.numHidden n |}).
  assert (He' : hasShape2 (Nade.numDims n') (Nade.numHidden n') (Nade.encWeights n')).
  { destruct He as [HL HW]. unfold n'. cbn. split; [by rewrite length_insert |].
    apply Forall_insert; done. }
  destruct (Nade_sample_stacked n encBias decBias _ He Hd eq_refl Hs) as (-> & _).
  destruct (Nade_sample_stacked n' encBias decBias _ He' Hd eq_refl Hs) as (-> & _).
  f_equal. apply nadeDims_same_rows; try done.
  intros i Hi. unfold n'. cbn.
  rewrite !nth_lookup, list_lookup_insert_ne by lia. done.
Qed.
End NadeMore.

Lemma Nade_sample_batch_independent_witness :
  exists R,
    Nade.sample (H0 := Qc_softsign) tinyNade [[q 1 1]; [q (-3) 1]; [q 0 1]]
      [[q 1 1; q 1 1]; [q (-3) 1; q 2 1]; [q (-1) 1; q (-1) 1]] = Ok R
    /\ length R = 3
    /\ forall i e d,
         [[q 1 1]; [q (-3) 1]; [q 0 1]] !! i = Some e ->
         [[q 1 1; q 1 1]; [q (-3) 1; q 2 1]; [q (-1) 1; q (-1) 1]] !! i = Some d ->
         exists r, Nade.sample (H0 := Qc_softsign) tinyNade [e] [d] = Ok [r]
                   /\ R !! i = Some r.
Proof.
  apply (Nade_sample_batch_independent (H0 := Qc_softsign) tinyNade
           [[q 1 1]; [q (-3) 1]; [q 0 1]]
           [[q 1 1; q 1 1]; [q (-3) 1; q 2 1]; [q (-1) 1; q (-1) 1]]).
  - split; (split; [reflexivity | repeat constructor]).
  - simpl. lia.
  - discriminate.
  - split; [reflexivity | repeat constructor].
Defined.

Lemma Nade_sample_ignores_last_row_witness :
  Nade.sample (H0 := Qc_softsign)
    {| Nade.encWeights := [[q 1 1]; [q 7 1]];
       Nade.decWeightsT := [[q 3 1]; [q (-1) 2]];
       Nade.numDims := 2;
       Nade.numHidden := 1 |}
    [[q 1 1]; [q (-3) 1]] [[q 1 1; q 1 1]; [q (-3) 1; q 2 1]]
  = Nade.sample (H0 := Qc_softsign) tinyNade
      [[q 1 1]; [q (-3) 1]] [[q 1 1; q 1 1]; [q (-3) 1; q 2 1]].
Proof.
  apply (Nade_sample_ignores_last_row (H0 := Qc_softsign) tinyNade [q 7 1]
           [[q 1 1]; [q (-3) 1]] [[q 1 1; q 1 1]; [q (-3) 1; q 2 1]]).
  - split; (split; [reflexivity | repeat constructor]).
  - reflexivity.
  - split; [reflexivity | repeat constructor].
Defined.


(** ** A batch without time steps *)

Section NoTimeStep.
Context `{Activation Qc}.
Local Open Scope Qc_scope.

Lemma dot_zeros_Qc (n : nat) (v : Tensor1D Qc) : dot (replicate n 0) v = 0.
Proof.
  unfold dot.
  assert (Hz : forall l : list Qc, Forall (fun x => x = 0) l -> fold_left add l 0 = 0).
  { induction 1 as [| x l -> _ IH]; [done |]. cbn [fold_left].
    change (add 0 0) with (0 + 0). by rewrite Qcplus_0_l. }
  apply Hz. apply Forall_forall. intros x Hx.
  apply list_elem_of_lookup in Hx as [i Hi].
  apply lookup_zip_with_Some in Hi as (a & b & -> & Ha & _).
  apply lookup_replicate in Ha as [-> _]. apply Qcmult_0_l.
Qed.

Lemma add1_zeros_Qc (v : Tensor1D Qc) : add1 (replicate (length v) 0) v = v.
Proof.
  unfold add1. induction v as [| x v IH]; [done |].
  cbn [length replicate zip_with]. rewrite IH. f_equal. apply Qcplus_0_l.
Qed.

(** A batch with no time step encodes, in exact arithmetic, to the bias of
    the latent projection in every row: both passes end in their zero
    states. *)
Theorem encode_no_time_step (self : Encoder.t Qc) (sequence : Tensor3D Qc) :
  ncols sequence = 0%nat ->
  ncols (kernel (Encoder.muVars self)) = length (bias (Encoder.muVars self)) ->
  Encoder.encode self sequence
  = replicate (length sequence) (bias (Encoder.muVars self)).
Proof.
  intros HT HK. unfold Encoder.encode, Encoder.runLstm. cbn zeta. rewrite HT.
  cbn [seq fold_left snd].
  unfold dense, addRows, matMul, matMulT, concat2d, zeros.
  rewrite zip_with_replicate, !fmap_replicate. f_equal.
  rewrite <- replicate_add.
  rewrite (map_ext _ (fun _ => 0)) by (intros; apply dot_zeros_Qc).
  unfold transpose. rewrite map_map.
  assert (Hc : forall (l : list nat), map (fun _ : nat => 0) l = replicate (length l) 0).
  { induction l as [| x l IH]; simpl; [done | by rewrite IH]. }
  rewrite Hc, length_seq, HK. apply add1_zeros_Qc.
Qed.
End NoTimeStep.

Lemma encode_no_time_step_witness :
  Encoder.encode (H0 := Qc_softsign) tinyEncoder [[]; []] = [[q 1 2]; [q 1 2]].
Proof.
  apply (encode_no_time_step (H := Qc_softsign) tinyEncoder [[]; []]); reflexivity.
Defined.

(** ** Names that [initialize] does not read *)

Section OtherNames.
Context {F : Type}.
Implicit Types vars : gmap string (Checkpoint.Tensor F).

Lemma probeCells_agree vars vars' :
  (forall l, vars' !! cellKernel l = vars !! cellKernel l) ->
  (forall l, Checkpoint.layerAt vars' (Checkpoint.cellPrefix l)
             = Checkpoint.layerAt vars (Checkpoint.cellPrefix l)) ->
  Checkpoint.decLstmLayers vars' = Checkpoint.decLstmLayers vars.
Proof.
  intros Hk Hl. unfold Checkpoint.decLstmLayers.
  destruct (probeCells_ends vars) as [ls Hls]. destruct (probeCells_ends vars') as [ls' Hls'].
  rewrite Hls, Hls'. simpl.
  apply probeCells_Some in Hls as (n & H1 & H2 & ->).
  apply probeCells_Some in Hls' as (n' & H1' & H2' & ->).
  simpl in *.
  assert (n = n') as <-.
  { destruct (Nat.lt_trichotomy n n') as [Hlt | [-> | Hgt]]; [| done |].
    - destruct (H1' n Hlt) as [x Hx]. rewrite Hk, H2 in Hx. done.
    - destruct (H1 n' Hgt) as [x Hx]. rewrite <- Hk, H2' in Hx. done. }
  apply map_ext. intros j. apply Hl.
Qed.

(** Variables of the store that [initialize] does not read make no
    difference: adding (or replacing) one under any other name changes
    nothing but [rawVars]. *)
Theorem initialize_ignores_other_names (self : Checkpoint.MusicVAE F) vars
    (k : string) (t : Checkpoint.Tensor F) :
  k ∉ fixedNames ->
  (forall l, k <> Checkpoint.cellPrefix l +:+ "kernel") ->
  (forall l, k <> Checkpoint.cellPrefix l +:+ "bias") ->
  Checkpoint.initialize self (<[k := t]> vars)
  = (m ← Checkpoint.initialize self vars;
     Ok {| Checkpoint.checkpointURL := Checkpoint.checkpointURL m;
           Checkpoint.encoder := Checkpoint.encoder m;
           Checkpoint.decoder := Checkpoint.decoder m;
           Checkpoint.rawVars := Some (<[k := t]> vars) |}).
Proof.
  intros Hfix Hker Hbias.
  assert (Hne : forall name, name ∈ fixedNames -> <[k := t]> vars !! name = vars !! name).
  { intros name Hin. apply lookup_insert_ne. intros ->. done. }
  assert (Hlayer : forall prefix,
             prefix +:+ "kernel" ∈ fixedNames -> prefix +:+ "bias" ∈ fixedNames ->
             Checkpoint.layerAt (<[k := t]> vars) prefix = Checkpoint.layerAt vars prefix).
  { intros prefix I1 I2. unfold Checkpoint.layerAt. by rewrite !Hne. }
  assert (Hcells : Checkpoint.decLstmLayers (<[k := t]> vars) = Checkpoint.decLstmLayers vars).
  { apply probeCells_agree.
    - intros l. apply lookup_insert_ne. apply Hker.
    - intros l. unfold Checkpoint.layerAt.
      rewrite !lookup_insert_ne; [done | apply Hbias | apply Hker]. }
  unfold Checkpoint.initialize. rewrite Hcells.
  rewrite !Hlayer
    by (apply list_elem_of_In; vm_compute; repeat first [left; reflexivity | right]).
  rewrite !Hne
    by (apply list_elem_of_In; vm_compute; repeat first [left; reflexivity | right]).
  destruct (vars !! "decoder/nade/w_enc");
    repeat (match goal with
            | |- context [mbind _ ?r] => destruct r; cbn
            end); done.
Qed.
End OtherNames.

Lemma initialize_ignores_other_names_witness :
  Checkpoint.initialize (Checkpoint.new "ckpt") (<["global_step" := zerosOfShape []]> tinyStore)
  = (m ← Checkpoint.initialize (Checkpoint.new "ckpt") tinyStore;
     Ok {| Checkpoint.checkpointURL := Checkpoint.checkpointURL m;
           Checkpoint.encoder := Checkpoint.encoder m;
           Checkpoint.decoder := Checkpoint.decoder m;
           Checkpoint.rawVars := Some (<["global_step" := zerosOfShape []]> tinyStore) |}).
Proof.
  apply (initialize_ignores_other_names (Checkpoint.new "ckpt") tinyStore "global_step"
           (zerosOfShape [])).
  - unfold fixedNames. intros Hin.
    repeat (apply elem_of_cons in Hin as [Hin | Hin]; [discriminate Hin |]).
    by apply elem_of_nil in Hin.
  - intros l. unfold Checkpoint.cellPrefix. discriminate.
  - intros l. unfold Checkpoint.cellPrefix. discriminate.
Defined.

(** ** The end points of an interpolation *)

Section Endpoints.
Context `{Activation Qc} `{RandomSource Qc}.

Lemma encode_row_lengths (enc : Encoder.t Qc) (sequence : Tensor3D Qc) :
  Forall (fun row => length row
                     = Nat.min (ncols (kernel (Encoder.muVars enc)))
                               (length (bias (Encoder.muVars enc))))
         (Encoder.encode enc sequence).
Proof. unfold Encoder.encode. cbn zeta. apply dense_row_length. Qed.

(** The end points of an interpolation between two sequences are the
    reconstructions of the inputs: in exact arithmetic, with at least two
    steps and inputs of at least two time steps, the first decoded sequence
    is what the decoder generates from the latent of the first input
    encoded alone, and the last one what it generates from the latent of
    the second input. *)
Theorem interpolate_endpoints (self : MusicVAE.t Qc) (enc : Encoder.t Qc)
    (dec : Decoder.t Qc) (s0 s1 : Tensor2D Qc) (T D numSteps : nat) (rt : Runtime Gen) :
  MusicVAE.encoder self = Some enc -> MusicVAE.decoder self = Some dec ->
  wfDecoder dec ->
  hasShape2 T D s0 -> hasShape2 T D s1 -> 2 <= T -> 2 <= numSteps ->
  exists out o0 o1,
    fst (MusicVAE.interpolate self [s0; s1] numSteps rt) = Ok out
    /\ Decoder.decode dec (Encoder.encode enc [s0]) T = Ok [o0]
    /\ Decoder.decode dec (Encoder.encode enc [s1]) T = Ok [o1]
    /\ out !! 0 = Some o0 /\ out !! (numSteps - 1) = Some o1.
Proof.
  intros He Hd Hwf S0 S1 HT Hn.
  assert (Hall : Forall (hasShape2 T D) [s0; s1])
    by (constructor; [done |]; constructor; [done |]; constructor).
  pose proof (encode_rows enc [s0; s1] T D Hall) as Hrows.
  pose proof (encode_row_lengths enc [s0; s1]) as Hlen.
  pose proof (Forall2_length _ _ _ Hrows) as Hl2. simpl in Hl2.
  destruct (Encoder.encode enc [s0; s1]) as [| z0 [| z1 [| ? ?]]] eqn:Ez; try done.
  apply Forall2_cons in Hrows as [E0 Hrows]. apply Forall2_cons in Hrows as [E1 _].
  apply Forall_cons in Hlen as [L0 Hlen]. apply Forall_cons in Hlen as [L1 _].
  destruct (linspace_Ok (F := Qc) zero one numSteps) as (ramp & Hr & _ & _); [lia |].
  destruct (linspace_Qc_ends numSteps ramp Hr Hn) as [R0 R1].
  unfold MusicVAE.interpolate. rewrite He, Hd. cbn [length Nat.eqb negb andb].
  rewrite Ez, (interpolateZs_two z0 z1 numSteps ramp) by (done || lia).
  assert (Hnc : ncols [s0; s1] = T) by (destruct S0; done).
  rewrite Hnc. cbn [fst].
  destruct (decode_rows dec (map (fun t => lerp t z0 z1) ramp) T Hwf HT)
    as (out & -> & Hout).
  assert (P0 : map (fun t => lerp t z0 z1) ramp !! 0 = Some z0).
  { rewrite list_lookup_fmap, R0. simpl. f_equal. apply lerp_Qc_0. lia. }
  assert (P1 : map (fun t => lerp t z0 z1) ramp !! (numSteps - 1) = Some z1).
  { rewrite list_lookup_fmap, R1. simpl. f_equal. apply lerp_Qc_1. lia. }
  destruct (Forall2_lookup_l _ _ _ _ _ Hout P0) as (o0 & Ho0 & D0).
  destruct (Forall2_lookup_l _ _ _ _ _ Hout P1) as (o1 & Ho1 & D1).
  exists out, o0, o1. rewrite E0, E1. done.
Qed.
End Endpoints.

Lemma interpolate_endpoints_witness :
  exists out o0 o1,
    fst (@MusicVAE.interpolate Qc _ Qc_softsign _ counterSource tinyModel
           [[[q 1 1]; [q (-1) 1]]; [[q 1 2]; [q 2 1]]] 3 freshRuntime) = Ok out
    /\ Decoder.decode (H0 := Qc_softsign) tinyDecoderArgmax
         (Encoder.encode (H0 := Qc_softsign) tinyEncoder [[[q 1 1]; [q (-1) 1]]]) 2 = Ok [o0]
    /\ Decoder.decode (H0 := Qc_softsign) tinyDecoderArgmax
         (Encoder.encode (H0 := Qc_softsign) tinyEncoder [[[q 1 2]; [q 2 1]]]) 2 = Ok [o1]
    /\ out !! 0 = Some o0 /\ out !! (3 - 1) = Some o1.
Proof.
  apply (@interpolate_endpoints Qc_softsign counterSource tinyModel tinyEncoder
           tinyDecoderArgmax [[q 1 1]; [q (-1) 1]] [[q 1 2]; [q 2 1]] 2 1 3 freshRuntime);
    try reflexivity; try lia.
  - split; [discriminate |]. simpl. split; [reflexivity | lia].
  - split; [reflexivity | repeat constructor].
  - split; [reflexivity | repeat constructor].
Defined.

Section Corners.
Context `{Activation Qc} `{RandomSource Qc}.

(** The four corners of a grid interpolation are the reconstructions of the
    four inputs, in exact arithmetic, with at least two steps per side and
    inputs of at least two time steps: index 0 holds that of the first
    input, index [numSteps - 1] that of the third, index
    [(numSteps - 1) * numSteps] that of the second and the last index that
    of the fourth. *)
Theorem interpolate_corners (self : MusicVAE.t Qc) (enc : Encoder.t Qc)
    (dec : Decoder.t Qc) (s0 s1 s2 s3 : Tensor2D Qc) (T D numSteps : nat)
    (rt : Runtime Gen) :
  MusicVAE.encoder self = Some enc -> MusicVAE.decoder self = Some dec ->
  wfDecoder dec ->
  Forall (hasShape2 T D) [s0; s1; s2; s3] -> 2 <= T -> 2 <= numSteps ->
  exists out o0 o1 o2 o3,
    fst (MusicVAE.interpolate self [s0; s1; s2; s3] numSteps rt) = Ok out
    /\ Decoder.decode dec (Encoder.encode enc [s0]) T = Ok [o0]
    /\ Decoder.decode dec (Encoder.encode enc [s1]) T = Ok [o1]
    /\ Decoder.decode dec (Encoder.encode enc [s2]) T = Ok [o2]
    /\ Decoder.decode dec (Encoder.encode enc [s3]) T = Ok [o3]
    /\ out !! 0 = Some o0
    /\ out !! (numSteps - 1) = Some o2
    /\ out !! ((numSteps - 1) * numSteps) = Some o1
    /\ out !! ((numSteps - 1) * numSteps + (numSteps - 1)) = Some o3.
Proof.
  intros He Hd Hwf Hall HT Hn.
  pose proof (encode_rows enc [s0; s1; s2; s3] T D Hall) as Hrows.
  pose proof (encode_row_lengths enc [s0; s1; s2; s3]) as Hlen.
  pose proof (Forall2_length _ _ _ Hrows) as Hl4. simpl in Hl4.
  destruct (Encoder.encode enc [s0; s1; s2; s3]) as [| z0 [| z1 [| z2 [| z3 [| ? ?]]]]] eqn:Ez;
    try done.
  apply Forall2_cons in Hrows as [E0 Hrows]. apply Forall2_cons in Hrows as [E1 Hrows].
  apply Forall2_cons in Hrows as [E2 Hrows]. apply Forall2_cons in Hrows as [E3 _].
  apply Forall_cons in Hlen as [L0 Hlen]. apply Forall_cons in Hlen as [L1 Hlen].
  apply Forall_cons in Hlen as [L2 Hlen]. apply Forall_cons in Hlen as [L3 _].
  destruct (linspace_Ok (F := Qc) zero one numSteps) as (ramp & Hr & Hramp & _); [lia |].
  destruct (linspace_Qc_ends numSteps ramp Hr Hn) as [R0 R1].
  unfold MusicVAE.interpolate. rewrite He, Hd. cbn [length Nat.eqb negb andb].
  rewrite Ez, (interpolateZs_four z0 z1 z2 z3 numSteps ramp) by (done || lia).
  assert (Hnc : ncols [s0; s1; s2; s3] = T).
  { apply Forall_cons in Hall as [[Hs0 _] _]. exact Hs0. }
  rewrite Hnc. cbn [fst].
  set (pts := concat (map (fun r => map (fun c => bilinear r c z0 z1 z2 z3) ramp) ramp)).
  destruct (decode_rows dec pts T Hwf HT) as (out & -> & Hout).
  destruct (bilinear_corners_Qc z0 z1 z2 z3) as (B0 & B1 & B2 & B3); try lia.
  assert (P : forall i j r c, ramp !! i = Some r -> ramp !! j = Some c ->
                pts !! (i * numSteps + j) = Some (bilinear r c z0 z1 z2 z3)).
  { intros i j r c Hi Hj. rewrite <- Hramp at 1.
    by apply (grid_lookup (fun r c => bilinear r c z0 z1 z2 z3)). }
  pose proof (P 0 0 _ _ R0 R0) as P00. pose proof (P 0 (numSteps - 1) _ _ R0 R1) as P01.
  pose proof (P (numSteps - 1) 0 _ _ R1 R0) as P10.
  pose proof (P (numSteps - 1) (numSteps - 1) _ _ R1 R1) as P11.
  rewrite B0 in P00. rewrite B2 in P01. rewrite B1 in P10. rewrite B3 in P11.
  simpl in P00, P01. rewrite Nat.add_0_r in P10.
  destruct (Forall2_lookup_l _ _ _ _ _ Hout P00) as (o0 & Ho0 & D0).
  destruct (Forall2_lookup_l _ _ _ _ _ Hout P01) as (o2 & Ho2 & D2).
  destruct (Forall2_lookup_l _ _ _ _ _ Hout P10) as (o1 & Ho1 & D1).
  destruct (Forall2_lookup_l _ _ _ _ _ Hout P11) as (o3 & Ho3 & D3).
  exists out, o0, o1, o2, o3. rewrite E0, E1, E2, E3. done.
Qed.
End Corners.

Lemma interpolate_corners_witness :
  exists out o0 o1 o2 o3,
    fst (@MusicVAE.interpolate Qc _ Qc_softsign _ counterSource tinyModel
           [[[q 1 1]; [q (-1) 1]]; [[q 1 2]; [q 2 1]]; [[q 0 1]; [q 1 1]]; [[q 3 1]; [q 1 3]]]
           2 freshRuntime) = Ok out
    /\ Decoder.decode (H0 := Qc_softsign) tinyDecoderArgmax
         (Encoder.encode (H0 := Qc_softsign) tinyEncoder [[[q 1 1]; [q (-1) 1]]]) 2 = Ok [o0]
    /\ Decoder.decode (H0 := Qc_softsign) tinyDecoderArgmax
         (Encoder.encode (H0 := Qc_softsign) tinyEncoder [[[q 1 2]; [q 2 1]]]) 2 = Ok [o1]
    /\ Decoder.decode (H0 := Qc_softsign) tinyDecoderArgmax
         (Encoder.encode (H0 := Qc_softsign) tinyEncoder [[[q 0 1]; [q 1 1]]]) 2 = Ok [o2]
    /\ Decoder.decode (H0 := Qc_softsign) tinyDecoderArgmax
         (Encoder.encode (H0 := Qc_softsign) tinyEncoder [[[q 3 1]; [q 1 3]]]) 2 = Ok [o3]
    /\ out !! 0 = Some o0
    /\ out !! (2 - 1) = Some o2
    /\ out !! ((2 - 1) * 2) = Some o1
    /\ out !! ((2 - 1) * 2 + (2 - 1)) = Some o3.
Proof.
  apply (@interpolate_corners Qc_softsign counterSource tinyModel tinyEncoder
           tinyDecoderArgmax [[q 1 1]; [q (-1) 1]] [[q 1 2]; [q 2 1]] [[q 0 1]; [q 1 1]]
           [[q 3 1]; [q 1 3]] 2 1 2 freshRuntime);
    try reflexivity; try lia.
  - split; [discriminate |]. simpl. split; [reflexivity | lia].
  - repeat (constructor; [split; [reflexivity | repeat constructor] |]). constructor.
Defined.

Section SingleStep.
Context `{Activation Qc} `{RandomSource Qc}.

(** With a single step the interpolation is the reconstruction of the first
    input and nothing else, for two sequences as for four (exact
    arithmetic, inputs of at least two time steps): the ramp is [[0]]. *)
Theorem interpolate_single_step (self : MusicVAE.t Qc) (enc : Encoder.t Qc)
    (dec : Decoder.t Qc) (s0 : Tensor2D Qc) (rest : Tensor3D Qc) (T D : nat)
    (rt : Runtime Gen) :
  MusicVAE.encoder self = Some enc -> MusicVAE.decoder self = Some dec ->
  wfDecoder dec ->
  Forall (hasShape2 T D) (s0 :: rest) -> length rest = 1 \/ length rest = 3 -> 2 <= T ->
  exists o0,
    fst (MusicVAE.interpolate self (s0 :: rest) 1 rt) = Ok [o0]
    /\ Decoder.decode dec (Encoder.encode enc [s0]) T = Ok [o0].
Proof.
  intros He Hd Hwf Hall Hn HT.
  pose proof (encode_rows enc (s0 :: rest) T D Hall) as Hrows.
  pose proof (encode_row_lengths enc (s0 :: rest)) as Hlen.
  pose proof (Forall2_length _ _ _ Hrows) as Hl. simpl in Hl.
  assert (Hnc : ncols (s0 :: rest) = T).
  { apply Forall_cons in Hall as [[Hs0 _] _]. exact Hs0. }
  assert (Hramp : linspace (F := Qc) zero one 1 = Ok [0%Qc]) by reflexivity.
  unfold MusicVAE.interpolate. rewrite He, Hd, Hnc.
  destruct Hn as [Hn | Hn].
  - destruct rest as [| s1 [| ? ?]]; try done.
    destruct (Encoder.encode enc [s0; s1]) as [| z0 [| z1 [| ? ?]]] eqn:Ez; try done.
    apply Forall2_cons in Hrows as [E0 _].
    apply Forall_cons in Hlen as [L0 Hlen]. apply Forall_cons in Hlen as [L1 _].
    cbn [length Nat.eqb negb andb].
    rewrite (interpolateZs_two z0 z1 1 [0%Qc]) by (done || lia). cbn [map fst].
    rewrite lerp_Qc_0 by lia. rewrite E0.
    destruct (decode_rows dec [z0] T Hwf HT) as (out & E & Hout).
    apply Forall2_cons_inv_l in Hout as (o0 & out' & Ho & Hnil & ->).
    apply Forall2_nil_inv_l in Hnil as ->. exists o0. by rewrite E.
  - destruct rest as [| s1 [| s2 [| s3 [| ? ?]]]]; try done.
    destruct (Encoder.encode enc [s0; s1; s2; s3])
      as [| z0 [| z1 [| z2 [| z3 [| ? ?]]]]] eqn:Ez; try done.
    apply Forall2_cons in Hrows as [E0 _].
    apply Forall_cons in Hlen as [L0 Hlen]. apply Forall_cons in Hlen as [L1 Hlen].
    apply Forall_cons in Hlen as [L2 Hlen]. apply Forall_cons in Hlen as [L3 _].
    cbn [length Nat.eqb negb andb].
    rewrite (interpolateZs_four z0 z1 z2 z3 1 [0%Qc]) by (done || lia).
    cbn [map concat app fst].
    destruct (bilinear_corners_Qc z0 z1 z2 z3) as (-> & _); try lia.
    rewrite E0.
    destruct (decode_rows dec [z0] T Hwf HT) as (out & E & Hout).
    apply Forall2_cons_inv_l in Hout as (o0 & out' & Ho & Hnil & ->).
    apply Forall2_nil_inv_l in Hnil as ->. exists o0. by rewrite E.
Qed.
End SingleStep.

Lemma interpolate_single_step_witness :
  exists o0,
    fst (@MusicVAE.interpolate Qc _ Qc_softsign _ counterSource tinyModel
           [[[q 1 1]; [q (-1) 1]]; [[q 1 2]; [q 2 1]]] 1 freshRuntime) = Ok [o0]
    /\ Decoder.decode (H0 := Qc_softsign) tinyDecoderArgmax
         (Encoder.encode (H0 := Qc_softsign) tinyEncoder [[[q 1 1]; [q (-1) 1]]]) 2 = Ok [o0].
Proof.
  apply (@interpolate_single_step Qc_softsign counterSource tinyModel tinyEncoder
           tinyDecoderArgmax [[q 1 1]; [q (-1) 1]] [[[q 1 2]; [q 2 1]]] 2 1 freshRuntime);
    try reflexivity; try lia.
  - split; [discriminate |]. simpl. split; [reflexivity | lia].
  - repeat (constructor; [split; [reflexivity | repeat constructor] |]). constructor.
  - left. reflexivity.
Defined.

(** ** The first point in binary32 *)

Section FirstPoint.

(** In float32 too, the first point of an interpolation between two
    latents is the first latent, as a number (a zero may change sign),
    provided the latents and their difference are finite: the ramp starts
    at 0 and [0 * d + a] is [a]. *)
Theorem interpolate_first_point_float32 (z0 z1 : Tensor1D float32) (numSteps : nat) :
  Forall finite32 z0 -> Forall finite32 (sub1 z1 z0) ->
  length z0 = length z1 -> 0 < numSteps ->
  exists pts p0,
    MusicVAE.interpolateZs [z0; z1] 2 numSteps = Ok pts
    /\ pts !! 0 = Some p0 /\ Forall2 sameNumber p0 z0.
Proof. apply interpolateZs_first_point_float32. Qed.

Lemma interpolate_first_point_float32_witness :
  exists pts p0,
    MusicVAE.interpolateZs [[f32 12582912 (-23)]; [f32 13421773 (-27)]] 2 3 = Ok pts
    /\ pts !! 0 = Some p0 /\ Forall2 sameNumber p0 [f32 12582912 (-23)].
Proof.
  apply (interpolate_first_point_float32 [f32 12582912 (-23)] [f32 13421773 (-27)] 3);
    try reflexivity; try lia; repeat constructor.
Defined.

(** The hypothesis on the difference is needed: when [z1 - z0] overflows,
    the first point is [0 * infinity + z0], not a number. *)
Example interpolate_first_point_overflow :
  MusicVAE.interpolateZs (F := float32)
    [[S754_finite true 16777215 104]; [S754_finite false 16777215 104]] 2 2
  = Ok [[S754_nan]; [S754_infinity false]].
Proof. vm_compute. reflexivity. Qed.
End FirstPoint.
